(** * tty-games: a shallow embedding of the five terminal games

    The repository holds five single-file ncurses programs: a platformer
    (mario_game.c), two shooters (shooting_game.c and ascii_shooter.c) and
    two snake games (snake_game.c and an older variant that draws on the
    whole terminal).  Each program keeps its world in global variables and
    mutates it from an input phase and an update phase.  The embedding
    below turns the globals of each program into a record, each C function
    into a Rocq function on that record, and each linked list into a Rocq
    list whose head is the C list head. *)

From Stdlib Require Import ZArith List Bool Ascii String Lia.
From Stdlib Require Import Floats.SpecFloat.
Import ListNotations.

Local Open Scope Z_scope.

(** ** C [int]: 32-bit two's complement, wrap-around written out *)

Module CInt.

Definition INT_MIN : Z := - 2 ^ 31.
Definition INT_MAX : Z := 2 ^ 31 - 1.

Definition in_range (z : Z) : Prop := INT_MIN <= z <= INT_MAX.

Definition wrap (z : Z) : Z := (z + 2 ^ 31) mod 2 ^ 32 - 2 ^ 31.

Definition add (a b : Z) : Z := wrap (a + b).
Definition sub (a b : Z) : Z := wrap (a - b).
Definition mul (a b : Z) : Z := wrap (a * b).
Definition neg (a : Z) : Z := wrap (- a).

(** [abs] of stdlib.h on the wrapped representation: [abs(INT_MIN)]
    comes back as [INT_MIN]. *)
Definition abs (a : Z) : Z := wrap (Z.abs a).

(** [a % b] for a non-zero divisor: truncated, sign of the dividend. *)
Definition rem (a b : Z) : Z := Z.rem a b.

(** C truth value of a flag and logical negation [!x]. *)
Definition truthy (x : Z) : bool := negb (x =? 0).
Definition lnot (x : Z) : Z := if x =? 0 then 1 else 0.

End CInt.

(** ** C [float]: IEEE-754 binary32, round to nearest even

    The platformer keeps the player's coordinates and vertical velocity in
    [float].  Every arithmetic operator of the source is one correctly
    rounded binary32 operation (precision 24, emax 128); a product and a
    sum are two operations, each rounded (no fused multiply-add). *)

Module F32.

Definition prec : Z := 24.
Definition emax : Z := 128.

Definition float : Type := spec_float.

Definition add : float -> float -> float := SFadd prec emax.
Definition sub : float -> float -> float := SFsub prec emax.
Definition mul : float -> float -> float := SFmul prec emax.
Definition div : float -> float -> float := SFdiv prec emax.

Definition ltb : float -> float -> bool := SFltb.
Definition leb : float -> float -> bool := SFleb.
Definition gtb (a b : float) : bool := SFltb b a.
Definition geb (a b : float) : bool := SFleb b a.

(** [(float)n] for an [int] n. *)
Definition of_int (n : Z) : float := binary_normalize prec emax n 0 false.

(** [floor] of math.h on the exact value; [None] for NaN and the
    infinities. *)
Definition floorZ (x : float) : option Z :=
  match x with
  | S754_zero _ => Some 0
  | S754_finite s m e =>
      let n := if s then Z.neg m else Z.pos m in
      Some (if 0 <=? e then n * 2 ^ e else n / 2 ^ (- e))
  | S754_infinity _ | S754_nan => None
  end.

(** [(int)floor(x)].  Where the floor does not fit an [int] the
    conversion has no defined result in C; the x86-64 conversion
    instruction yields [INT_MIN] there, which is what is modelled. *)
Definition int_floor (x : float) : Z :=
  match floorZ x with
  | Some z => if (CInt.INT_MIN <=? z) && (z <=? CInt.INT_MAX) then z
              else CInt.INT_MIN
  | None => CInt.INT_MIN
  end.

Definition zero : float := S754_zero false.
Definition one : float := of_int 1.

(** The decimal literals of the source, each the binary32 value nearest
    to the decimal: numerator over denominator, rounded once. *)
Definition lit (num den : Z) : float := div (of_int num) (of_int den).

Definition f0_1 : float := Eval vm_compute in lit 1 10.
Definition f0_5 : float := Eval vm_compute in lit 1 2.
Definition f0_6 : float := Eval vm_compute in lit 6 10.
Definition f0_75 : float := Eval vm_compute in lit 3 4.
Definition f0_9 : float := Eval vm_compute in lit 9 10.
Definition f2_0 : float := Eval vm_compute in of_int 2.
Definition f2_5 : float := Eval vm_compute in lit 5 2.
Definition fm8_0 : float := Eval vm_compute in of_int (-8).

End F32.

(** ** What the programs take from libc and ncurses *)

(** A call either completes, reaches behaviour the C standard leaves
    undefined (a null pointer dereferenced, a remainder by zero), or is
    cut off by the fuel of a loop that the source writes as [while (1)]. *)
Inductive outcome (A : Type) : Type :=
| Done (a : A)
| Fault
| Timeout.

Arguments Done {A} a.
Arguments Fault {A}.
Arguments Timeout {A}.

Definition bind {A B : Type} (m : outcome A) (k : A -> outcome B) : outcome B :=
  match m with
  | Done a => k a
  | Fault => Fault
  | Timeout => Timeout
  end.

Notation "x <- m ;; k" := (bind m (fun x => k))
  (at level 61, m at next level, right associativity).

Module Libc.

(** The two sources of nondeterminism: the sequence of values [rand()]
    yields and the sequence of successes and failures of [malloc].
    Each keeps a cursor, advanced by one per call. *)
Record t : Type := mk {
  rand_src : nat -> Z;
  rand_pos : nat;
  malloc_src : nat -> bool;
  malloc_pos : nat
}.

(** [rand()] returns a value between 0 and RAND_MAX = 2^31 - 1. *)
Definition rand (l : t) : Z * t :=
  (Z.abs (rand_src l (rand_pos l)) mod 2 ^ 31,
   mk (rand_src l) (S (rand_pos l)) (malloc_src l) (malloc_pos l)).

(** [malloc(n)]: [true] for a fresh record, [false] for NULL. *)
Definition malloc (l : t) : bool * t :=
  (malloc_src l (malloc_pos l),
   mk (rand_src l) (rand_pos l) (malloc_src l) (S (malloc_pos l))).

(** A libc whose [rand] yields the given values in turn (then 0) and
    whose allocations succeed or fail as listed (then succeed). *)
Definition scripted (rs : list Z) (ms : list bool) : t :=
  mk (fun n => nth n rs 0) O (fun n => nth n ms true) O.

End Libc.

Module Key.

(** Key codes of ncurses.h and the character codes the programs
    compare [getch()] against. *)
Definition chr (c : ascii) : Z := Z.of_N (N_of_ascii c).

Definition KEY_DOWN : Z := 258.
Definition KEY_UP : Z := 259.
Definition KEY_LEFT : Z := 260.
Definition KEY_RIGHT : Z := 261.

Definition pressed (c : ascii) (ch : Z) : bool := ch =? chr c.

Definition pause_key (ch : Z) : bool := pressed "p" ch || pressed "P" ch.
Definition quit_key (ch : Z) : bool := pressed "q" ch || pressed "Q" ch.

End Key.

(** A [for (i = start; i < start + n; i++)] loop over a state. *)
Fixpoint for_range {S : Type} (n : nat) (i : Z) (body : Z -> S -> S) (s : S) : S :=
  match n with
  | O => s
  | Datatypes.S n' => for_range n' (i + 1) body (body i s)
  end.

(** In-place store into an array cell; the callers check the bounds. *)
Fixpoint store {A : Type} (n : nat) (v : A) (l : list A) : list A :=
  match l, n with
  | [], _ => []
  | _ :: t, O => v :: t
  | h :: t, Datatypes.S n' => h :: store n' v t
  end.

(** ** The platformer (mario_game.c) *)

Module Mario.

Import F32.

Definition MAX_ENEMIES : Z := 128.
Definition GRAVITY : float := f0_6.
Definition JUMP_VELO : float := fm8_0.
Definition MOVE_SPEED : Z := 1.

(** [Player]: fields x, y, vy, facing, on_ground, lives, score. *)
Record Player : Type := mkPlayer {
  pl_x : float;
  pl_y : float;
  pl_vy : float;
  pl_facing : Z;
  pl_on_ground : Z;
  pl_lives : Z;
  pl_score : Z
}.

(** [Enemy]: fields alive, x, y, dir, left_bound, right_bound. *)
Record Enemy : Type := mkEnemy {
  en_alive : Z;
  en_x : Z;
  en_y : Z;
  en_dir : Z;
  en_left_bound : Z;
  en_right_bound : Z
}.

(** The globals of the program.  [map_data] is the mutable copy of the
    level, one list of characters per row; [enemies] is the fixed array
    of [MAX_ENEMIES] records. *)
Record World : Type := mkWorld {
  map_w : Z;
  map_h : Z;
  map_data : list (list ascii);
  player : Player;
  enemies : list Enemy;
  enemy_count : Z;
  cam_x : Z;
  paused : Z;
  game_over : Z;
  win : Z;
  libc : Libc.t
}.

Definition set_map_data (d : list (list ascii)) (w : World) : World :=
  mkWorld (map_w w) (map_h w) d (player w) (enemies w) (enemy_count w)
          (cam_x w) (paused w) (game_over w) (win w) (libc w).
Definition set_player (p : Player) (w : World) : World :=
  mkWorld (map_w w) (map_h w) (map_data w) p (enemies w) (enemy_count w)
          (cam_x w) (paused w) (game_over w) (win w) (libc w).
Definition set_enemies (es : list Enemy) (w : World) : World :=
  mkWorld (map_w w) (map_h w) (map_data w) (player w) es (enemy_count w)
          (cam_x w) (paused w) (game_over w) (win w) (libc w).
Definition set_enemy_count (n : Z) (w : World) : World :=
  mkWorld (map_w w) (map_h w) (map_data w) (player w) (enemies w) n
          (cam_x w) (paused w) (game_over w) (win w) (libc w).
Definition set_cam_x (c : Z) (w : World) : World :=
  mkWorld (map_w w) (map_h w) (map_data w) (player w) (enemies w)
          (enemy_count w) c (paused w) (game_over w) (win w) (libc w).
Definition set_paused (b : Z) (w : World) : World :=
  mkWorld (map_w w) (map_h w) (map_data w) (player w) (enemies w)
          (enemy_count w) (cam_x w) b (game_over w) (win w) (libc w).
Definition set_game_over (b : Z) (w : World) : World :=
  mkWorld (map_w w) (map_h w) (map_data w) (player w) (enemies w)
          (enemy_count w) (cam_x w) (paused w) b (win w) (libc w).
Definition set_win (b : Z) (w : World) : World :=
  mkWorld (map_w w) (map_h w) (map_data w) (player w) (enemies w)
          (enemy_count w) (cam_x w) (paused w) (game_over w) b (libc w).
Definition set_libc (l : Libc.t) (w : World) : World :=
  mkWorld (map_w w) (map_h w) (map_data w) (player w) (enemies w)
          (enemy_count w) (cam_x w) (paused w) (game_over w) (win w) l.

Definition set_x (v : float) (p : Player) : Player :=
  mkPlayer v (pl_y p) (pl_vy p) (pl_facing p) (pl_on_ground p) (pl_lives p) (pl_score p).
Definition set_y (v : float) (p : Player) : Player :=
  mkPlayer (pl_x p) v (pl_vy p) (pl_facing p) (pl_on_ground p) (pl_lives p) (pl_score p).
Definition set_vy (v : float) (p : Player) : Player :=
  mkPlayer (pl_x p) (pl_y p) v (pl_facing p) (pl_on_ground p) (pl_lives p) (pl_score p).
Definition set_facing (v : Z) (p : Player) : Player :=
  mkPlayer (pl_x p) (pl_y p) (pl_vy p) v (pl_on_ground p) (pl_lives p) (pl_score p).
Definition set_on_ground (v : Z) (p : Player) : Player :=
  mkPlayer (pl_x p) (pl_y p) (pl_vy p) (pl_facing p) v (pl_lives p) (pl_score p).
Definition set_lives (v : Z) (p : Player) : Player :=
  mkPlayer (pl_x p) (pl_y p) (pl_vy p) (pl_facing p) (pl_on_ground p) v (pl_score p).
Definition set_score (v : Z) (p : Player) : Player :=
  mkPlayer (pl_x p) (pl_y p) (pl_vy p) (pl_facing p) (pl_on_ground p) (pl_lives p) v.

(** [upd f w] is an assignment to a field of the global [player]. *)
Definition upd (f : Player -> Player) (w : World) : World :=
  set_player (f (player w)) w.

Definition enemy0 : Enemy := mkEnemy 0 0 0 0 0 0.

Definition enemy_at (w : World) (i : Z) : Enemy :=
  nth (Z.to_nat i) (enemies w) enemy0.

Definition set_enemy (i : Z) (e : Enemy) (w : World) : World :=
  set_enemies (store (Z.to_nat i) e (enemies w)) w.

Definition SPACE : ascii := " ".

(** The level that ships with the game. *)
Definition level_map : list string :=
  [ "                                                                                ";
    "                                                                                ";
    "                                                                                ";
    "                                                                                ";
    "                                                                                ";
    "                                                                                ";
    "                                                                                ";
    "                           o                                                    ";
    "                #####                                                           ";
    "                                                                                ";
    "         o                                                                      ";
    "    #######                                                    >               ";
    "                                                                                ";
    "                              ###                                             ";
    "                                                                                ";
    "                o                                                               ";
    "           #####                                                                ";
    "                                                                                ";
    "                                                             E                ";
    "============================================     =============================";
    "                                                                                ";
    "                                                                                " ]%string.

(** [load_map]: the height is the number of rows, the width the longest
    row, and every row is copied and padded with spaces to the width.
    The array of rows and every row come from [malloc] and are written
    through untested. *)
Fixpoint pad_row (n : nat) (cs : list ascii) : list ascii :=
  match n with
  | O => []
  | S n' => match cs with
            | [] => SPACE :: pad_row n' []
            | c :: cs' => c :: pad_row n' cs'
            end
  end.

Definition strlen (s : string) : Z := Z.of_nat (String.length s).

(** The loop over the rows: [map_data[r] = malloc(map_w + 1)], then the
    row of the level is copied into it and the terminator written. *)
Fixpoint load_rows (src : list string) (width : nat) (l : Libc.t)
  : outcome (list (list ascii) * Libc.t) :=
  match src with
  | [] => Done ([], l)
  | s :: rest =>
      let '(ok, l') := Libc.malloc l in
      if negb ok then Fault
      else
        r <- load_rows rest width l' ;;
        Done (pad_row width (list_ascii_of_string s) :: fst r, snd r)
  end.

Definition load_map (src : list string) (w : World) : outcome World :=
  let h := Z.of_nat (List.length src) in
  let wd := fold_left (fun acc s => if acc <? strlen s then strlen s else acc) src 0 in
  let w1 := mkWorld wd h (map_data w) (player w) (enemies w) (enemy_count w)
                    (cam_x w) (paused w) (game_over w) (win w) (libc w) in
  if h =? 0 then Done w1
  else
    let '(ok, l1) := Libc.malloc (libc w) in
    if negb ok then Fault
    else
      r <- load_rows src (Z.to_nat wd) l1 ;;
      Done (set_libc (snd r) (set_map_data (fst r) w1)).

(** [map_at]: the character of a cell, a space outside the map. *)
Definition map_at (w : World) (mx my : Z) : ascii :=
  if (mx <? 0) || (my <? 0) || (map_h w <=? my) || (map_w w <=? mx) then SPACE
  else nth (Z.to_nat mx) (nth (Z.to_nat my) (map_data w) []) SPACE.

Definition set_map_char (mx my : Z) (c : ascii) (w : World) : World :=
  if (mx <? 0) || (my <? 0) || (map_h w <=? my) || (map_w w <=? mx) then w
  else
    let row := nth (Z.to_nat my) (map_data w) [] in
    set_map_data (store (Z.to_nat my) (store (Z.to_nat mx) c row) (map_data w)) w.

Definition is_char (c d : ascii) : bool := Ascii.eqb c d.

(** [tile_collide]: 1 on a platform or ground tile, else 0. *)
Definition tile_collide (w : World) (tx ty : Z) : bool :=
  let ch := map_at w tx ty in
  is_char ch "#" || is_char ch "=".

(** The spawn search of [reset_level]: the first ground or platform
    tile in row-major order, the columns of a row left to right. *)
Fixpoint first_solid_in_row (w : World) (r : Z) (n : nat) (c : Z) : option Z :=
  match n with
  | O => None
  | S n' =>
      let ch := map_at w c r in
      if is_char ch "=" || is_char ch "#" then Some c
      else first_solid_in_row w r n' (c + 1)
  end.

Fixpoint first_solid (w : World) (n : nat) (r : Z) : option (Z * Z) :=
  match n with
  | O => None
  | S n' =>
      match first_solid_in_row w r (Z.to_nat (map_w w)) 0 with
      | Some c => Some (c, r)
      | None => first_solid w n' (r + 1)
      end
  end.

(** The tile [(px, py)] the player is placed on: two rows above the
    first solid tile, never above row 1; [(2, 2)] on a map without
    solid tiles. *)
Definition spawn_tile (w : World) : Z * Z :=
  match first_solid w (Z.to_nat (map_h w)) 0 with
  | Some (c, r) =>
      let py := CInt.sub r 2 in
      (c, if py <? 1 then 1 else py)
  | None => (2, 2)
  end.

(** The start coordinate of the player: [(float)px + 0.5f, (float)py]. *)
Definition spawn_point (w : World) : float * float :=
  let '(px, py) := spawn_tile w in
  (add (of_int px) f0_5, of_int py).

(** The two patrol-bound scans of [spawn_enemies_from_map]. *)
Fixpoint expand_left (w : World) (r : Z) (fuel : nat) (L : Z) : Z :=
  match fuel with
  | O => L
  | S f =>
      if (0 <=? L - 1) && is_char (map_at w (L - 1) r) SPACE
      then expand_left w r f (L - 1) else L
  end.

Fixpoint expand_right (w : World) (r : Z) (fuel : nat) (R : Z) : Z :=
  match fuel with
  | O => R
  | S f =>
      if (R + 1 <? map_w w) && is_char (map_at w (R + 1) r) SPACE
      then expand_right w r f (R + 1) else R
  end.

(** One cell of the scan of [spawn_enemies_from_map]. *)
Definition spawn_cell (r c : Z) (w : World) : World :=
  if is_char (map_at w c r) "E" then
    let w1 :=
      if enemy_count w <? MAX_ENEMIES then
        let '(rv, l') := Libc.rand (libc w) in
        let d := if negb (CInt.rem rv 2 =? 0) then 1 else -1 in
        let L := expand_left w r (Z.to_nat c) c in
        let R := expand_right w r (Z.to_nat (map_w w)) c in
        set_enemy_count (enemy_count w + 1)
          (set_enemy (enemy_count w) (mkEnemy 1 c r d L R) (set_libc l' w))
      else w in
    set_map_char c r SPACE w1
  else w.

Definition spawn_enemies_from_map (w : World) : World :=
  for_range (Z.to_nat (map_h w)) 0
    (fun r => for_range (Z.to_nat (map_w w)) 0 (fun c => spawn_cell r c)) w.

(** [reset_level]: place the player, restore lives and score, clear the
    flags and rebuild the enemies from the markers left on the map. *)
Definition reset_level (w : World) : World :=
  let '(sx, sy) := spawn_point w in
  let w1 := set_player (mkPlayer sx sy zero 1 0 3 0) w in
  let w2 := set_win 0 (set_game_over 0 (set_paused 0 (set_cam_x 0 w1))) in
  let w3 := set_enemy_count 0 w2 in
  let w4 := for_range (Z.to_nat MAX_ENEMIES) 0
              (fun i w' =>
                 let e := enemy_at w' i in
                 set_enemy i (mkEnemy 0 (en_x e) (en_y e) (en_dir e)
                                      (en_left_bound e) (en_right_bound e)) w')
              w3 in
  spawn_enemies_from_map w4.

(** The projected position of [update_physics]: the velocity after
    gravity, the future y, and the three tiles tested. *)
Definition vy_after_gravity (w : World) : float := add (pl_vy (player w)) GRAVITY.
Definition projected_y (w : World) : float :=
  add (pl_y (player w)) (mul (vy_after_gravity w) f0_1).
Definition left_tile (w : World) : Z := int_floor (sub (pl_x (player w)) one).
Definition right_tile (w : World) : Z := int_floor (add (pl_x (player w)) one).
Definition foot_tile (w : World) : Z := int_floor (add (projected_y w) f0_9).
Definition head_tile (w : World) : Z := int_floor (projected_y w).

(** Vertical motion: landing, free fall, head bump or free rise. *)
Definition move_vertical (w : World) : World :=
  let new_y := projected_y w in
  let lt := left_tile w in
  let rt := right_tile w in
  let ft := foot_tile w in
  let ht := head_tile w in
  let w1 := upd (set_vy (vy_after_gravity w)) w in
  if geb (pl_vy (player w1)) zero then
    if tile_collide w1 lt ft || tile_collide w1 rt ft then
      upd (set_y (sub (of_int ft) one)) (upd (set_vy zero) (upd (set_on_ground 1) w1))
    else
      upd (set_y new_y) (upd (set_on_ground 0) w1)
  else
    if tile_collide w1 lt ht || tile_collide w1 rt ht then
      upd (set_y (add (of_int ht) one)) (upd (set_vy zero) w1)
    else
      upd (set_on_ground 0) (upd (set_y new_y) w1).

(** "Prevent falling below map". *)
Definition below_map (w : World) : bool :=
  gtb (pl_y (player w)) (of_int (CInt.sub (map_h w) 1)).

Definition check_fall (w : World) : World :=
  if below_map w then
    let w1 := upd (set_lives (CInt.sub (pl_lives (player w)) 1)) w in
    if pl_lives (player w1) <=? 0 then set_game_over 1 w1
    else reset_level w1
  else w.

(** Coin pickup and exit detection under the player's feet. *)
Definition pickup (w : World) : World :=
  let px_floor := int_floor (pl_x (player w)) in
  let py_floor := int_floor (add (pl_y (player w)) f0_9) in
  let under := map_at w px_floor py_floor in
  if is_char under "o" then
    set_map_char px_floor py_floor SPACE
      (upd (set_score (CInt.add (pl_score (player w)) 5)) w)
  else if is_char under ">" then set_win 1 w
  else w.

Definition update_physics (w : World) : World :=
  pickup (check_fall (move_vertical w)).

(** One key of [handle_input] once the pause and quit keys and the
    paused/won gate are behind: the [switch]. *)
Definition move_key (ch : Z) (w : World) : World :=
  let p := player w in
  if (ch =? Key.KEY_LEFT) || Key.pressed "a" ch || Key.pressed "A" ch then
    let nx := sub (pl_x p) (of_int MOVE_SPEED) in
    let lt := int_floor (sub nx one) in
    let y_top := int_floor (pl_y p) in
    let y_bot := int_floor (add (pl_y p) f0_9) in
    let w1 :=
      if negb (tile_collide w lt y_top) && negb (tile_collide w lt y_bot)
      then upd (set_x nx) w
      else upd (set_x (add (of_int (CInt.add lt 1)) one)) w in
    upd (set_facing (-1)) w1
  else if (ch =? Key.KEY_RIGHT) || Key.pressed "d" ch || Key.pressed "D" ch then
    let nx := add (pl_x p) (of_int MOVE_SPEED) in
    let rt := int_floor (add nx one) in
    let y_top := int_floor (pl_y p) in
    let y_bot := int_floor (add (pl_y p) f0_9) in
    let w1 :=
      if negb (tile_collide w rt y_top) && negb (tile_collide w rt y_bot)
      then upd (set_x nx) w
      else upd (set_x (sub (of_int (CInt.sub rt 1)) one)) w in
    upd (set_facing 1) w1
  else if Key.pressed " " ch || Key.pressed "w" ch || Key.pressed "W" ch
          || (ch =? Key.KEY_UP) then
    if CInt.truthy (pl_on_ground p)
    then upd (set_on_ground 0) (upd (set_vy JUMP_VELO) w)
    else w
  else w.

(** What one iteration of the [while] of [handle_input] does with the
    key it read: the new world, and whether the loop goes on ([true])
    or the function returns ([false], only for the quit key). *)
Definition handle_key (ch : Z) (w : World) : World * bool :=
  if Key.pause_key ch then (set_paused (CInt.lnot (paused w)) w, true)
  else if Key.quit_key ch then (set_game_over 1 w, false)
  else if CInt.truthy (paused w) || CInt.truthy (win w) then (w, true)
  else (move_key ch w, true).

(** [handle_input] on the keys pending in the input queue; the keys
    behind a quit key stay in the queue. *)
Fixpoint handle_input (keys : list Z) (w : World) : World * list Z :=
  match keys with
  | [] => (w, [])
  | ch :: rest =>
      let '(w1, go_on) := handle_key ch w in
      if go_on then handle_input rest w1 else (w1, rest)
  end.

(** [update_enemies]: one patrol step of every live enemy. *)
Definition patrol (i : Z) (w : World) : World :=
  let e := enemy_at w i in
  if negb (CInt.truthy (en_alive e)) then w
  else
    let nx0 := CInt.add (en_x e) (en_dir e) in
    let turn := (nx0 <? en_left_bound e) || (en_right_bound e <? nx0) in
    let d1 := if turn then CInt.neg (en_dir e) else en_dir e in
    let nx := if turn then CInt.add (en_x e) d1 else nx0 in
    if negb (tile_collide w nx (en_y e))
    then set_enemy i (mkEnemy (en_alive e) nx (en_y e) d1
                              (en_left_bound e) (en_right_bound e)) w
    else set_enemy i (mkEnemy (en_alive e) (en_x e) (en_y e) (CInt.neg d1)
                              (en_left_bound e) (en_right_bound e)) w.

Definition update_enemies (w : World) : World :=
  for_range (Z.to_nat (enemy_count w)) 0 patrol w.

(** The tile of the player that [check_enemy_collisions] compares the
    enemies with; it is computed once, before the loop. *)
Definition player_tile (w : World) : Z * Z :=
  (int_floor (pl_x (player w)), int_floor (add (pl_y (player w)) f0_5)).

(** Enemy [i] is alive and within one tile of [(ptx, pty)] both ways. *)
Definition in_contact (ptx pty : Z) (i : Z) (w : World) : bool :=
  let e := enemy_at w i in
  CInt.truthy (en_alive e)
  && (CInt.abs (CInt.sub (en_x e) ptx) <=? 1)
  && (CInt.abs (CInt.sub (en_y e) pty) <=? 1).

(** The stomp test: the player is falling and its foot is less than
    0.75 below the enemy's row. *)
Definition is_stomp (i : Z) (w : World) : bool :=
  gtb (pl_vy (player w)) zero
  && ltb (sub (add (pl_y (player w)) f0_9) (of_int (en_y (enemy_at w i)))) f0_75.

Definition stomp (i : Z) (w : World) : World :=
  let e := enemy_at w i in
  let w1 := set_enemy i (mkEnemy 0 (en_x e) (en_y e) (en_dir e)
                                 (en_left_bound e) (en_right_bound e)) w in
  let w2 := upd (set_score (CInt.add (pl_score (player w1)) 20)) w1 in
  upd (set_on_ground 0) (upd (set_vy (mul JUMP_VELO f0_6)) w2).

Definition hurt (w : World) : World :=
  let w1 := upd (set_lives (CInt.sub (pl_lives (player w)) 1)) w in
  if pl_lives (player w1) <=? 0 then set_game_over 1 w1
  else upd (set_vy zero) (upd (set_y f2_0) (upd (set_x f2_5) w1)).

(** The body of the loop of [check_enemy_collisions] for enemy [i]. *)
Definition contact_step (ptx pty : Z) (i : Z) (w : World) : World :=
  if in_contact ptx pty i w then
    if is_stomp i w then stomp i w else hurt w
  else w.

Definition check_enemy_collisions (w : World) : World :=
  let '(ptx, pty) := player_tile w in
  for_range (Z.to_nat (enemy_count w)) 0 (contact_step ptx pty) w.

(** The update phase of one iteration of the main loop. *)
Definition update (w : World) : World :=
  if negb (CInt.truthy (paused w)) && negb (CInt.truthy (win w))
  then check_enemy_collisions (update_enemies (update_physics w))
  else w.

(** The world when the main loop starts: the shipped level loaded into
    zeroed globals and [reset_level] run once, when [load_map]
    returns. *)
Definition zeroed (l : Libc.t) : World :=
  mkWorld 0 0 [] (mkPlayer zero zero zero 0 0 0 0)
          (repeat enemy0 (Z.to_nat MAX_ENEMIES)) 0 0 0 0 0 l.

Definition initial (l : Libc.t) : outcome World :=
  w <- load_map level_map (zeroed l) ;;
  Done (reset_level w).

End Mario.

(** ** The records the two shooters share *)

Module Shooter.

(** [Bullet]: x, y, dy; the [next] pointer is the tail of the list. *)
Record Bullet : Type := mkBullet { b_x : Z; b_y : Z; b_dy : Z }.

(** [Enemy]: x, y, tick_counter, speed_ticks. *)
Record Enemy : Type := mkEnemy {
  e_x : Z; e_y : Z; e_tick_counter : Z; e_speed_ticks : Z
}.

(** [Player]: x, y, lives, score. *)
Record Player : Type := mkPlayer {
  p_x : Z; p_y : Z; p_lives : Z; p_score : Z
}.

Definition PLAYER_LIVES : Z := 3.

(** [b->y <= 2 || b->y >= max_y - 2] *)
Definition off_screen (max_y : Z) (b : Bullet) : bool :=
  (b_y b <=? 2) || (CInt.sub max_y 2 <=? b_y b).

(** The loop of [update_bullets] in both programs: every bullet is
    moved by the program's own step [advance], and unlinked at once
    when it is then off the screen. *)
Fixpoint sweep_bullets (advance : Bullet -> Bullet) (max_y : Z)
                       (bs : list Bullet) : list Bullet :=
  match bs with
  | [] => []
  | b :: rest =>
      let b' := advance b in
      if off_screen max_y b' then sweep_bullets advance max_y rest
      else b' :: sweep_bullets advance max_y rest
  end.

(** The first part of an enemy's turn in [update_enemies]: count the
    tick and step down one row when the counter reaches the speed. *)
Definition descend (e : Enemy) : Enemy :=
  let t := CInt.add (e_tick_counter e) 1 in
  if e_speed_ticks e <=? t
  then mkEnemy (e_x e) (CInt.add (e_y e) 1) 0 (e_speed_ticks e)
  else mkEnemy (e_x e) (e_y e) t (e_speed_ticks e).

End Shooter.

(** ** The shooter with a difficulty menu (shooting_game.c) *)

Module ShootingGame.

Import Shooter.

Record World : Type := mkWorld {
  max_x : Z;
  max_y : Z;
  player : Player;
  enemies : list Enemy;
  bullets : list Bullet;
  game_over : Z;
  paused : Z;
  spawn_rate : Z;
  enemy_speed : Z;
  enemy_fire_chance : Z;
  spawn_counter : Z;
  libc : Libc.t
}.

Definition set_player (p : Player) (w : World) : World :=
  mkWorld (max_x w) (max_y w) p (enemies w) (bullets w) (game_over w) (paused w)
          (spawn_rate w) (enemy_speed w) (enemy_fire_chance w) (spawn_counter w) (libc w).
Definition set_enemies (es : list Enemy) (w : World) : World :=
  mkWorld (max_x w) (max_y w) (player w) es (bullets w) (game_over w) (paused w)
          (spawn_rate w) (enemy_speed w) (enemy_fire_chance w) (spawn_counter w) (libc w).
Definition set_bullets (bs : list Bullet) (w : World) : World :=
  mkWorld (max_x w) (max_y w) (player w) (enemies w) bs (game_over w) (paused w)
          (spawn_rate w) (enemy_speed w) (enemy_fire_chance w) (spawn_counter w) (libc w).
Definition set_game_over (b : Z) (w : World) : World :=
  mkWorld (max_x w) (max_y w) (player w) (enemies w) (bullets w) b (paused w)
          (spawn_rate w) (enemy_speed w) (enemy_fire_chance w) (spawn_counter w) (libc w).
Definition set_paused (b : Z) (w : World) : World :=
  mkWorld (max_x w) (max_y w) (player w) (enemies w) (bullets w) (game_over w) b
          (spawn_rate w) (enemy_speed w) (enemy_fire_chance w) (spawn_counter w) (libc w).
Definition set_spawn_counter (n : Z) (w : World) : World :=
  mkWorld (max_x w) (max_y w) (player w) (enemies w) (bullets w) (game_over w) (paused w)
          (spawn_rate w) (enemy_speed w) (enemy_fire_chance w) n (libc w).
Definition set_libc (l : Libc.t) (w : World) : World :=
  mkWorld (max_x w) (max_y w) (player w) (enemies w) (bullets w) (game_over w) (paused w)
          (spawn_rate w) (enemy_speed w) (enemy_fire_chance w) (spawn_counter w) l.

Definition set_px (v : Z) (p : Player) : Player :=
  mkPlayer v (p_y p) (p_lives p) (p_score p).
Definition set_lives (v : Z) (p : Player) : Player :=
  mkPlayer (p_x p) (p_y p) v (p_score p).
Definition set_score (v : Z) (p : Player) : Player :=
  mkPlayer (p_x p) (p_y p) (p_lives p) v.

Definition init_game (w : World) : World :=
  set_player (mkPlayer (Z.quot (max_x w) 2) (CInt.sub (max_y w) 3) PLAYER_LIVES 0) w.

(** [add_enemy]: the result of [malloc] is written through without a
    test, so a null result is dereferenced. *)
Definition add_enemy (x y speed : Z) (w : World) : outcome World :=
  let '(ok, l') := Libc.malloc (libc w) in
  if ok then Done (set_enemies (mkEnemy x y 0 speed :: enemies w) (set_libc l' w))
  else Fault.

(** [add_bullet]: likewise. *)
Definition add_bullet (x y dy : Z) (w : World) : outcome World :=
  let '(ok, l') := Libc.malloc (libc w) in
  if ok then Done (set_bullets (mkBullet x y dy :: bullets w) (set_libc l' w))
  else Fault.

Definition spawn_enemy (w : World) : outcome World :=
  let '(rv, l') := Libc.rand (libc w) in
  let m := CInt.sub (max_x w) 4 in
  if m =? 0 then Fault
  else add_enemy (CInt.add (CInt.rem rv m) 2) 3 (enemy_speed w) (set_libc l' w).

(** The loop of [update_enemies] from enemy [e] on; the result is the
    part of the list that stays linked, and the world with the bullets
    fired and the lives lost on the way. *)
Fixpoint update_enemies_from (es : list Enemy) (w : World)
  : outcome (list Enemy * World) :=
  match es with
  | [] => Done ([], w)
  | e :: rest =>
      let e1 := descend e in
      let '(rv, l') := Libc.rand (libc w) in
      let w1 := set_libc l' w in
      if enemy_fire_chance w =? 0 then Fault
      else
        w2 <- (if CInt.rem rv (enemy_fire_chance w) =? 0
               then add_bullet (e_x e1) (CInt.add (e_y e1) 1) 1 w1
               else Done w1) ;;
        if CInt.sub (max_y w2) 3 <=? e_y e1 then
          let w3 := set_player (set_lives (CInt.sub (p_lives (player w2)) 1) (player w2)) w2 in
          let w4 := if p_lives (player w3) <=? 0 then set_game_over 1 w3 else w3 in
          update_enemies_from rest w4
        else
          r <- update_enemies_from rest w2 ;;
          Done (e1 :: fst r, snd r)
  end.

Definition update_enemies (w : World) : outcome World :=
  r <- update_enemies_from (enemies w) w ;;
  Done (set_enemies (fst r) (snd r)).

(** [b->y += b->dy] *)
Definition advance (b : Bullet) : Bullet :=
  mkBullet (b_x b) (CInt.add (b_y b) (b_dy b)) (b_dy b).

Definition update_bullets (w : World) : World :=
  set_bullets (sweep_bullets advance (max_y w) (bullets w)) w.

(** The test of a player bullet against an enemy in [check_collisions]:
    [e->y == b->y && abs(e->x - b->x) <= 1]. *)
Definition hits (e : Enemy) (b : Bullet) : bool :=
  (e_y e =? b_y b) && (CInt.abs (CInt.sub (e_x e) (b_x b)) <=? 1).

(** The inner loop: unlink the first enemy the bullet hits. *)
Fixpoint remove_first_hit (b : Bullet) (es : list Enemy) : option (list Enemy) :=
  match es with
  | [] => None
  | e :: rest =>
      if hits e b then Some rest
      else match remove_first_hit b rest with
           | Some rest' => Some (e :: rest')
           | None => None
           end
  end.

(** The test of an enemy bullet against the player. *)
Definition hits_player (b : Bullet) (p : Player) : bool :=
  (b_y b =? p_y p) && (CInt.abs (CInt.sub (b_x b) (p_x p)) <=? 1).

(** The outer loop of [check_collisions] from bullet [b] on. *)
Fixpoint check_collisions_from (bs : list Bullet) (w : World) : list Bullet * World :=
  match bs with
  | [] => ([], w)
  | b :: rest =>
      if b_dy b <? 0 then
        match remove_first_hit b (enemies w) with
        | Some es' =>
            let w1 := set_player (set_score (CInt.add (p_score (player w)) 10) (player w)) w in
            check_collisions_from rest (set_enemies es' w1)
        | None =>
            let '(kept, w') := check_collisions_from rest w in (b :: kept, w')
        end
      else if hits_player b (player w) then
        let w1 := set_player (set_lives (CInt.sub (p_lives (player w)) 1) (player w)) w in
        let w2 := if p_lives (player w1) <=? 0 then set_game_over 1 w1 else w1 in
        check_collisions_from rest w2
      else
        let '(kept, w') := check_collisions_from rest w in (b :: kept, w')
  end.

Definition check_collisions (w : World) : World :=
  let '(kept, w') := check_collisions_from (bullets w) w in
  set_bullets kept w'.

(** One key of [process_input]. *)
Definition process_key (ch : Z) (w : World) : outcome World :=
  let p := player w in
  if (ch =? Key.KEY_LEFT) && (2 <? p_x p) then
    Done (set_player (set_px (CInt.sub (p_x p) 2) p) w)
  else if (ch =? Key.KEY_RIGHT) && (p_x p <? CInt.sub (max_x w) 3) then
    Done (set_player (set_px (CInt.add (p_x p) 2) p) w)
  else if Key.pressed " " ch then
    add_bullet (p_x p) (CInt.sub (p_y p) 1) (-1) w
  else if Key.pause_key ch then Done (set_paused (CInt.lnot (paused w)) w)
  else if Key.quit_key ch then Done (set_game_over 1 w)
  else Done w.

(** [process_input] drains the queue of pending keys. *)
Fixpoint process_input (keys : list Z) (w : World) : outcome World :=
  match keys with
  | [] => Done w
  | ch :: rest => w1 <- process_key ch w ;; process_input rest w1
  end.

(** One iteration of the main loop, rendering and sleep left out. *)
Definition tick (keys : list Z) (w : World) : outcome World :=
  w1 <- process_input keys w ;;
  if negb (CInt.truthy (paused w1)) then
    let w2 := set_spawn_counter (CInt.add (spawn_counter w1) 1) w1 in
    w3 <- (if spawn_rate w2 <=? spawn_counter w2
           then (w' <- spawn_enemy w2 ;; Done (set_spawn_counter 0 w'))
           else Done w2) ;;
    w4 <- update_enemies w3 ;;
    Done (check_collisions (update_bullets w4))
  else Done w1.

End ShootingGame.

(** ** The shooter with levels (ascii_shooter.c) *)

Module AsciiShooter.

Import Shooter.

Definition INITIAL_SPAWN_RATE : Z := 40.
Definition MIN_SPAWN_RATE : Z := 8.
Definition SPAWN_DECREASE_EVERY : Z := 30.
Definition ENEMY_SPEED_INITIAL : Z := 8.
Definition BULLET_SPEED : Z := 1.

Record World : Type := mkWorld {
  max_x : Z;
  max_y : Z;
  player : Player;
  enemies : list Enemy;
  bullets : list Bullet;
  spawn_counter : Z;
  spawn_rate : Z;
  tick_count : Z;
  game_over : Z;
  paused : Z;
  level : Z;
  enemy_speed : Z;
  libc : Libc.t
}.

Definition set_player (p : Player) (w : World) : World :=
  mkWorld (max_x w) (max_y w) p (enemies w) (bullets w) (spawn_counter w)
          (spawn_rate w) (tick_count w) (game_over w) (paused w) (level w)
          (enemy_speed w) (libc w).
Definition set_enemies (es : list Enemy) (w : World) : World :=
  mkWorld (max_x w) (max_y w) (player w) es (bullets w) (spawn_counter w)
          (spawn_rate w) (tick_count w) (game_over w) (paused w) (level w)
          (enemy_speed w) (libc w).
Definition set_bullets (bs : list Bullet) (w : World) : World :=
  mkWorld (max_x w) (max_y w) (player w) (enemies w) bs (spawn_counter w)
          (spawn_rate w) (tick_count w) (game_over w) (paused w) (level w)
          (enemy_speed w) (libc w).
Definition set_spawn_counter (n : Z) (w : World) : World :=
  mkWorld (max_x w) (max_y w) (player w) (enemies w) (bullets w) n
          (spawn_rate w) (tick_count w) (game_over w) (paused w) (level w)
          (enemy_speed w) (libc w).
Definition set_spawn_rate (n : Z) (w : World) : World :=
  mkWorld (max_x w) (max_y w) (player w) (enemies w) (bullets w) (spawn_counter w)
          n (tick_count w) (game_over w) (paused w) (level w)
          (enemy_speed w) (libc w).
Definition set_tick_count (n : Z) (w : World) : World :=
  mkWorld (max_x w) (max_y w) (player w) (enemies w) (bullets w) (spawn_counter w)
          (spawn_rate w) n (game_over w) (paused w) (level w)
          (enemy_speed w) (libc w).
Definition set_game_over (b : Z) (w : World) : World :=
  mkWorld (max_x w) (max_y w) (player w) (enemies w) (bullets w) (spawn_counter w)
          (spawn_rate w) (tick_count w) b (paused w) (level w)
          (enemy_speed w) (libc w).
Definition set_paused (b : Z) (w : World) : World :=
  mkWorld (max_x w) (max_y w) (player w) (enemies w) (bullets w) (spawn_counter w)
          (spawn_rate w) (tick_count w) (game_over w) b (level w)
          (enemy_speed w) (libc w).
Definition set_level (n : Z) (w : World) : World :=
  mkWorld (max_x w) (max_y w) (player w) (enemies w) (bullets w) (spawn_counter w)
          (spawn_rate w) (tick_count w) (game_over w) (paused w) n
          (enemy_speed w) (libc w).
Definition set_enemy_speed (n : Z) (w : World) : World :=
  mkWorld (max_x w) (max_y w) (player w) (enemies w) (bullets w) (spawn_counter w)
          (spawn_rate w) (tick_count w) (game_over w) (paused w) (level w)
          n (libc w).
Definition set_libc (l : Libc.t) (w : World) : World :=
  mkWorld (max_x w) (max_y w) (player w) (enemies w) (bullets w) (spawn_counter w)
          (spawn_rate w) (tick_count w) (game_over w) (paused w) (level w)
          (enemy_speed w) l.

Definition set_px (v : Z) (p : Player) : Player :=
  mkPlayer v (p_y p) (p_lives p) (p_score p).
Definition set_lives (v : Z) (p : Player) : Player :=
  mkPlayer (p_x p) (p_y p) v (p_score p).
Definition set_score (v : Z) (p : Player) : Player :=
  mkPlayer (p_x p) (p_y p) (p_lives p) v.

Definition absdiff (a b : Z) : Z :=
  if b <? a then CInt.sub a b else CInt.sub b a.

Definition init_game (w : World) : World :=
  mkWorld (max_x w) (max_y w)
          (mkPlayer (Z.quot (max_x w) 2) (CInt.sub (max_y w) 3) PLAYER_LIVES 0)
          [] [] 0 INITIAL_SPAWN_RATE 0 0 0 1 ENEMY_SPEED_INITIAL (libc w).

(** [add_enemy]: [if (!e) return;] drops the spawn on a null result. *)
Definition add_enemy (x y speed_ticks : Z) (w : World) : World :=
  let '(ok, l') := Libc.malloc (libc w) in
  if ok then set_enemies (mkEnemy x y 0 speed_ticks :: enemies w) (set_libc l' w)
  else set_libc l' w.

(** [add_bullet]: [if (!b) return;] likewise. *)
Definition add_bullet (x y dy : Z) (w : World) : World :=
  let '(ok, l') := Libc.malloc (libc w) in
  if ok then set_bullets (mkBullet x y dy :: bullets w) (set_libc l' w)
  else set_libc l' w.

Definition spawn_enemy (w : World) : outcome World :=
  let margin := 2 in
  let '(rv, l') := Libc.rand (libc w) in
  let m := CInt.sub (CInt.sub (max_x w) (margin * 2)) 2 in
  if m =? 0 then Fault
  else Done (add_enemy (CInt.add (CInt.add (CInt.rem rv m) margin) 1) 3
                       (enemy_speed w) (set_libc l' w)).

Fixpoint update_enemies_from (es : list Enemy) (w : World) : list Enemy * World :=
  match es with
  | [] => ([], w)
  | e :: rest =>
      let e1 := descend e in
      let '(rv, l') := Libc.rand (libc w) in
      let w1 := set_libc l' w in
      let w2 := if CInt.rem rv 200 =? 0
                then add_bullet (e_x e1) (CInt.add (e_y e1) 1) 1 w1
                else w1 in
      if CInt.sub (max_y w2) 3 <=? e_y e1 then
        let w3 := set_player (set_lives (CInt.sub (p_lives (player w2)) 1) (player w2)) w2 in
        let w4 := if p_lives (player w3) <=? 0 then set_game_over 1 w3 else w3 in
        update_enemies_from rest w4
      else
        let '(kept, w') := update_enemies_from rest w2 in (e1 :: kept, w')
  end.

Definition update_enemies (w : World) : World :=
  let '(kept, w') := update_enemies_from (enemies w) w in
  set_enemies kept w'.

(** [b->y += b->dy * BULLET_SPEED] *)
Definition advance (b : Bullet) : Bullet :=
  mkBullet (b_x b) (CInt.add (b_y b) (CInt.mul (b_dy b) BULLET_SPEED)) (b_dy b).

Definition update_bullets (w : World) : World :=
  set_bullets (sweep_bullets advance (max_y w) (bullets w)) w.

(** [e->y == pb->y && absdiff(e->x, pb->x) <= 1] *)
Definition hits (e : Enemy) (b : Bullet) : bool :=
  (e_y e =? b_y b) && (absdiff (e_x e) (b_x b) <=? 1).

Fixpoint remove_first_hit (b : Bullet) (es : list Enemy) : option (list Enemy) :=
  match es with
  | [] => None
  | e :: rest =>
      if hits e b then Some rest
      else match remove_first_hit b rest with
           | Some rest' => Some (e :: rest')
           | None => None
           end
  end.

(** An enemy bullet against the ship, which spans x-1 .. x+1. *)
Definition hits_player (b : Bullet) (p : Player) : bool :=
  (b_y b =? p_y p)
  && ((CInt.sub (p_x p) 1 <=? b_x b) && (b_x b <=? CInt.add (p_x p) 1)).

(** First loop of [check_collisions]: the bullets. *)
Fixpoint bullets_pass (bs : list Bullet) (w : World) : list Bullet * World :=
  match bs with
  | [] => ([], w)
  | b :: rest =>
      if b_dy b <? 0 then
        match remove_first_hit b (enemies w) with
        | Some es' =>
            let w1 := set_player (set_score (CInt.add (p_score (player w)) 10) (player w)) w in
            bullets_pass rest (set_enemies es' w1)
        | None =>
            let '(kept, w') := bullets_pass rest w in (b :: kept, w')
        end
      else if hits_player b (player w) then
        let w1 := set_player (set_lives (CInt.sub (p_lives (player w)) 1) (player w)) w in
        let w2 := if p_lives (player w1) <=? 0 then set_game_over 1 w1 else w1 in
        bullets_pass rest w2
      else
        let '(kept, w') := bullets_pass rest w in (b :: kept, w')
  end.

(** Second loop: enemies touching the ship; the function returns as
    soon as the last life is lost, the rest of the list untouched. *)
Fixpoint ramming_pass (es : list Enemy) (w : World) : list Enemy * World :=
  match es with
  | [] => ([], w)
  | e :: rest =>
      if (e_y e =? p_y (player w)) && (absdiff (e_x e) (p_x (player w)) <=? 1) then
        let w1 := set_player (set_lives (CInt.sub (p_lives (player w)) 1) (player w)) w in
        if p_lives (player w1) <=? 0 then (rest, set_game_over 1 w1)
        else ramming_pass rest w1
      else
        let '(kept, w') := ramming_pass rest w in (e :: kept, w')
  end.

Definition check_collisions (w : World) : World :=
  let '(kept_b, w1) := bullets_pass (bullets w) w in
  let w2 := set_bullets kept_b w1 in
  let '(kept_e, w3) := ramming_pass (enemies w2) w2 in
  set_enemies kept_e w3.

(** One key of [process_input]: the [switch]. *)
Definition process_key (ch : Z) (w : World) : World :=
  let p := player w in
  if (ch =? Key.KEY_LEFT) || Key.pressed "a" ch || Key.pressed "A" ch then
    if negb (CInt.truthy (paused w)) then
      if 2 <? p_x p then set_player (set_px (CInt.sub (p_x p) 2) p) w else w
    else w
  else if (ch =? Key.KEY_RIGHT) || Key.pressed "d" ch || Key.pressed "D" ch then
    if negb (CInt.truthy (paused w)) then
      if p_x p <? CInt.sub (max_x w) 3
      then set_player (set_px (CInt.add (p_x p) 2) p) w else w
    else w
  else if Key.pressed " " ch then
    if negb (CInt.truthy (paused w))
    then add_bullet (p_x p) (CInt.sub (p_y p) 1) (-1) w
    else w
  else if Key.pause_key ch then set_paused (CInt.lnot (paused w)) w
  else if Key.quit_key ch then set_game_over 1 w
  else w.

Definition process_input (keys : list Z) (w : World) : World :=
  fold_left (fun w' ch => process_key ch w') keys w.

(** One iteration of the main loop, rendering and sleep left out. *)
Definition tick (keys : list Z) (w : World) : outcome World :=
  let w1 := process_input keys w in
  if negb (CInt.truthy (paused w1)) then
    let w2 := set_tick_count (CInt.add (tick_count w1) 1) w1 in
    let w3 := set_spawn_counter (CInt.add (spawn_counter w2) 1) w2 in
    w4 <- (if spawn_rate w3 <=? spawn_counter w3
           then (w' <- spawn_enemy w3 ;; Done (set_spawn_counter 0 w'))
           else Done w3) ;;
    let w5 :=
      if (CInt.rem (tick_count w4) SPAWN_DECREASE_EVERY =? 0)
         && (MIN_SPAWN_RATE <? spawn_rate w4)
      then
        let w' := set_level (CInt.add (level w4) 1)
                    (set_spawn_rate (CInt.sub (spawn_rate w4) 1) w4) in
        if 2 <? enemy_speed w' then set_enemy_speed (CInt.sub (enemy_speed w') 1) w'
        else w'
      else w4 in
    Done (check_collisions (update_bullets (update_enemies w5)))
  else Done w1.

End AsciiShooter.

(** ** The records the two snake games share *)

Module Snake.

(** [SnakeSegment]: x, y; the [next] pointer is the tail of the list,
    so a body is the list of its cells from the head on. *)
Record Segment : Type := mkSegment { s_x : Z; s_y : Z }.

(** [Food]: x, y. *)
Record Food : Type := mkFood { f_x : Z; f_y : Z }.

(** The scan of [spawn_food]: some segment lies on cell [(fx, fy)]. *)
Definition conflict (body : list Segment) (fx fy : Z) : bool :=
  existsb (fun s => (s_x s =? fx) && (s_y s =? fy)) body.

(** The self-collision scan of [check_collision] over [head->next]. *)
Definition bites (x y : Z) (rest : list Segment) : bool :=
  existsb (fun s => (s_x s =? x) && (s_y s =? y)) rest.

End Snake.

(** ** The snake game with a centred play area (snake_game.c) *)

Module SnakeGame.

Import Snake.

Definition INITIAL_SNAKE_LEN : Z := 12.

(** The globals; [body] is the list behind [snake.head], whose last
    cell is the one [snake.tail] points to. *)
Record World : Type := mkWorld {
  max_x : Z;
  max_y : Z;
  play_x0 : Z;
  play_y0 : Z;
  play_w : Z;
  play_h : Z;
  body : list Segment;
  dir_x : Z;
  dir_y : Z;
  food : Food;
  score : Z;
  paused : Z;
  libc : Libc.t
}.

Definition set_body (b : list Segment) (w : World) : World :=
  mkWorld (max_x w) (max_y w) (play_x0 w) (play_y0 w) (play_w w) (play_h w)
          b (dir_x w) (dir_y w) (food w) (score w) (paused w) (libc w).
Definition set_dir (dx dy : Z) (w : World) : World :=
  mkWorld (max_x w) (max_y w) (play_x0 w) (play_y0 w) (play_w w) (play_h w)
          (body w) dx dy (food w) (score w) (paused w) (libc w).
Definition set_food (f : Food) (w : World) : World :=
  mkWorld (max_x w) (max_y w) (play_x0 w) (play_y0 w) (play_w w) (play_h w)
          (body w) (dir_x w) (dir_y w) f (score w) (paused w) (libc w).
Definition set_score (n : Z) (w : World) : World :=
  mkWorld (max_x w) (max_y w) (play_x0 w) (play_y0 w) (play_w w) (play_h w)
          (body w) (dir_x w) (dir_y w) (food w) n (paused w) (libc w).
Definition set_paused (b : Z) (w : World) : World :=
  mkWorld (max_x w) (max_y w) (play_x0 w) (play_y0 w) (play_w w) (play_h w)
          (body w) (dir_x w) (dir_y w) (food w) (score w) b (libc w).
Definition set_libc (l : Libc.t) (w : World) : World :=
  mkWorld (max_x w) (max_y w) (play_x0 w) (play_y0 w) (play_w w) (play_h w)
          (body w) (dir_x w) (dir_y w) (food w) (score w) (paused w) l.

(** [spawn_food]: draw a cell inside the border until one is free.
    [fuel] bounds the number of draws of the [while (1)]. *)
Fixpoint spawn_food (fuel : nat) (w : World) : outcome World :=
  match fuel with
  | O => Timeout
  | S fuel' =>
      let '(r1, l1) := Libc.rand (libc w) in
      let mx := CInt.sub (play_w w) 2 in
      if mx =? 0 then Fault
      else
        let fx := CInt.add (CInt.add (CInt.rem r1 mx) (play_x0 w)) 1 in
        let '(r2, l2) := Libc.rand l1 in
        let my := CInt.sub (play_h w) 2 in
        if my =? 0 then Fault
        else
          let fy := CInt.add (CInt.add (CInt.rem r2 my) (play_y0 w)) 1 in
          if conflict (body w) fx fy
          then spawn_food fuel' (set_libc l2 w)
          else Done (set_food (mkFood fx fy) (set_libc l2 w))
  end.

(** [erase_tail]: nothing on an empty or single-segment snake,
    otherwise the last segment is unlinked. *)
Definition erase_tail (w : World) : World :=
  match body w with
  | [] => w
  | [_] => w
  | _ => set_body (removelast (body w)) w
  end.

(** [move_snake]: a new head one step ahead; then food eaten and
    respawned, or the tail dropped. *)
Definition move_snake (fuel : nat) (w : World) : outcome World :=
  match body w with
  | [] => Fault
  | h :: _ =>
      let new_x := CInt.add (s_x h) (dir_x w) in
      let new_y := CInt.add (s_y h) (dir_y w) in
      let '(ok, l') := Libc.malloc (libc w) in
      if negb ok then Fault
      else
        let w1 := set_body (mkSegment new_x new_y :: body w) (set_libc l' w) in
        if (new_x =? f_x (food w1)) && (new_y =? f_y (food w1))
        then spawn_food fuel (set_score (CInt.add (score w1) 10) w1)
        else Done (erase_tail w1)
  end.

Definition check_collision (w : World) : outcome bool :=
  match body w with
  | [] => Fault
  | h :: rest =>
      let x := s_x h in
      let y := s_y h in
      if (x <=? play_x0 w)
         || (CInt.sub (CInt.add (play_x0 w) (play_w w)) 1 <=? x)
         || (y <=? play_y0 w)
         || (CInt.sub (CInt.add (play_y0 w) (play_h w)) 1 <=? y)
      then Done true
      else Done (bites x y rest)
  end.

(** The [switch] on the key of one loop iteration, the quit key apart. *)
Definition steer (ch : Z) (w : World) : World :=
  let running := negb (CInt.truthy (paused w)) in
  if ch =? Key.KEY_UP then
    if running && negb (dir_y w =? 1) then set_dir 0 (-1) w else w
  else if ch =? Key.KEY_DOWN then
    if running && negb (dir_y w =? -1) then set_dir 0 1 w else w
  else if ch =? Key.KEY_LEFT then
    if running && negb (dir_x w =? 1) then set_dir (-1) 0 w else w
  else if ch =? Key.KEY_RIGHT then
    if running && negb (dir_x w =? -1) then set_dir 1 0 w else w
  else if Key.pause_key ch then set_paused (CInt.lnot (paused w)) w
  else w.

(** [end_game] frees the snake before the program returns. *)
Definition end_game (w : World) : World := set_body [] w.

(** One iteration of the main loop from the [getch()] on, drawing left
    out: the new world and whether the program has ended. *)
Definition tick (fuel : nat) (ch : Z) (w : World) : outcome (World * bool) :=
  if Key.quit_key ch then Done (end_game w, true)
  else
    let w1 := steer ch w in
    if negb (CInt.truthy (paused w1)) then
      w2 <- move_snake fuel w1 ;;
      hit <- check_collision w2 ;;
      if (hit : bool) then Done (end_game w2, true) else Done (w2, false)
    else Done (w1, false).

(** The loop of [init_game] that links the initial segments, each from
    an allocation that is written through untested. *)
Fixpoint grow (n : nat) (i : Z) (start_x start_y : Z) (l : Libc.t)
  : outcome (list Segment * Libc.t) :=
  match n with
  | O => Done ([], l)
  | S n' =>
      let '(ok, l') := Libc.malloc l in
      if negb ok then Fault
      else
        r <- grow n' (i + 1) start_x start_y l' ;;
        Done (mkSegment (CInt.sub start_x i) start_y :: fst r, snd r)
  end.

Definition init_game (fuel : nat) (w : World) : outcome World :=
  let start_x := CInt.add (play_x0 w) (Z.quot (play_w w) 2) in
  let start_y := CInt.add (play_y0 w) (Z.quot (play_h w) 2) in
  r <- grow (Z.to_nat INITIAL_SNAKE_LEN) 0 start_x start_y (libc w) ;;
  spawn_food fuel
    (set_score 0 (set_body (fst r) (set_libc (snd r) (set_dir 1 0 w)))).

End SnakeGame.

(** ** The snake game on the whole terminal (second program of the
       unnamed source file) *)

Module SnakeFull.

Import Snake.

Record World : Type := mkWorld {
  max_x : Z;
  max_y : Z;
  body : list Segment;
  dir_x : Z;
  dir_y : Z;
  food : Food;
  score : Z;
  paused : Z;
  libc : Libc.t
}.

Definition set_body (b : list Segment) (w : World) : World :=
  mkWorld (max_x w) (max_y w) b (dir_x w) (dir_y w) (food w) (score w)
          (paused w) (libc w).
Definition set_dir (dx dy : Z) (w : World) : World :=
  mkWorld (max_x w) (max_y w) (body w) dx dy (food w) (score w)
          (paused w) (libc w).
Definition set_food (f : Food) (w : World) : World :=
  mkWorld (max_x w) (max_y w) (body w) (dir_x w) (dir_y w) f (score w)
          (paused w) (libc w).
Definition set_score (n : Z) (w : World) : World :=
  mkWorld (max_x w) (max_y w) (body w) (dir_x w) (dir_y w) (food w) n
          (paused w) (libc w).
Definition set_paused (b : Z) (w : World) : World :=
  mkWorld (max_x w) (max_y w) (body w) (dir_x w) (dir_y w) (food w) (score w)
          b (libc w).
Definition set_libc (l : Libc.t) (w : World) : World :=
  mkWorld (max_x w) (max_y w) (body w) (dir_x w) (dir_y w) (food w) (score w)
          (paused w) l.

(** [spawn_food]: [fx = rand() % (max_x - 2) + 1],
    [fy = rand() % (max_y - 3) + 2], redrawn until the cell is free. *)
Fixpoint spawn_food (fuel : nat) (w : World) : outcome World :=
  match fuel with
  | O => Timeout
  | S fuel' =>
      let '(r1, l1) := Libc.rand (libc w) in
      let mx := CInt.sub (max_x w) 2 in
      if mx =? 0 then Fault
      else
        let fx := CInt.add (CInt.rem r1 mx) 1 in
        let '(r2, l2) := Libc.rand l1 in
        let my := CInt.sub (max_y w) 3 in
        if my =? 0 then Fault
        else
          let fy := CInt.add (CInt.rem r2 my) 2 in
          if conflict (body w) fx fy
          then spawn_food fuel' (set_libc l2 w)
          else Done (set_food (mkFood fx fy) (set_libc l2 w))
  end.

(** [erase_tail]: walks to the second-last segment and frees the one
    behind it; with fewer than two segments it reads through a null
    pointer. *)
Definition erase_tail (w : World) : outcome World :=
  match body w with
  | [] => Fault
  | [_] => Fault
  | _ => Done (set_body (removelast (body w)) w)
  end.

Definition move_snake (fuel : nat) (w : World) : outcome World :=
  match body w with
  | [] => Fault
  | h :: _ =>
      let new_x := CInt.add (s_x h) (dir_x w) in
      let new_y := CInt.add (s_y h) (dir_y w) in
      let '(ok, l') := Libc.malloc (libc w) in
      if negb ok then Fault
      else
        let w1 := set_body (mkSegment new_x new_y :: body w) (set_libc l' w) in
        if (new_x =? f_x (food w1)) && (new_y =? f_y (food w1))
        then spawn_food fuel (set_score (CInt.add (score w1) 10) w1)
        else erase_tail w1
  end.

Definition check_collision (w : World) : outcome bool :=
  match body w with
  | [] => Fault
  | h :: rest =>
      let x := s_x h in
      let y := s_y h in
      if (x <=? 0) || (CInt.sub (max_x w) 1 <=? x)
         || (y <=? 1) || (CInt.sub (max_y w) 1 <=? y)
      then Done true
      else Done (bites x y rest)
  end.

Definition steer (ch : Z) (w : World) : World :=
  let running := negb (CInt.truthy (paused w)) in
  if ch =? Key.KEY_UP then
    if running && negb (dir_y w =? 1) then set_dir 0 (-1) w else w
  else if ch =? Key.KEY_DOWN then
    if running && negb (dir_y w =? -1) then set_dir 0 1 w else w
  else if ch =? Key.KEY_LEFT then
    if running && negb (dir_x w =? 1) then set_dir (-1) 0 w else w
  else if ch =? Key.KEY_RIGHT then
    if running && negb (dir_x w =? -1) then set_dir 1 0 w else w
  else if Key.pause_key ch then set_paused (CInt.lnot (paused w)) w
  else w.

(** One iteration of the main loop from the [getch()] on; [end_game]
    here leaves the globals as they are. *)
Definition tick (fuel : nat) (ch : Z) (w : World) : outcome (World * bool) :=
  if Key.quit_key ch then Done (w, true)
  else
    let w1 := steer ch w in
    if negb (CInt.truthy (paused w1)) then
      w2 <- move_snake fuel w1 ;;
      hit <- check_collision w2 ;;
      Done (w2, (hit : bool))
    else Done (w1, false).

Fixpoint grow (n : nat) (i : Z) (start_x start_y : Z) (l : Libc.t)
  : outcome (list Segment * Libc.t) :=
  match n with
  | O => Done ([], l)
  | S n' =>
      let '(ok, l') := Libc.malloc l in
      if negb ok then Fault
      else
        r <- grow n' (i + 1) start_x start_y l' ;;
        Done (mkSegment (CInt.sub start_x i) start_y :: fst r, snd r)
  end.

Definition init_game (fuel : nat) (w : World) : outcome World :=
  r <- grow 35 0 (Z.quot (max_x w) 2) (Z.quot (max_y w) 2) (libc w) ;;
  spawn_food fuel (set_body (fst r) (set_libc (snd r) (set_dir 1 0 w))).

End SnakeFull.

(** ** Predicates and checkers used by the properties *)

Module Checks.

Import F32.

(** The floats that compare [>= 0]: both zeros, the positive finite
    numbers and plus infinity. *)
Definition nonneg (x : float) : Prop :=
  match x with
  | S754_zero _ => True
  | S754_finite s _ _ => s = false
  | S754_infinity s => s = false
  | S754_nan => False
  end.

(** [(float)ft - 1.0f > (float)n] *)
Definition above (n ft : nat) : bool :=
  gtb (sub (of_int (Z.of_nat ft)) one) (of_int (Z.of_nat n)).

Definition row_below (n : nat) : bool :=
  forallb (fun ft => negb (above n ft)) (seq 0 (S n)).

Definition pred_is_exact (ft : nat) : bool :=
  match floorZ (sub (of_int (Z.of_nat ft)) one) with
  | Some z => z =? Z.of_nat ft - 1
  | None => false
  end.

End Checks.

(** ** The cells that the snake games compute *)

Module Draws.

Import Snake.

(** The cell one step ahead of the head [h] of snake_game.c:
    [new_x = head->x + dir_x], [new_y = head->y + dir_y]. *)
Definition sg_ahead (h : Segment) (w : SnakeGame.World) : Segment :=
  mkSegment (CInt.add (s_x h) (SnakeGame.dir_x w))
            (CInt.add (s_y h) (SnakeGame.dir_y w)).

(** The same in the other snake game. *)
Definition sf_ahead (h : Segment) (w : SnakeFull.World) : Segment :=
  mkSegment (CInt.add (s_x h) (SnakeFull.dir_x w))
            (CInt.add (s_y h) (SnakeFull.dir_y w)).

(** [new_x == food.x && new_y == food.y] *)
Definition eats (s : Segment) (f : Food) : bool :=
  (s_x s =? f_x f) && (s_y s =? f_y f).

(** The libc after the two calls of [rand] of one round of the loop of
    [spawn_food]. *)
Definition next_round (l : Libc.t) : Libc.t :=
  snd (Libc.rand (snd (Libc.rand l))).

(** snake_game.c: the cell drawn in the next round, and in round [k]. *)
Definition sg_candidate (w : SnakeGame.World) : Z * Z :=
  let '(r1, l1) := Libc.rand (SnakeGame.libc w) in
  let '(r2, _) := Libc.rand l1 in
  (CInt.add (CInt.add (CInt.rem r1 (CInt.sub (SnakeGame.play_w w) 2))
                      (SnakeGame.play_x0 w)) 1,
   CInt.add (CInt.add (CInt.rem r2 (CInt.sub (SnakeGame.play_h w) 2))
                      (SnakeGame.play_y0 w)) 1).

Fixpoint sg_draw (k : nat) (w : SnakeGame.World) : Z * Z :=
  match k with
  | O => sg_candidate w
  | S k' => sg_draw k' (SnakeGame.set_libc (next_round (SnakeGame.libc w)) w)
  end.

(** The other snake game. *)
Definition sf_candidate (w : SnakeFull.World) : Z * Z :=
  let '(r1, l1) := Libc.rand (SnakeFull.libc w) in
  let '(r2, _) := Libc.rand l1 in
  (CInt.add (CInt.rem r1 (CInt.sub (SnakeFull.max_x w) 2)) 1,
   CInt.add (CInt.rem r2 (CInt.sub (SnakeFull.max_y w) 3)) 2).

Fixpoint sf_draw (k : nat) (w : SnakeFull.World) : Z * Z :=
  match k with
  | O => sf_candidate w
  | S k' => sf_draw k' (SnakeFull.set_libc (next_round (SnakeFull.libc w)) w)
  end.

(** A cell is free when no segment of the body lies on it. *)
Definition free (body : list Segment) (c : Z * Z) : bool :=
  negb (conflict body (fst c) (snd c)).

End Draws.

(** ** Concrete worlds *)

Module Scenario.

(** *** Platformer *)

(** The world a call returns with; the zeroed globals stand for a call
    that does not return. *)
Definition returned (o : outcome Mario.World) : Mario.World :=
  match o with
  | Done w => w
  | Fault | Timeout => Mario.zeroed (Libc.scripted [] [])
  end.

(** The world when the main loop of the platformer starts, every
    allocation of [load_map] having succeeded. *)
Definition mario_start : Mario.World :=
  returned (Mario.initial (Libc.scripted [] [])).

Definition mario_place (x y vy : F32.float) (on_ground : Z) (w : Mario.World)
  : Mario.World :=
  Mario.upd (Mario.set_on_ground on_ground)
    (Mario.upd (Mario.set_vy vy) (Mario.upd (Mario.set_y y) (Mario.upd (Mario.set_x x) w))).

(** The player falling through the gap in the ground (columns 44 to 48),
    at x = 46.5, y = 20.9, with velocity 3 and all three lives. *)
Definition mario_in_gap : Mario.World :=
  mario_place (F32.lit 93 2) (F32.lit 209 10) (F32.of_int 3) 0 mario_start.

(** The player standing on the ground at x = 60.5, y = 18, next to the
    enemy of the level, which starts on tile (61, 18). *)
Definition mario_beside_enemy : Mario.World :=
  mario_place (F32.lit 121 2) (F32.of_int 18) F32.zero 1 mario_start.

(** The player at x = 16.5, y = 7.1, at rest just above the platform
    of row 8. *)
Definition mario_above_platform : Mario.World :=
  mario_place (F32.lit 33 2) (F32.lit 71 10) F32.zero 0 mario_start.




(** *** Shooters: an 80 x 24 terminal, medium difficulty *)

Definition sg_zeroed (l : Libc.t) : ShootingGame.World :=
  ShootingGame.mkWorld 80 24 (Shooter.mkPlayer 0 0 0 0) [] [] 0 0 50 8 200 0 l.

(** shooting_game.c after [init_game], running. *)
Definition sg_start (l : Libc.t) : ShootingGame.World :=
  ShootingGame.init_game (sg_zeroed l).

(** The same game paused (the user pressed p). *)
Definition sg_paused : ShootingGame.World :=
  ShootingGame.set_paused 1 (sg_start (Libc.scripted [] [])).

(** ascii_shooter.c after [init_game]. *)
Definition as_start (l : Libc.t) : AsciiShooter.World :=
  AsciiShooter.init_game
    (AsciiShooter.mkWorld 80 24 (Shooter.mkPlayer 0 0 0 0) [] [] 0 0 0 0 0 0 0 l).

(** Two player bullets in flight, one about to reach the top border. *)
Definition two_bullets : list Shooter.Bullet :=
  [Shooter.mkBullet 40 3 (-1); Shooter.mkBullet 40 10 (-1)].

Definition sg_firing : ShootingGame.World :=
  ShootingGame.set_bullets two_bullets (sg_start (Libc.scripted [] [])).

Definition as_firing : AsciiShooter.World :=
  AsciiShooter.set_bullets two_bullets (as_start (Libc.scripted [] [])).

(** An enemy one column to the right of a player bullet, same row. *)
Definition near_enemy : Shooter.Enemy := Shooter.mkEnemy 41 10 0 8.
Definition near_bullet : Shooter.Bullet := Shooter.mkBullet 40 10 (-1).

(** A libc whose next allocation fails. *)
Definition out_of_memory : Libc.t := Libc.scripted [] [false].

(** *** Snakes: an 80 x 24 terminal *)

(** snake_game.c with its play area of 40 x 12 at (20, 6), a snake of
    three segments heading right.  The first two values of [rand] draw
    the cell (22 + 20 + 1, 5 + 6 + 1) right of the head, the next two
    the cell (30, 8). *)
Definition sg_snake (food : Snake.Food) : SnakeGame.World :=
  SnakeGame.mkWorld 80 24 20 6 40 12
    [Snake.mkSegment 42 12; Snake.mkSegment 41 12; Snake.mkSegment 40 12]
    1 0 food 0 0 (Libc.scripted [22; 5; 9; 1] []).

Definition sg_cruising : SnakeGame.World := sg_snake (Snake.mkFood 44 12).
Definition sg_eating : SnakeGame.World := sg_snake (Snake.mkFood 43 12).

(** The other snake game in the same positions; the first two values
    of [rand] draw (42 + 1, 10 + 2), the next two (10, 3). *)
Definition sf_snake (food : Snake.Food) : SnakeFull.World :=
  SnakeFull.mkWorld 80 24
    [Snake.mkSegment 42 12; Snake.mkSegment 41 12; Snake.mkSegment 40 12]
    1 0 food 0 0 (Libc.scripted [42; 10; 9; 1] []).

Definition sf_cruising : SnakeFull.World := sf_snake (Snake.mkFood 44 12).
Definition sf_eating : SnakeFull.World := sf_snake (Snake.mkFood 43 12).

End Scenario.

(** ** Shapes and invariants of the worlds *)

Module Shape.

(** The map of the platformer is a grid: [map_h] rows of [map_w]
    characters each, as [load_map] allocates it. *)
Definition grid (w : Mario.World) : Prop :=
  0 <= Mario.map_w w
  /\ 0 <= Mario.map_h w
  /\ List.length (Mario.map_data w) = Z.to_nat (Mario.map_h w)
  /\ Forall (fun row => List.length row = Z.to_nat (Mario.map_w w))
            (Mario.map_data w).

(** A cell of the grid. *)
Definition inside (w : Mario.World) (mx my : Z) : Prop :=
  0 <= mx < Mario.map_w w /\ 0 <= my < Mario.map_h w.

(** The width [load_map] computes: the length of a longest row, from
    the starting value [acc]. *)
Definition widest (src : list string) (acc : Z) : Z :=
  fold_left (fun acc s => if acc <? Mario.strlen s then Mario.strlen s else acc)
            src acc.

(** Two worlds of the platformer with the same map. *)
Definition same_map (w w' : Mario.World) : Prop :=
  Mario.map_w w' = Mario.map_w w
  /\ Mario.map_h w' = Mario.map_h w
  /\ Mario.map_data w' = Mario.map_data w.

(** No enemy marker is left on the map. *)
Definition no_marker (w : Mario.World) : Prop :=
  forall mx my, Mario.map_at w mx my <> "E"%char.

(** A grid on which no enemy marker is left. *)
Definition cleared (w : Mario.World) : Prop := grid w /\ no_marker w.

(** The tile under the player's feet that [update_physics] inspects
    for a coin or the exit. *)
Definition feet (w : Mario.World) : Z * Z :=
  (F32.int_floor (Mario.pl_x (Mario.player w)),
   F32.int_floor (F32.add (Mario.pl_y (Mario.player w)) F32.f0_9)).

End Shape.

(** ** The camera of the platformer (draw) *)

Module MarioView.

Import F32.

(** [(int)x] for a [float] x: the value with its fraction dropped;
    [INT_MIN] where C leaves the conversion undefined, as [int_floor]. *)
Definition truncZ (x : float) : option Z :=
  match x with
  | S754_zero _ => Some 0
  | S754_finite s m e =>
      let n := if 0 <=? e then Z.pos m * 2 ^ e else Z.pos m / 2 ^ (- e) in
      Some (if s then - n else n)
  | S754_infinity _ | S754_nan => None
  end.

Definition int_trunc (x : float) : Z :=
  match truncZ x with
  | Some z => if (CInt.INT_MIN <=? z) && (z <=? CInt.INT_MAX) then z
              else CInt.INT_MIN
  | None => CInt.INT_MIN
  end.

(** The camera position [draw] computes for a terminal [term_w] columns
    wide: a third of the screen left of the player, clamped to the map. *)
Definition camera (term_w : Z) (w : Mario.World) : Z :=
  let margin := Z.quot term_w 3 in
  let target_cam := CInt.sub (int_trunc (Mario.pl_x (Mario.player w))) margin in
  let target_cam := if target_cam <? 0 then 0 else target_cam in
  let target_cam :=
    if CInt.sub (Mario.map_w w) term_w <? target_cam
    then CInt.sub (Mario.map_w w) term_w else target_cam in
  if Mario.map_w w <=? term_w then 0 else target_cam.

(** [draw]: the terminal width is what [getmaxyx] gives, here the
    parameter [term_w]; of the globals of the model it writes [cam_x],
    the rest of it prints. *)
Definition draw (term_w : Z) (w : Mario.World) : Mario.World :=
  Mario.set_cam_x (camera term_w w) w.

End MarioView.

(** ** Predicates on the enemies and keys of the platformer *)

Module Patrol.

(** An enemy on a patrol range of at least two tiles: inside the range,
    facing left or right, the range being [int]s with room for one step
    on either side. *)
Definition patrolling (e : Mario.Enemy) : Prop :=
  Mario.en_left_bound e < Mario.en_right_bound e
  /\ Mario.en_left_bound e <= Mario.en_x e <= Mario.en_right_bound e
  /\ (Mario.en_dir e = 1 \/ Mario.en_dir e = -1)
  /\ CInt.INT_MIN < Mario.en_left_bound e
  /\ Mario.en_right_bound e < CInt.INT_MAX.

(** The keys that [handle_input] takes as a jump. *)
Definition jump_key (ch : Z) : bool :=
  Key.pressed " " ch || Key.pressed "w" ch || Key.pressed "W" ch
  || (ch =? Key.KEY_UP).

End Patrol.

(** ** The start of shooting_game.c: menu and difficulty *)

Module ShootingMenu.

Definition NEWLINE : Z := 10.

(** [show_menu]: the loop reads keys (blocking) until it reads a
    newline; up and down move the choice within 1..3.  The result is the
    choice and the keys left in the queue, or [None] while the loop is
    still waiting for a key. *)
Fixpoint show_menu_from (keys : list Z) (choice : Z) : option (Z * list Z) :=
  match keys with
  | [] => None
  | ch :: rest =>
      if (ch =? Key.KEY_UP) && (1 <? choice) then show_menu_from rest (choice - 1)
      else if (ch =? Key.KEY_DOWN) && (choice <? 3) then show_menu_from rest (choice + 1)
      else if ch =? NEWLINE then Some (choice, rest)
      else show_menu_from rest choice
  end.

Definition show_menu (keys : list Z) : option (Z * list Z) :=
  show_menu_from keys 1.

Definition set_difficulty (rate speed chance : Z) (w : ShootingGame.World)
  : ShootingGame.World :=
  ShootingGame.mkWorld
    (ShootingGame.max_x w) (ShootingGame.max_y w) (ShootingGame.player w)
    (ShootingGame.enemies w) (ShootingGame.bullets w) (ShootingGame.game_over w)
    (ShootingGame.paused w) rate speed chance (ShootingGame.spawn_counter w)
    (ShootingGame.libc w).

(** The [switch (level)] of [main]; it has no default case. *)
Definition configure (level : Z) (w : ShootingGame.World) : ShootingGame.World :=
  if level =? 1 then set_difficulty 80 12 400 w
  else if level =? 2 then set_difficulty 50 8 200 w
  else if level =? 3 then set_difficulty 25 5 80 w
  else w.

(** [main] up to the loop: menu, difficulty, [init_game]. *)
Definition startup (keys : list Z) (w : ShootingGame.World)
  : option (ShootingGame.World * list Z) :=
  match show_menu keys with
  | None => None
  | Some (level, rest) => Some (ShootingGame.init_game (configure level w), rest)
  end.

End ShootingMenu.

(** ** Predicates on the worlds of the shooters *)

Module Deck.


(** The difficulty of ascii_shooter.c within its limits, the level
    counting the reductions of the spawn rate. *)
Definition tuned (w : AsciiShooter.World) : Prop :=
  AsciiShooter.MIN_SPAWN_RATE <= AsciiShooter.spawn_rate w
                              <= AsciiShooter.INITIAL_SPAWN_RATE
  /\ 2 <= AsciiShooter.enemy_speed w <= AsciiShooter.ENEMY_SPEED_INITIAL
  /\ AsciiShooter.level w + AsciiShooter.spawn_rate w
     = 1 + AsciiShooter.INITIAL_SPAWN_RATE.

(** The three globals of the difficulty of ascii_shooter.c. *)
Definition tuning (w : AsciiShooter.World) : Z * Z * Z :=
  (AsciiShooter.spawn_rate w, AsciiShooter.enemy_speed w, AsciiShooter.level w).

(** An enemy that has not reached the row of the ship. *)
Definition above_ship (max_y : Z) (e : Shooter.Enemy) : bool :=
  negb (CInt.sub max_y 3 <=? Shooter.e_y e).

End Deck.

(** ** The shape of a snake *)

Module Trail.

Import Snake.

(** One of the four headings the arrow keys set. *)
Definition unit_heading (dx dy : Z) : Prop := Z.abs dx + Z.abs dy = 1.

(** Two cells that share a side. *)
Definition adjacent (a b : Segment) : Prop :=
  Z.abs (s_x a - s_x b) + Z.abs (s_y a - s_y b) = 1.

(** Every segment lies beside the next one. *)
Fixpoint chain (body : list Segment) : Prop :=
  match body with
  | [] => True
  | a :: rest =>
      match rest with
      | b :: _ => adjacent a b
      | [] => True
      end /\ chain rest
  end.

(** No segment lies on the cell of the segment two places behind it:
    the body never folds back onto itself. *)
Fixpoint unfolded (body : list Segment) : Prop :=
  match body with
  | [] => True
  | a :: rest =>
      match rest with
      | _ :: c :: _ => a <> c
      | _ => True
      end /\ unfolded rest
  end.

(** The head lies one step along the heading from the segment behind
    it. *)
Definition towards (body : list Segment) (dx dy : Z) : Prop :=
  match body with
  | h :: n :: _ => s_x h = s_x n + dx /\ s_y h = s_y n + dy
  | _ => True
  end.

Definition trail (body : list Segment) (dx dy : Z) : Prop :=
  unit_heading dx dy /\ chain body /\ unfolded body /\ towards body dx dy.

(** The head can take a step without leaving the range of [int]. *)
Definition head_in_bounds (body : list Segment) : Prop :=
  match body with
  | h :: _ => CInt.INT_MIN < s_x h < CInt.INT_MAX
              /\ CInt.INT_MIN < s_y h < CInt.INT_MAX
  | [] => True
  end.

(** The cells strictly inside the border of snake_game.c and of the
    other snake game: where [check_collision] finds no wall. *)
Definition sg_inside (w : SnakeGame.World) (x y : Z) : Prop :=
  SnakeGame.play_x0 w < x < SnakeGame.play_x0 w + SnakeGame.play_w w - 1
  /\ SnakeGame.play_y0 w < y < SnakeGame.play_y0 w + SnakeGame.play_h w - 1.

Definition sf_inside (w : SnakeFull.World) (x y : Z) : Prop :=
  0 < x < SnakeFull.max_x w - 1 /\ 1 < y < SnakeFull.max_y w - 1.

(** The cells [init_game] lays the snake on: [len] cells leftwards
    from [(start_x, start_y)]. *)
Definition row_of (len : nat) (start_x start_y : Z) : list Segment :=
  map (fun i => mkSegment (CInt.sub start_x (Z.of_nat i)) start_y) (seq 0 len).

End Trail.

(** ** The start of snake_game.c *)

Module SnakeStart.

Import SnakeGame.

(** [main], lines 79-85: the play area is half of the terminal in each
    direction, or all but four columns (rows) of a small terminal, and
    it is centred. *)
Definition layout (w : World) : World :=
  let pw := Z.quot (CInt.mul (max_x w) 50) 100 in
  let ph := Z.quot (CInt.mul (max_y w) 50) 100 in
  let pw := if pw <? 20 then CInt.sub (max_x w) 4 else pw in
  let ph := if ph <? 10 then CInt.sub (max_y w) 4 else ph in
  let px0 := Z.quot (CInt.sub (max_x w) pw) 2 in
  let py0 := Z.quot (CInt.sub (max_y w) ph) 2 in
  mkWorld (max_x w) (max_y w) px0 py0 pw ph
          (body w) (dir_x w) (dir_y w) (food w) (score w) (paused w) (libc w).

(** [main] from the layout to the loop; the menu before it sets only
    the delay of the loop. *)
Definition start (fuel : nat) (w : World) : outcome World :=
  init_game fuel (layout w).

End SnakeStart.

(** ** More concrete worlds *)

Module Scenario2.

(** The shipped level loaded, before the first [reset_level]: the enemy
    marker is still on the map. *)
Definition mario_loaded : Mario.World :=
  Scenario.returned
    (Mario.load_map Mario.level_map (Mario.zeroed (Libc.scripted [] []))).

(** The player over the coin of tile (27, 7), at x = 27.5, y = 6.5. *)
Definition mario_on_coin : Mario.World :=
  Scenario.mario_place (F32.lit 55 2) (F32.lit 13 2) F32.zero 0 mario_loaded.

(** The player on the ground at the start, x = 16.5, y = 18. *)
Definition mario_grounded : Mario.World :=
  Scenario.mario_place (F32.lit 33 2) (F32.of_int 18) F32.zero 1
                       Scenario.mario_start.

(** The player falling onto the enemy of the level from just above:
    x = 61.5, y = 17.2, velocity 2. *)
Definition mario_stomping : Mario.World :=
  Scenario.mario_place (F32.lit 123 2) (F32.lit 172 10) (F32.of_int 2) 0
                       Scenario.mario_start.

(** The player just after a jump from the ground: velocity -8. *)
Definition mario_rising : Mario.World :=
  Scenario.mario_place (F32.lit 33 2) (F32.of_int 18) Mario.JUMP_VELO 0
                       Scenario.mario_start.

(** The player on the exit of the level, tile (63, 11): x = 63.5,
    y = 10.5. *)
Definition mario_at_exit : Mario.World :=
  Scenario.mario_place (F32.lit 127 2) (F32.lit 21 2) F32.zero 0
                       Scenario.mario_start.

(** Two enemies, the first on row 20 and due to step onto the row of
    the ship (row 21 of a terminal of 24 rows). *)
Definition raiders : list Shooter.Enemy :=
  [Shooter.mkEnemy 10 20 7 8; Shooter.mkEnemy 12 5 0 8].

Definition sg_raided : ShootingGame.World :=
  ShootingGame.set_enemies raiders (Scenario.sg_start (Libc.scripted [1; 1] [])).

Definition as_raided : AsciiShooter.World :=
  AsciiShooter.set_enemies raiders (Scenario.as_start (Libc.scripted [1; 1] [])).

(** A player bullet beside the second raider and an enemy bullet on the
    ship (the ship is at column 40 of row 21). *)
Definition crossfire : list Shooter.Bullet :=
  [Shooter.mkBullet 13 5 (-1); Shooter.mkBullet 40 21 1; Shooter.mkBullet 3 9 (-1)].

Definition sg_crossfire : ShootingGame.World :=
  ShootingGame.set_bullets crossfire sg_raided.

Definition as_crossfire : AsciiShooter.World :=
  AsciiShooter.set_bullets crossfire as_raided.

(** snake_game.c and the other snake game on a terminal of 80 x 24
    before [main] has laid anything out; [rand] draws 22 and 5 first. *)
Definition sg_terminal : SnakeGame.World :=
  SnakeGame.mkWorld 80 24 0 0 0 0 [] 0 0 (Snake.mkFood 0 0) 0 0
                    (Libc.scripted [22; 5] []).

Definition sf_terminal : SnakeFull.World :=
  SnakeFull.mkWorld 80 24 [] 0 0 (Snake.mkFood 0 0) 0 0
                    (Libc.scripted [22; 5] []).

(** A libc whose third allocation fails. *)
Definition starved : Libc.t := Libc.scripted [] [true; true; false].

(** The cruising snakes, paused. *)
Definition sg_resting : SnakeGame.World :=
  SnakeGame.set_paused 1 Scenario.sg_cruising.

Definition sf_resting : SnakeFull.World :=
  SnakeFull.set_paused 1 Scenario.sf_cruising.

End Scenario2.

(** * Properties *)

(** ** Facts about the C integer and libc models *)

Module CIntFacts.

Import CInt.

Lemma wrap_id z : in_range z -> wrap z = z.
Proof.
  unfold in_range, INT_MIN, INT_MAX, wrap. intros H.
  rewrite Z.mod_small; lia.
Qed.

Lemma wrap_in_range z : in_range (wrap z).
Proof.
  unfold in_range, INT_MIN, INT_MAX, wrap.
  pose proof (Z.mod_pos_bound (z + 2 ^ 31) (2 ^ 32) ltac:(lia)). lia.
Qed.

Lemma add_exact a b : in_range (a + b) -> add a b = a + b.
Proof. apply wrap_id. Qed.

Lemma sub_exact a b : in_range (a - b) -> sub a b = a - b.
Proof. apply wrap_id. Qed.

Lemma abs_exact a : INT_MIN < a <= INT_MAX -> abs a = Z.abs a.
Proof.
  intros H. apply wrap_id. unfold in_range, INT_MIN, INT_MAX in *. lia.
Qed.

Lemma rand_bounds l : 0 <= fst (Libc.rand l) < 2 ^ 31.
Proof. unfold Libc.rand; simpl. apply Z.mod_pos_bound. lia. Qed.

End CIntFacts.

(** ** Facts about binary32 arithmetic *)

Module F32Facts.

Import F32 Checks.

Lemma geb_zero_nonneg x : geb x zero = true <-> nonneg x.
Proof.
  unfold geb, SFleb, zero; destruct x as [s | s | | s m e]; simpl;
    try destruct s; simpl; intuition congruence.
Qed.

Lemma shr_1_nonneg mrs : 0 <= shr_m mrs -> 0 <= shr_m (shr_1 mrs).
Proof.
  destruct mrs as [m r s]; simpl.
  destruct m as [ | p | p ]; simpl; try lia; destruct p; simpl; lia.
Qed.

Lemma iter_shr_1_nonneg p : forall mrs,
  0 <= shr_m mrs -> 0 <= shr_m (iter_pos shr_1 p mrs).
Proof.
  induction p as [p IH | p IH | ]; intros mrs H; simpl.
  - apply IH, IH, shr_1_nonneg, H.
  - apply IH, IH, H.
  - apply shr_1_nonneg, H.
Qed.

Lemma shr_fexp_nonneg m e l :
  0 <= m -> 0 <= shr_m (fst (shr_fexp prec emax m e l)).
Proof.
  intros H. unfold shr_fexp, shr.
  assert (H0 : 0 <= shr_m (shr_record_of_loc m l)).
  { destruct l as [ | c]; [ | destruct c]; simpl; exact H. }
  destruct (fexp prec emax (Zdigits2 m + e) - e); simpl; auto.
  apply iter_shr_1_nonneg, H0.
Qed.

Lemma round_nearest_even_nonneg m l : 0 <= m -> 0 <= round_nearest_even m l.
Proof.
  intros H. destruct l as [ | c]; [ | destruct c]; simpl; try lia.
  destruct (Z.even m); lia.
Qed.

Lemma binary_round_aux_nonneg m e l :
  0 <= m -> nonneg (binary_round_aux prec emax false m e l).
Proof.
  intros H. unfold binary_round_aux.
  pose proof (shr_fexp_nonneg m e l H) as H1.
  destruct (shr_fexp prec emax m e l) as [mrs' e']. simpl in H1.
  pose proof (shr_fexp_nonneg _ e' loc_Exact
                (round_nearest_even_nonneg _ (loc_of_shr_record mrs') H1)) as H2.
  destruct (shr_fexp prec emax _ e' loc_Exact) as [mrs'' e'']. simpl in H2.
  destruct (shr_m mrs'') as [ | p | p ]; simpl; [ exact I | | lia ].
  destruct (Z.leb _ _); simpl; reflexivity.
Qed.

Lemma binary_round_nonneg m e : nonneg (binary_round prec emax false m e).
Proof.
  unfold binary_round.
  destruct (shl_align m e _) as [mz ez].
  apply binary_round_aux_nonneg. lia.
Qed.

(** Adding a positive finite number to a float that is [>= 0] gives a
    float that is [>= 0]. *)
Lemma add_nonneg x m e : nonneg x -> nonneg (add x (S754_finite false m e)).
Proof.
  destruct x as [s | s | | s mx ex]; simpl; intros H; try contradiction.
  - reflexivity.
  - subst s. reflexivity.
  - subst s. unfold add, SFadd. simpl.
    apply binary_round_nonneg.
Qed.

Lemma add_gravity_nonneg vy : geb vy zero = true -> geb (add vy f0_6) zero = true.
Proof.
  rewrite !geb_zero_nonneg. apply add_nonneg.
Qed.

(** Checking a decidable property of the first [N] naturals by
    evaluation. *)
Lemma forall_below (P : nat -> bool) (N : nat) :
  forallb P (seq 0 N) = true -> forall k, (k < N)%nat -> P k = true.
Proof.
  intros H k Hk. rewrite forallb_forall in H. apply H, in_seq. lia.
Qed.

Lemma small_rows_checked : forallb row_below (seq 0 256) = true.
Proof. vm_compute. reflexivity. Qed.

(** Standing on a row of a map of up to 256 rows is not below the
    map: [(float)ft - 1.0f > (float)n] fails for [0 <= ft <= n < 256]. *)
Lemma small_rows ft n :
  0 <= ft <= n -> n < 256 ->
  gtb (sub (of_int ft) one) (of_int n) = false.
Proof.
  intros Hft Hn.
  assert (Bn : (Z.to_nat n < 256)%nat) by lia.
  assert (Bft : (Z.to_nat ft < S (Z.to_nat n))%nat) by lia.
  pose proof (forall_below row_below 256 small_rows_checked _ Bn) as H.
  pose proof (forall_below _ _ H _ Bft) as H'.
  cbv beta in H'. unfold above in H'.
  rewrite !Z2Nat.id in H' by lia.
  apply negb_true_iff in H'. exact H'.
Qed.

Lemma pred_exact_checked : forallb pred_is_exact (seq 0 4096) = true.
Proof. vm_compute. reflexivity. Qed.

(** [(float)ft - 1.0f] is the integer [ft - 1], exactly, for the rows
    of a map of up to 4096 rows. *)
Lemma pred_exact ft :
  0 <= ft < 4096 -> floorZ (sub (of_int ft) one) = Some (ft - 1).
Proof.
  intros Hft.
  assert (B : (Z.to_nat ft < 4096)%nat) by lia.
  pose proof (forall_below pred_is_exact 4096 pred_exact_checked _ B) as H.
  unfold pred_is_exact in H. rewrite Z2Nat.id in H by lia.
  destruct (floorZ (sub (of_int ft) one)) as [z | ]; [ | discriminate].
  apply Z.eqb_eq in H. congruence.
Qed.

End F32Facts.

(** ** The platformer *)

Module MarioFacts.

Import F32 Mario Scenario.

(** An invariant of the loop body is an invariant of the loop. *)
Lemma for_range_inv {S : Type} (P : S -> Prop) (body : Z -> S -> S) :
  (forall i s, P s -> P (body i s)) ->
  forall n i s, P s -> P (for_range n i body s).
Proof.
  intros Hbody n. induction n as [ | n IH]; intros i s Hs; simpl.
  - exact Hs.
  - apply IH, Hbody, Hs.
Qed.

(** Writes to the player leave the map as it is. *)
Lemma map_at_upd f w mx my : map_at (upd f w) mx my = map_at w mx my.
Proof. reflexivity. Qed.

Lemma tile_collide_upd f w tx ty : tile_collide (upd f w) tx ty = tile_collide w tx ty.
Proof. reflexivity. Qed.

(** A solid tile lies inside the map. *)
Lemma tile_collide_inside w tx ty :
  tile_collide w tx ty = true -> 0 <= ty < map_h w /\ 0 <= tx < map_w w.
Proof.
  unfold tile_collide, map_at.
  destruct (tx <? 0) eqn:E1; [ discriminate | ].
  destruct (ty <? 0) eqn:E2; [ discriminate | ].
  destruct (map_h w <=? ty) eqn:E3; [ discriminate | ].
  destruct (map_w w <=? tx) eqn:E4; [ discriminate | ].
  intros _. lia.
Qed.

Lemma player_set_map_char mx my c w : player (set_map_char mx my c w) = player w.
Proof.
  unfold set_map_char.
  destruct ((mx <? 0) || (my <? 0) || (map_h w <=? my) || (map_w w <=? mx));
    reflexivity.
Qed.

(** Coin pickup and exit detection touch the score at most. *)
Lemma pickup_player w :
  player (pickup w) = player w
  \/ player (pickup w) = set_score (CInt.add (pl_score (player w)) 5) (player w).
Proof.
  unfold pickup.
  destruct (is_char _ "o").
  - right. rewrite player_set_map_char. reflexivity.
  - left. destruct (is_char _ ">"); reflexivity.
Qed.

Lemma pickup_keeps w :
  pl_x (player (pickup w)) = pl_x (player w)
  /\ pl_y (player (pickup w)) = pl_y (player w)
  /\ pl_vy (player (pickup w)) = pl_vy (player w)
  /\ pl_on_ground (player (pickup w)) = pl_on_ground (player w)
  /\ pl_lives (player (pickup w)) = pl_lives (player w).
Proof.
  destruct (pickup_player w) as [E | E]; rewrite E; repeat split; reflexivity.
Qed.

(** The landing branch of the vertical motion. *)
Lemma move_vertical_landing w :
  geb (vy_after_gravity w) zero = true ->
  tile_collide w (left_tile w) (foot_tile w)
  || tile_collide w (right_tile w) (foot_tile w) = true ->
  move_vertical w
  = upd (set_y (sub (of_int (foot_tile w)) one))
      (upd (set_vy zero) (upd (set_on_ground 1) (upd (set_vy (vy_after_gravity w)) w))).
Proof.
  intros Hvy Hsolid. unfold move_vertical.
  change (pl_vy (player (upd (set_vy (vy_after_gravity w)) w)))
    with (vy_after_gravity w).
  rewrite Hvy, !tile_collide_upd, Hsolid. reflexivity.
Qed.

(** Past the fall test nothing moves when the player is not below the
    map. *)
Lemma check_fall_inside w : below_map w = false -> check_fall w = w.
Proof. unfold check_fall. intros ->. reflexivity. Qed.

(** What the landing branch does when a probe finds a solid tile: a
    physics update with the velocity at least 0 (before gravity is
    added, or once it is) and a solid tile under the left or right edge
    of the player on the projected foot row puts the player at
    [(float)foot_tile - 1.0f], one row above that tile, with velocity 0
    and [on_ground] set.  This holds after the vertical motion and, on a
    map of at most 256 rows (the shipped one has 22), at the end of
    [update_physics], where the new y is exactly the integer
    [foot_tile - 1]. *)
Lemma landing_snaps_player (w : World) :
  geb (pl_vy (player w)) zero = true \/ geb (vy_after_gravity w) zero = true ->
  tile_collide w (left_tile w) (foot_tile w)
  || tile_collide w (right_tile w) (foot_tile w) = true ->
  (pl_y (player (move_vertical w)) = sub (of_int (foot_tile w)) one
   /\ pl_vy (player (move_vertical w)) = zero
   /\ pl_on_ground (player (move_vertical w)) = 1)
  /\ (map_h w <= 256 ->
      pl_y (player (update_physics w)) = sub (of_int (foot_tile w)) one
      /\ floorZ (pl_y (player (update_physics w))) = Some (foot_tile w - 1)
      /\ pl_vy (player (update_physics w)) = zero
      /\ pl_on_ground (player (update_physics w)) = 1).
Proof.
  intros Hvy Hsolid.
  assert (Hvy' : geb (vy_after_gravity w) zero = true).
  { destruct Hvy as [H | H]; [ | exact H].
    apply F32Facts.add_gravity_nonneg, H. }
  pose proof (move_vertical_landing w Hvy' Hsolid) as Eland.
  split.
  - rewrite Eland. repeat split; reflexivity.
  - intros Hrows.
    assert (Hin : 0 <= foot_tile w < map_h w).
    { apply orb_true_iff in Hsolid.
      destruct Hsolid as [H | H]; apply tile_collide_inside in H; tauto. }
    assert (Hnofall : below_map (move_vertical w) = false).
    { rewrite Eland. unfold below_map.
      change (gtb (sub (of_int (foot_tile w)) one)
                  (of_int (CInt.sub (map_h w) 1)) = false).
      rewrite CIntFacts.sub_exact
        by (unfold CInt.in_range, CInt.INT_MIN, CInt.INT_MAX; lia).
      apply F32Facts.small_rows; lia. }
    unfold update_physics. rewrite (check_fall_inside _ Hnofall).
    destruct (pickup_keeps (move_vertical w)) as (_ & Ey & Evy & Eg & _).
    rewrite Ey, Evy, Eg, Eland.
    repeat split; try reflexivity.
    apply F32Facts.pred_exact. lia.
Qed.

(** The landing on the platform of row 8 of the shipped level. *)
Lemma landing_snaps_player_witness :
  (geb (pl_vy (player mario_above_platform)) zero = true
   \/ geb (vy_after_gravity mario_above_platform) zero = true)
  /\ tile_collide mario_above_platform (left_tile mario_above_platform)
                  (foot_tile mario_above_platform)
     || tile_collide mario_above_platform (right_tile mario_above_platform)
                     (foot_tile mario_above_platform) = true
  /\ pl_y (player (update_physics mario_above_platform)) = of_int 7.
Proof.
  assert (H1 : geb (pl_vy (player mario_above_platform)) zero = true)
    by (vm_compute; reflexivity).
  assert (H2 : tile_collide mario_above_platform (left_tile mario_above_platform)
                  (foot_tile mario_above_platform)
     || tile_collide mario_above_platform (right_tile mario_above_platform)
                     (foot_tile mario_above_platform) = true)
    by (vm_compute; reflexivity).
  split; [ left; exact H1 | split; [ exact H2 | ] ].
  destruct (landing_snaps_player mario_above_platform (or_introl H1) H2)
    as (_ & Hfull).
  destruct Hfull as (Ey & _); [ vm_compute; discriminate | ].
  rewrite Ey. vm_compute. reflexivity.
Defined.

(** With the velocity at least 0 and no solid tile under either probe
    the player is not stopped, whatever lies under the column between
    the probes. *)
Lemma landing_needs_a_probe (w : World) :
  geb (vy_after_gravity w) zero = true ->
  tile_collide w (left_tile w) (foot_tile w)
  || tile_collide w (right_tile w) (foot_tile w) = false ->
  pl_y (player (move_vertical w)) = projected_y w
  /\ pl_vy (player (move_vertical w)) = vy_after_gravity w
  /\ pl_on_ground (player (move_vertical w)) = 0.
Proof.
  intros Hvy Hfree. unfold move_vertical.
  change (pl_vy (player (upd (set_vy (vy_after_gravity w)) w)))
    with (vy_after_gravity w).
  rewrite Hvy, !tile_collide_upd, Hfree. repeat split; reflexivity.
Qed.


(** [hurt] with a life to spare: one life less, the player at the fixed
    coordinate (2.5, 2.0) with velocity 0, nothing else written. *)
Lemma hurt_respawn w :
  1 < pl_lives (player w) <= CInt.INT_MAX ->
  hurt w
  = set_player (mkPlayer f2_5 f2_0 zero (pl_facing (player w))
                         (pl_on_ground (player w)) (pl_lives (player w) - 1)
                         (pl_score (player w))) w.
Proof.
  intros Hl. unfold hurt.
  change (pl_lives (player (upd (set_lives (CInt.sub (pl_lives (player w)) 1)) w)))
    with (CInt.sub (pl_lives (player w)) 1).
  rewrite CIntFacts.sub_exact
    by (unfold CInt.in_range, CInt.INT_MIN, CInt.INT_MAX in *; lia).
  destruct (pl_lives (player w) - 1 <=? 0) eqn:E; [ lia | ].
  reflexivity.
Qed.

(** C10.  A contact that is not a stomp, with more than one life left,
    rewrites the player's lives, x, y and vy and nothing else: the score,
    the map, the enemy array (the touched enemy stays alive) and every
    other global are as before. *)
Theorem hurt_contact_frame (w : World) (ptx pty i : Z) :
  in_contact ptx pty i w = true ->
  is_stomp i w = false ->
  1 < pl_lives (player w) <= CInt.INT_MAX ->
  contact_step ptx pty i w
  = set_player (mkPlayer f2_5 f2_0 zero (pl_facing (player w))
                         (pl_on_ground (player w)) (pl_lives (player w) - 1)
                         (pl_score (player w))) w
  /\ pl_score (player (contact_step ptx pty i w)) = pl_score (player w)
  /\ map_data (contact_step ptx pty i w) = map_data w
  /\ map_w (contact_step ptx pty i w) = map_w w
  /\ map_h (contact_step ptx pty i w) = map_h w
  /\ enemies (contact_step ptx pty i w) = enemies w
  /\ enemy_count (contact_step ptx pty i w) = enemy_count w
  /\ CInt.truthy (en_alive (enemy_at (contact_step ptx pty i w) i)) = true.
Proof.
  intros Hc Hs Hl.
  assert (E : contact_step ptx pty i w = hurt w).
  { unfold contact_step. rewrite Hc, Hs. reflexivity. }
  rewrite E, (hurt_respawn w Hl).
  repeat split.
  unfold in_contact in Hc.
  apply andb_true_iff in Hc. destruct Hc as [Hc _].
  apply andb_true_iff in Hc. destruct Hc as [Ha _].
  exact Ha.
Qed.

(** The contact with the enemy of the shipped level, standing beside it. *)
Lemma hurt_contact_frame_witness :
  in_contact 60 18 0 mario_beside_enemy = true
  /\ is_stomp 0 mario_beside_enemy = false
  /\ 1 < pl_lives (player mario_beside_enemy) <= CInt.INT_MAX
  /\ enemies (contact_step 60 18 0 mario_beside_enemy) = enemies mario_beside_enemy
  /\ pl_score (player (contact_step 60 18 0 mario_beside_enemy)) = 0.
Proof.
  assert (H1 : in_contact 60 18 0 mario_beside_enemy = true)
    by (vm_compute; reflexivity).
  assert (H2 : is_stomp 0 mario_beside_enemy = false)
    by (vm_compute; reflexivity).
  assert (H3 : 1 < pl_lives (player mario_beside_enemy) <= CInt.INT_MAX)
    by (vm_compute; split; [ reflexivity | discriminate ]).
  destruct (hurt_contact_frame mario_beside_enemy 60 18 0 H1 H2 H3)
    as (_ & Hscore & _ & _ & _ & Hen & _).
  split; [ exact H1 | ].
  split; [ exact H2 | ].
  split; [ exact H3 | ].
  split; [ exact Hen | ].
  rewrite Hscore. vm_compute. reflexivity.
Defined.

(** A whole call of [check_enemy_collisions] on a player that is not
    moving down cannot stomp: whatever the number of contacts, the
    score, the map and the enemy array come out as they went in. *)
Lemma no_stomp_frame (w : World) :
  gtb (pl_vy (player w)) zero = false ->
  pl_score (player (check_enemy_collisions w)) = pl_score (player w)
  /\ map_data (check_enemy_collisions w) = map_data w
  /\ enemies (check_enemy_collisions w) = enemies w.
Proof.
  intros Hvy. unfold check_enemy_collisions.
  destruct (player_tile w) as [ptx pty].
  pose (P := fun s : World =>
               gtb (pl_vy (player s)) zero = false
               /\ pl_score (player s) = pl_score (player w)
               /\ map_data s = map_data w
               /\ enemies s = enemies w).
  assert (H : P (for_range (Z.to_nat (enemy_count w)) 0 (contact_step ptx pty) w)).
  { apply for_range_inv; [ | unfold P; auto ].
    intros i s (Hv & Hsc & Hm & He). unfold contact_step.
    destruct (in_contact ptx pty i s); [ | unfold P; auto ].
    unfold is_stomp. rewrite Hv. simpl. unfold hurt.
    destruct (pl_lives (player (upd (set_lives _) s)) <=? 0);
      unfold P; simpl; auto. }
  destruct H as (_ & Hsc & Hm & He). auto.
Qed.

(** [reset_level] leaves the player at the spawn point with three
    lives and no score, whatever the enemies it rebuilds. *)
Lemma player_spawn_cell r c w : player (spawn_cell r c w) = player w.
Proof.
  unfold spawn_cell.
  destruct (is_char (map_at w c r) "E"); [ | reflexivity ].
  rewrite player_set_map_char.
  destruct (enemy_count w <? MAX_ENEMIES); [ | reflexivity ].
  destruct (Libc.rand (libc w)) as [rv l']. reflexivity.
Qed.

Lemma player_spawn_enemies w : player (spawn_enemies_from_map w) = player w.
Proof.
  unfold spawn_enemies_from_map.
  apply (for_range_inv (fun s => player s = player w)); [ | reflexivity ].
  intros r s Hs.
  apply (for_range_inv (fun s' => player s' = player w)); [ | exact Hs ].
  intros c s' Hs'. rewrite player_spawn_cell. exact Hs'.
Qed.

Lemma reset_level_player w :
  player (reset_level w)
  = mkPlayer (fst (spawn_point w)) (snd (spawn_point w)) zero 1 0 3 0.
Proof.
  unfold reset_level. destruct (spawn_point w) as [sx sy].
  rewrite player_spawn_enemies.
  apply (for_range_inv (fun s => player s = mkPlayer sx sy zero 1 0 3 0));
    [ | reflexivity ].
  intros i s Hs. exact Hs.
Qed.

(** A fall below the map with a life to spare ends with three lives and
    no score: the decrement is overwritten by [reset_level]. *)
Lemma fall_restores_lives w :
  below_map w = true ->
  1 < pl_lives (player w) <= CInt.INT_MAX ->
  pl_lives (player (check_fall w)) = 3 /\ pl_score (player (check_fall w)) = 0.
Proof.
  intros Hb Hl. unfold check_fall. rewrite Hb.
  change (pl_lives (player (upd (set_lives (CInt.sub (pl_lives (player w)) 1)) w)))
    with (CInt.sub (pl_lives (player w)) 1).
  rewrite CIntFacts.sub_exact
    by (unfold CInt.in_range, CInt.INT_MIN, CInt.INT_MAX in *; lia).
  destruct (pl_lives (player w) - 1 <=? 0) eqn:E; [ lia | ].
  rewrite reset_level_player. split; reflexivity.
Qed.

(** C2, on the code.  The player falls through the gap of the shipped
    level with three lives: the physics update takes the fall branch and
    resets the level (the player is back at the spawn point), but the
    lives after the update are three again, not two. *)
Theorem fall_in_gap_keeps_three_lives :
  below_map (move_vertical mario_in_gap) = true
  /\ pl_lives (player mario_in_gap) = 3
  /\ pl_lives (player (update_physics mario_in_gap)) = 3
  /\ pl_lives (player (update mario_in_gap)) = 3
  /\ pl_lives (player (update_physics mario_in_gap))
     <> pl_lives (player mario_in_gap) - 1
  /\ (pl_x (player (update_physics mario_in_gap)),
      pl_y (player (update_physics mario_in_gap)))
     = spawn_point mario_in_gap.
Proof.
  split; [ vm_compute; reflexivity | ].
  split; [ vm_compute; reflexivity | ].
  split; [ vm_compute; reflexivity | ].
  split; [ vm_compute; reflexivity | ].
  split; [ vm_compute; discriminate | ].
  vm_compute; reflexivity.
Qed.

(** C3, on the code.  The player stands beside the enemy of the shipped
    level with three lives; the contact is not a stomp, costs one life
    and puts the player at (2.5, 2.0), which is not the spawn point
    (16.5, 6.0) that [reset_level] computes for this level. *)
Theorem contact_respawn_off_spawn_point :
  in_contact 60 18 0 mario_beside_enemy = true
  /\ is_stomp 0 mario_beside_enemy = false
  /\ pl_lives (player mario_beside_enemy) = 3
  /\ pl_lives (player (check_enemy_collisions mario_beside_enemy)) = 2
  /\ (pl_x (player (check_enemy_collisions mario_beside_enemy)),
      pl_y (player (check_enemy_collisions mario_beside_enemy)))
     = (lit 5 2, of_int 2)
  /\ spawn_point (check_enemy_collisions mario_beside_enemy)
     = (lit 33 2, of_int 6)
  /\ (pl_x (player (check_enemy_collisions mario_beside_enemy)),
      pl_y (player (check_enemy_collisions mario_beside_enemy)))
     <> spawn_point (check_enemy_collisions mario_beside_enemy).
Proof.
  split; [ vm_compute; reflexivity | ].
  split; [ vm_compute; reflexivity | ].
  split; [ vm_compute; reflexivity | ].
  split; [ vm_compute; reflexivity | ].
  split; [ vm_compute; reflexivity | ].
  split; [ vm_compute; reflexivity | ].
  vm_compute; discriminate.
Qed.

(** While the platformer is paused a key only toggles the pause (p, P)
    or sets [game_over] (q, Q); any other key leaves the world as it is. *)
Lemma handle_key_paused ch w :
  CInt.truthy (paused w) = true ->
  handle_key ch w
  = if Key.pause_key ch then (set_paused (CInt.lnot (paused w)) w, true)
    else if Key.quit_key ch then (set_game_over 1 w, false)
    else (w, true).
Proof.
  intros Hp. unfold handle_key. rewrite Hp. reflexivity.
Qed.

End MarioFacts.
(** Case analysis on the key code against the constants of a handler. *)
Ltac key_cases :=
  unfold Key.pause_key, Key.quit_key, Key.pressed, Key.chr,
         Key.KEY_LEFT, Key.KEY_RIGHT, Key.KEY_UP, Key.KEY_DOWN;
  cbn;
  repeat match goal with
         | |- context [Z.eqb ?a ?b] =>
             destruct (Z.eqb_spec a b); [ subst; cbn | ]
         end;
  try reflexivity.


(** ** The shooters *)

Module ShooterFacts.

Import Shooter Scenario.

(** The bullet sweep is: move every bullet, keep those on the screen. *)
Lemma sweep_filter advance max_y bs :
  sweep_bullets advance max_y bs
  = filter (fun b => negb (off_screen max_y b)) (map advance bs).
Proof.
  induction bs as [ | b rest IH]; simpl; [ reflexivity | ].
  destruct (off_screen max_y (advance b)); simpl; rewrite IH; reflexivity.
Qed.

Lemma on_screen_bounds max_y b :
  CInt.INT_MIN + 2 <= max_y <= CInt.INT_MAX ->
  off_screen max_y b = false -> 2 < b_y b < max_y - 2.
Proof.
  intros Hm. unfold off_screen.
  rewrite CIntFacts.sub_exact
    by (unfold CInt.in_range, CInt.INT_MIN, CInt.INT_MAX in *; lia).
  intros H. apply orb_false_iff in H. lia.
Qed.

Lemma sweep_inside advance max_y bs b :
  CInt.INT_MIN + 2 <= max_y <= CInt.INT_MAX ->
  In b (sweep_bullets advance max_y bs) -> 2 < b_y b < max_y - 2.
Proof.
  intros Hm. rewrite sweep_filter, filter_In. intros [_ H].
  apply (on_screen_bounds max_y b Hm). apply negb_true_iff, H.
Qed.

(** C8.  In both shooters [update_bullets] leaves exactly the moved
    bullets that are on the screen, in their order: a bullet whose new
    row is at most 2 or at least [max_y - 2] is unlinked in that same
    call, and every bullet still in the list has its row strictly
    between 2 and [max_y - 2].  [max_y] is the terminal height, an [int]
    from which 2 can be subtracted. *)
Theorem bullets_stay_inside (w1 : ShootingGame.World) (w2 : AsciiShooter.World) :
  CInt.INT_MIN + 2 <= ShootingGame.max_y w1 <= CInt.INT_MAX ->
  CInt.INT_MIN + 2 <= AsciiShooter.max_y w2 <= CInt.INT_MAX ->
  (ShootingGame.bullets (ShootingGame.update_bullets w1)
   = filter (fun b => negb (off_screen (ShootingGame.max_y w1) b))
            (map ShootingGame.advance (ShootingGame.bullets w1))
   /\ forall b, In b (ShootingGame.bullets (ShootingGame.update_bullets w1)) ->
                2 < b_y b < ShootingGame.max_y w1 - 2)
  /\ (AsciiShooter.bullets (AsciiShooter.update_bullets w2)
      = filter (fun b => negb (off_screen (AsciiShooter.max_y w2) b))
               (map AsciiShooter.advance (AsciiShooter.bullets w2))
      /\ forall b, In b (AsciiShooter.bullets (AsciiShooter.update_bullets w2)) ->
                   2 < b_y b < AsciiShooter.max_y w2 - 2).
Proof.
  intros H1 H2. split; split.
  - apply sweep_filter.
  - intros b. apply sweep_inside, H1.
  - apply sweep_filter.
  - intros b. apply sweep_inside, H2.
Qed.

Lemma bullets_stay_inside_witness :
  (CInt.INT_MIN + 2 <= ShootingGame.max_y sg_firing <= CInt.INT_MAX)
  /\ (CInt.INT_MIN + 2 <= AsciiShooter.max_y as_firing <= CInt.INT_MAX)
  /\ (forall b, In b (ShootingGame.bullets (ShootingGame.update_bullets sg_firing)) ->
                2 < b_y b < ShootingGame.max_y sg_firing - 2)
  /\ (forall b, In b (AsciiShooter.bullets (AsciiShooter.update_bullets as_firing)) ->
                2 < b_y b < AsciiShooter.max_y as_firing - 2).
Proof.
  assert (H1 : CInt.INT_MIN + 2 <= ShootingGame.max_y sg_firing <= CInt.INT_MAX)
    by (vm_compute; split; intro H; discriminate H).
  assert (H2 : CInt.INT_MIN + 2 <= AsciiShooter.max_y as_firing <= CInt.INT_MAX)
    by (vm_compute; split; intro H; discriminate H).
  split; [ exact H1 | ].
  split; [ exact H2 | ].
  split.
  - exact (proj2 (proj1 (bullets_stay_inside sg_firing as_firing H1 H2))).
  - exact (proj2 (proj2 (bullets_stay_inside sg_firing as_firing H1 H2))).
Defined.

(** The two collision tests agree with the column distance wherever the
    subtraction of the columns is defined. *)
Lemma abs_window a b :
  Z.abs (a - b) <= CInt.INT_MAX -> CInt.abs (CInt.sub a b) = Z.abs (a - b).
Proof.
  intros H.
  rewrite CIntFacts.sub_exact
    by (unfold CInt.in_range, CInt.INT_MIN, CInt.INT_MAX in *; lia).
  apply CIntFacts.abs_exact. unfold CInt.INT_MIN, CInt.INT_MAX in *. lia.
Qed.

Lemma absdiff_window a b :
  Z.abs (a - b) <= CInt.INT_MAX -> AsciiShooter.absdiff a b = Z.abs (a - b).
Proof.
  intros H. unfold AsciiShooter.absdiff.
  destruct (b <? a) eqn:E;
    rewrite CIntFacts.sub_exact
      by (unfold CInt.in_range, CInt.INT_MIN, CInt.INT_MAX in *; lia); lia.
Qed.

(** C6.  For a player bullet and an enemy on the same row, whose columns
    are [int]s that can be subtracted, the test of [check_collisions]
    succeeds exactly when the columns differ by at most 1, in both
    shooters; at distance 2 it fails. *)
Theorem collision_window (e : Enemy) (b : Bullet) :
  e_y e = b_y b ->
  Z.abs (e_x e - b_x b) <= CInt.INT_MAX ->
  (ShootingGame.hits e b = true <-> Z.abs (e_x e - b_x b) <= 1)
  /\ (AsciiShooter.hits e b = true <-> Z.abs (e_x e - b_x b) <= 1)
  /\ (Z.abs (e_x e - b_x b) = 2 ->
      ShootingGame.hits e b = false /\ AsciiShooter.hits e b = false).
Proof.
  intros Hrow Hsub.
  unfold ShootingGame.hits, AsciiShooter.hits.
  rewrite Hrow, Z.eqb_refl, (abs_window _ _ Hsub), (absdiff_window _ _ Hsub).
  simpl.
  split; [ apply Z.leb_le | ].
  split; [ apply Z.leb_le | ].
  intros Htwo. split; apply Z.leb_gt; lia.
Qed.

Lemma collision_window_witness :
  e_y near_enemy = b_y near_bullet
  /\ Z.abs (e_x near_enemy - b_x near_bullet) <= CInt.INT_MAX
  /\ (ShootingGame.hits near_enemy near_bullet = true
      <-> Z.abs (e_x near_enemy - b_x near_bullet) <= 1).
Proof.
  assert (H1 : e_y near_enemy = b_y near_bullet) by reflexivity.
  assert (H2 : Z.abs (e_x near_enemy - b_x near_bullet) <= CInt.INT_MAX)
    by (vm_compute; intro H; discriminate H).
  split; [ exact H1 | ].
  split; [ exact H2 | ].
  exact (proj1 (collision_window near_enemy near_bullet H1 H2)).
Defined.

(** The inner loop finds an enemy exactly when the test succeeds on
    some enemy of the list. *)
Lemma sg_detects b es :
  ShootingGame.remove_first_hit b es = None
  <-> forall e, In e es -> ShootingGame.hits e b = false.
Proof.
  induction es as [ | e rest IH]; simpl.
  - split; [ intros _ e' [] | reflexivity ].
  - destruct (ShootingGame.hits e b) eqn:E.
    + split; [ discriminate | ].
      intros H. specialize (H e (or_introl eq_refl)). congruence.
    + destruct (ShootingGame.remove_first_hit b rest) as [l | ] eqn:R.
      * split; [ discriminate | ].
        intros H. exfalso.
        assert (Hn : Some l = None)
          by (apply IH; intros e' He'; apply H; right; exact He').
        discriminate Hn.
      * split; [ | reflexivity ].
        intros _ e' [<- | He']; [ exact E | ].
        apply (proj1 IH eq_refl e' He').
Qed.

Lemma as_detects b es :
  AsciiShooter.remove_first_hit b es = None
  <-> forall e, In e es -> AsciiShooter.hits e b = false.
Proof.
  induction es as [ | e rest IH]; simpl.
  - split; [ intros _ e' [] | reflexivity ].
  - destruct (AsciiShooter.hits e b) eqn:E.
    + split; [ discriminate | ].
      intros H. specialize (H e (or_introl eq_refl)). congruence.
    + destruct (AsciiShooter.remove_first_hit b rest) as [l | ] eqn:R.
      * split; [ discriminate | ].
        intros H. exfalso.
        assert (Hn : Some l = None)
          by (apply IH; intros e' He'; apply H; right; exact He').
        discriminate Hn.
      * split; [ | reflexivity ].
        intros _ e' [<- | He']; [ exact E | ].
        apply (proj1 IH eq_refl e' He').
Qed.

(** shooting_game.c writes through a null allocation. *)
Lemma sg_add_null x y v w :
  fst (Libc.malloc (ShootingGame.libc w)) = false ->
  ShootingGame.add_enemy x y v w = Fault /\ ShootingGame.add_bullet x y v w = Fault.
Proof.
  unfold ShootingGame.add_enemy, ShootingGame.add_bullet.
  destruct (Libc.malloc (ShootingGame.libc w)) as [ok l']. simpl.
  intros ->. split; reflexivity.
Qed.

(** ascii_shooter.c drops the spawn: both lists are as before. *)
Lemma as_add_null x y v w :
  fst (Libc.malloc (AsciiShooter.libc w)) = false ->
  AsciiShooter.enemies (AsciiShooter.add_enemy x y v w) = AsciiShooter.enemies w
  /\ AsciiShooter.bullets (AsciiShooter.add_enemy x y v w) = AsciiShooter.bullets w
  /\ AsciiShooter.enemies (AsciiShooter.add_bullet x y v w) = AsciiShooter.enemies w
  /\ AsciiShooter.bullets (AsciiShooter.add_bullet x y v w) = AsciiShooter.bullets w.
Proof.
  unfold AsciiShooter.add_enemy, AsciiShooter.add_bullet.
  destruct (Libc.malloc (AsciiShooter.libc w)) as [ok l']. simpl.
  intros ->. repeat split; reflexivity.
Qed.

(** C4, on the code.  With the next [malloc] returning null,
    shooting_game.c does not skip the spawn: [add_enemy] and
    [add_bullet] write through the null pointer, and so does the input
    phase on a space bar; ascii_shooter.c at the same point returns
    with both lists unchanged. *)
Theorem failed_allocation_is_dereferenced :
  ShootingGame.add_enemy 10 3 8 (sg_start out_of_memory) = Fault
  /\ ShootingGame.add_bullet 40 20 (-1) (sg_start out_of_memory) = Fault
  /\ ShootingGame.process_input [Key.chr " "] (sg_start out_of_memory) = Fault
  /\ AsciiShooter.enemies (AsciiShooter.add_enemy 10 3 8 (as_start out_of_memory))
     = AsciiShooter.enemies (as_start out_of_memory)
  /\ AsciiShooter.bullets (AsciiShooter.add_bullet 40 20 (-1) (as_start out_of_memory))
     = AsciiShooter.bullets (as_start out_of_memory).
Proof.
  split; [ vm_compute; reflexivity | ].
  split; [ vm_compute; reflexivity | ].
  split; [ vm_compute; reflexivity | ].
  split; vm_compute; reflexivity.
Qed.

(** C1, on the code.  shooting_game.c paused: the left arrow still moves
    the ship two columns and the space bar still links a bullet. *)
Theorem paused_shooting_game_still_acts :
  CInt.truthy (ShootingGame.paused sg_paused) = true
  /\ p_x (ShootingGame.player sg_paused) = 40
  /\ ShootingGame.bullets sg_paused = []
  /\ (exists w',
        ShootingGame.process_input [Key.KEY_LEFT] sg_paused = Done w'
        /\ p_x (ShootingGame.player w') = 38)
  /\ (exists w',
        ShootingGame.process_input [Key.chr " "] sg_paused = Done w'
        /\ ShootingGame.bullets w' = [mkBullet 40 20 (-1)]).
Proof.
  split; [ vm_compute; reflexivity | ].
  split; [ vm_compute; reflexivity | ].
  split; [ vm_compute; reflexivity | ].
  split; eexists; split; vm_compute; reflexivity.
Qed.

(** ascii_shooter.c paused: only the pause and quit keys act. *)
Lemma as_process_key_paused ch w :
  CInt.truthy (AsciiShooter.paused w) = true ->
  AsciiShooter.process_key ch w
  = if Key.pause_key ch then AsciiShooter.set_paused (CInt.lnot (AsciiShooter.paused w)) w
    else if Key.quit_key ch then AsciiShooter.set_game_over 1 w
    else w.
Proof.
  intros Hp. unfold AsciiShooter.process_key. rewrite Hp.
  key_cases.
Qed.

End ShooterFacts.

(** ** The snake games *)

Module SnakeFacts.

Import Snake Draws Scenario.

(** The scan of the body finds nothing exactly when no segment lies on
    the cell. *)
Lemma conflict_free body x y :
  conflict body x y = false
  <-> forall s, In s body -> ~ (s_x s = x /\ s_y s = y).
Proof.
  unfold conflict. induction body as [ | s rest IH]; simpl.
  - split; [ intros _ s [] | reflexivity ].
  - rewrite orb_false_iff, IH. split.
    + intros [Hs Hrest] s' [<- | Hin] [Ex Ey].
      * rewrite Ex, Ey, !Z.eqb_refl in Hs. discriminate.
      * exact (Hrest s' Hin (conj Ex Ey)).
    + intros H. split.
      * destruct (Z.eqb_spec (s_x s) x) as [Ex | ]; [ | reflexivity ].
        destruct (Z.eqb_spec (s_y s) y) as [Ey | ]; [ | reflexivity ].
        exfalso. exact (H s (or_introl eq_refl) (conj Ex Ey)).
      * intros s' Hin. apply H. right. exact Hin.
Qed.

Lemma length_removelast_cons {A : Type} (a : A) (l : list A) :
  List.length (removelast (a :: l)) = List.length l.
Proof.
  revert a. induction l as [ | b l IH]; intros a; [ reflexivity | ].
  change (removelast (a :: b :: l)) with (a :: removelast (b :: l)).
  cbn [List.length]. f_equal. apply IH.
Qed.

(** *** snake_game.c *)

(** What [spawn_food] returns: the body untouched and the food on the
    first drawn cell that is free, every earlier draw being occupied. *)
Lemma sg_spawn_food_sound fuel : forall w w',
  SnakeGame.spawn_food fuel w = Done w' ->
  SnakeGame.body w' = SnakeGame.body w
  /\ exists j, (j < fuel)%nat
     /\ (f_x (SnakeGame.food w'), f_y (SnakeGame.food w')) = sg_draw j w
     /\ free (SnakeGame.body w) (sg_draw j w) = true
     /\ forall i, (i < j)%nat -> free (SnakeGame.body w) (sg_draw i w) = false.
Proof.
  induction fuel as [ | fuel IH]; intros w w' H; simpl in H; [ discriminate | ].
  destruct (CInt.sub (SnakeGame.play_w w) 2 =? 0); [ discriminate | ].
  destruct (CInt.sub (SnakeGame.play_h w) 2 =? 0); [ discriminate | ].
  match type of H with
  | (if conflict _ ?fx ?fy then _ else _) = _ =>
      assert (Ec : sg_candidate w = (fx, fy)) by reflexivity;
      destruct (conflict (SnakeGame.body w) fx fy) eqn:Ecf
  end.
  - apply IH in H. destruct H as (Hb & j & Hj & Hf & Hfree & Hbefore).
    split; [ exact Hb | ].
    exists (S j). split; [ lia | ].
    split; [ exact Hf | ]. split; [ exact Hfree | ].
    intros [ | i] Hi.
    + unfold free. simpl sg_draw. rewrite Ec. simpl. rewrite Ecf. reflexivity.
    + apply (Hbefore i). lia.
  - injection H as <-. split; [ reflexivity | ].
    exists O. split; [ lia | ]. split; [ symmetry; exact Ec | ].
    split; [ | intros i Hi; lia ].
    unfold free. simpl sg_draw. rewrite Ec. simpl. rewrite Ecf. reflexivity.
Qed.

(** [spawn_food] returns as soon as a drawn cell is free. *)
Lemma sg_spawn_food_returns k : forall w,
  CInt.sub (SnakeGame.play_w w) 2 <> 0 ->
  CInt.sub (SnakeGame.play_h w) 2 <> 0 ->
  free (SnakeGame.body w) (sg_draw k w) = true ->
  exists w', SnakeGame.spawn_food (S k) w = Done w'.
Proof.
  induction k as [ | k IH]; intros w Hw Hh Hfree.
  - simpl. apply Z.eqb_neq in Hw, Hh. rewrite Hw, Hh.
    unfold free in Hfree. simpl in Hfree. apply negb_true_iff in Hfree.
    unfold sg_candidate in Hfree. simpl in Hfree. rewrite Hfree.
    eexists. reflexivity.
  - change (SnakeGame.spawn_food (S (S k)) w)
      with (let '(r1, l1) := Libc.rand (SnakeGame.libc w) in
            let mx := CInt.sub (SnakeGame.play_w w) 2 in
            if mx =? 0 then Fault
            else
              let fx := CInt.add (CInt.add (CInt.rem r1 mx) (SnakeGame.play_x0 w)) 1 in
              let '(r2, l2) := Libc.rand l1 in
              let my := CInt.sub (SnakeGame.play_h w) 2 in
              if my =? 0 then Fault
              else
                let fy := CInt.add (CInt.add (CInt.rem r2 my) (SnakeGame.play_y0 w)) 1 in
                if conflict (SnakeGame.body w) fx fy
                then SnakeGame.spawn_food (S k) (SnakeGame.set_libc l2 w)
                else Done (SnakeGame.set_food (mkFood fx fy) (SnakeGame.set_libc l2 w))).
    cbv zeta. unfold Libc.rand at 1 2. cbv iota beta.
    pose proof Hw as Hw'. pose proof Hh as Hh'.
    apply Z.eqb_neq in Hw', Hh'. rewrite Hw', Hh'.
    destruct (conflict _ _ _); [ | eexists; reflexivity ].
    apply IH; [ exact Hw | exact Hh | exact Hfree ].
Qed.

(** The drawn cells depend on the play area and on the values of
    [rand] only. *)
Lemma sg_draw_ext k : forall w w',
  SnakeGame.play_x0 w' = SnakeGame.play_x0 w ->
  SnakeGame.play_y0 w' = SnakeGame.play_y0 w ->
  SnakeGame.play_w w' = SnakeGame.play_w w ->
  SnakeGame.play_h w' = SnakeGame.play_h w ->
  Libc.rand_src (SnakeGame.libc w') = Libc.rand_src (SnakeGame.libc w) ->
  Libc.rand_pos (SnakeGame.libc w') = Libc.rand_pos (SnakeGame.libc w) ->
  sg_draw k w' = sg_draw k w.
Proof.
  induction k as [ | k IH]; intros w w' Hx Hy Hw Hh Hs Hp.
  - unfold sg_draw, sg_candidate, Libc.rand. cbv iota beta.
    cbn [Libc.rand_src Libc.rand_pos].
    rewrite Hx, Hy, Hw, Hh, Hs, Hp. reflexivity.
  - cbn [sg_draw]. apply IH; cbn; try assumption.
    rewrite Hp. reflexivity.
Qed.

(** A step onto a cell without food: the new head is linked and the
    tail unlinked, for any fuel. *)
Lemma sg_move_plain w h t fuel :
  SnakeGame.body w = h :: t ->
  fst (Libc.malloc (SnakeGame.libc w)) = true ->
  eats (sg_ahead h w) (SnakeGame.food w) = false ->
  exists w',
    SnakeGame.move_snake fuel w = Done w'
    /\ SnakeGame.body w' = sg_ahead h w :: removelast (h :: t)
    /\ SnakeGame.food w' = SnakeGame.food w
    /\ SnakeGame.score w' = SnakeGame.score w.
Proof.
  intros Hb Hm He. unfold SnakeGame.move_snake. rewrite Hb.
  destruct (Libc.malloc (SnakeGame.libc w)) as [ok l']. simpl in Hm. subst ok.
  cbn -[CInt.add removelast]. unfold eats, sg_ahead in He. cbn -[CInt.add] in He.
  rewrite He. eexists. split; [ reflexivity | ].
  unfold SnakeGame.erase_tail. cbn -[CInt.add removelast].
  repeat split.
Qed.

(** A step onto the food: the new head is linked, the score grows by
    10 and the rest of the call is [spawn_food] on the longer body. *)
Lemma sg_move_eat w h t fuel :
  SnakeGame.body w = h :: t ->
  fst (Libc.malloc (SnakeGame.libc w)) = true ->
  eats (sg_ahead h w) (SnakeGame.food w) = true ->
  SnakeGame.move_snake fuel w
  = SnakeGame.spawn_food fuel
      (SnakeGame.set_score (CInt.add (SnakeGame.score w) 10)
         (SnakeGame.set_body (sg_ahead h w :: h :: t)
            (SnakeGame.set_libc (snd (Libc.malloc (SnakeGame.libc w))) w))).
Proof.
  intros Hb Hm He. unfold SnakeGame.move_snake. rewrite Hb.
  destruct (Libc.malloc (SnakeGame.libc w)) as [ok l']. simpl in Hm. subst ok.
  cbn -[CInt.add SnakeGame.spawn_food]. unfold eats, sg_ahead in He.
  cbn -[CInt.add] in He. rewrite He. reflexivity.
Qed.

(** *** The snake game on the whole terminal *)

(** What [spawn_food] returns: the body untouched and the food on the
    first drawn cell that is free, every earlier draw being occupied. *)
Lemma sf_spawn_food_sound fuel : forall w w',
  SnakeFull.spawn_food fuel w = Done w' ->
  SnakeFull.body w' = SnakeFull.body w
  /\ exists j, (j < fuel)%nat
     /\ (f_x (SnakeFull.food w'), f_y (SnakeFull.food w')) = sf_draw j w
     /\ free (SnakeFull.body w) (sf_draw j w) = true
     /\ forall i, (i < j)%nat -> free (SnakeFull.body w) (sf_draw i w) = false.
Proof.
  induction fuel as [ | fuel IH]; intros w w' H; simpl in H; [ discriminate | ].
  destruct (CInt.sub (SnakeFull.max_x w) 2 =? 0); [ discriminate | ].
  destruct (CInt.sub (SnakeFull.max_y w) 3 =? 0); [ discriminate | ].
  match type of H with
  | (if conflict _ ?fx ?fy then _ else _) = _ =>
      assert (Ec : sf_candidate w = (fx, fy)) by reflexivity;
      destruct (conflict (SnakeFull.body w) fx fy) eqn:Ecf
  end.
  - apply IH in H. destruct H as (Hb & j & Hj & Hf & Hfree & Hbefore).
    split; [ exact Hb | ].
    exists (S j). split; [ lia | ].
    split; [ exact Hf | ]. split; [ exact Hfree | ].
    intros [ | i] Hi.
    + unfold free. simpl sf_draw. rewrite Ec. simpl. rewrite Ecf. reflexivity.
    + apply (Hbefore i). lia.
  - injection H as <-. split; [ reflexivity | ].
    exists O. split; [ lia | ]. split; [ symmetry; exact Ec | ].
    split; [ | intros i Hi; lia ].
    unfold free. simpl sf_draw. rewrite Ec. simpl. rewrite Ecf. reflexivity.
Qed.

(** [spawn_food] returns as soon as a drawn cell is free. *)
Lemma sf_spawn_food_returns k : forall w,
  CInt.sub (SnakeFull.max_x w) 2 <> 0 ->
  CInt.sub (SnakeFull.max_y w) 3 <> 0 ->
  free (SnakeFull.body w) (sf_draw k w) = true ->
  exists w', SnakeFull.spawn_food (S k) w = Done w'.
Proof.
  induction k as [ | k IH]; intros w Hw Hh Hfree.
  - simpl. apply Z.eqb_neq in Hw, Hh. rewrite Hw, Hh.
    unfold free in Hfree. simpl in Hfree. apply negb_true_iff in Hfree.
    unfold sf_candidate in Hfree. simpl in Hfree. rewrite Hfree.
    eexists. reflexivity.
  - change (SnakeFull.spawn_food (S (S k)) w)
      with (let '(r1, l1) := Libc.rand (SnakeFull.libc w) in
            let mx := CInt.sub (SnakeFull.max_x w) 2 in
            if mx =? 0 then Fault
            else
              let fx := CInt.add (CInt.rem r1 mx) 1 in
              let '(r2, l2) := Libc.rand l1 in
              let my := CInt.sub (SnakeFull.max_y w) 3 in
              if my =? 0 then Fault
              else
                let fy := CInt.add (CInt.rem r2 my) 2 in
                if conflict (SnakeFull.body w) fx fy
                then SnakeFull.spawn_food (S k) (SnakeFull.set_libc l2 w)
                else Done (SnakeFull.set_food (mkFood fx fy) (SnakeFull.set_libc l2 w))).
    cbv zeta. unfold Libc.rand at 1 2. cbv iota beta.
    pose proof Hw as Hw'. pose proof Hh as Hh'.
    apply Z.eqb_neq in Hw', Hh'. rewrite Hw', Hh'.
    destruct (conflict _ _ _); [ | eexists; reflexivity ].
    apply IH; [ exact Hw | exact Hh | exact Hfree ].
Qed.

(** The drawn cells depend on the play area and on the values of
    [rand] only. *)
Lemma sf_draw_ext k : forall w w',
  SnakeFull.max_x w' = SnakeFull.max_x w ->
  SnakeFull.max_y w' = SnakeFull.max_y w ->
  Libc.rand_src (SnakeFull.libc w') = Libc.rand_src (SnakeFull.libc w) ->
  Libc.rand_pos (SnakeFull.libc w') = Libc.rand_pos (SnakeFull.libc w) ->
  sf_draw k w' = sf_draw k w.
Proof.
  induction k as [ | k IH]; intros w w' Hx Hy Hs Hp.
  - unfold sf_draw, sf_candidate, Libc.rand. cbv iota beta.
    cbn [Libc.rand_src Libc.rand_pos].
    rewrite Hx, Hy, Hs, Hp. reflexivity.
  - cbn [sf_draw]. apply IH; cbn; try assumption.
    rewrite Hp. reflexivity.
Qed.

(** A step onto a cell without food: the new head is linked and the
    tail unlinked, for any fuel. *)
Lemma sf_move_plain w h t fuel :
  SnakeFull.body w = h :: t ->
  fst (Libc.malloc (SnakeFull.libc w)) = true ->
  eats (sf_ahead h w) (SnakeFull.food w) = false ->
  exists w',
    SnakeFull.move_snake fuel w = Done w'
    /\ SnakeFull.body w' = sf_ahead h w :: removelast (h :: t)
    /\ SnakeFull.food w' = SnakeFull.food w
    /\ SnakeFull.score w' = SnakeFull.score w.
Proof.
  intros Hb Hm He. unfold SnakeFull.move_snake. rewrite Hb.
  destruct (Libc.malloc (SnakeFull.libc w)) as [ok l']. simpl in Hm. subst ok.
  cbn -[CInt.add removelast]. unfold eats, sf_ahead in He. cbn -[CInt.add] in He.
  rewrite He. eexists. split; [ reflexivity | ].
  repeat split.
Qed.

(** A step onto the food: the new head is linked, the score grows by
    10 and the rest of the call is [spawn_food] on the longer body. *)
Lemma sf_move_eat w h t fuel :
  SnakeFull.body w = h :: t ->
  fst (Libc.malloc (SnakeFull.libc w)) = true ->
  eats (sf_ahead h w) (SnakeFull.food w) = true ->
  SnakeFull.move_snake fuel w
  = SnakeFull.spawn_food fuel
      (SnakeFull.set_score (CInt.add (SnakeFull.score w) 10)
         (SnakeFull.set_body (sf_ahead h w :: h :: t)
            (SnakeFull.set_libc (snd (Libc.malloc (SnakeFull.libc w))) w))).
Proof.
  intros Hb Hm He. unfold SnakeFull.move_snake. rewrite Hb.
  destruct (Libc.malloc (SnakeFull.libc w)) as [ok l']. simpl in Hm. subst ok.
  cbn -[CInt.add SnakeFull.spawn_food]. unfold eats, sf_ahead in He.
  cbn -[CInt.add] in He. rewrite He. reflexivity.
Qed.

(** C5.  In both snake games, on a snake with at least one segment and
    with the allocation of the new segment succeeding: whenever
    [move_snake] returns, the head is the cell one step ahead of the old
    head in the current heading (the old coordinates plus the heading,
    where that sum is an [int]), and the body is one segment longer when
    that cell holds the food and as long as before otherwise.  It does
    return: for any fuel on a step without food, and on a step onto the
    food as soon as one of the cells that [spawn_food] draws is free. *)
Theorem snake_advances (w1 : SnakeGame.World) (w2 : SnakeFull.World)
    (h1 h2 : Segment) (t1 t2 : list Segment) :
  SnakeGame.body w1 = h1 :: t1 ->
  SnakeFull.body w2 = h2 :: t2 ->
  fst (Libc.malloc (SnakeGame.libc w1)) = true ->
  fst (Libc.malloc (SnakeFull.libc w2)) = true ->
  ((forall fuel w', SnakeGame.move_snake fuel w1 = Done w' ->
      hd_error (SnakeGame.body w') = Some (sg_ahead h1 w1)
      /\ List.length (SnakeGame.body w')
         = if eats (sg_ahead h1 w1) (SnakeGame.food w1)
           then S (List.length (SnakeGame.body w1))
           else List.length (SnakeGame.body w1))
   /\ (CInt.in_range (s_x h1 + SnakeGame.dir_x w1) ->
       CInt.in_range (s_y h1 + SnakeGame.dir_y w1) ->
       sg_ahead h1 w1
       = mkSegment (s_x h1 + SnakeGame.dir_x w1) (s_y h1 + SnakeGame.dir_y w1))
   /\ (eats (sg_ahead h1 w1) (SnakeGame.food w1) = false ->
       forall fuel, exists w', SnakeGame.move_snake fuel w1 = Done w')
   /\ (eats (sg_ahead h1 w1) (SnakeGame.food w1) = true ->
       forall k,
         CInt.sub (SnakeGame.play_w w1) 2 <> 0 ->
         CInt.sub (SnakeGame.play_h w1) 2 <> 0 ->
         free (sg_ahead h1 w1 :: h1 :: t1) (sg_draw k w1) = true ->
         exists w', SnakeGame.move_snake (S k) w1 = Done w'))
  /\ ((forall fuel w', SnakeFull.move_snake fuel w2 = Done w' ->
      hd_error (SnakeFull.body w') = Some (sf_ahead h2 w2)
      /\ List.length (SnakeFull.body w')
         = if eats (sf_ahead h2 w2) (SnakeFull.food w2)
           then S (List.length (SnakeFull.body w2))
           else List.length (SnakeFull.body w2))
   /\ (CInt.in_range (s_x h2 + SnakeFull.dir_x w2) ->
       CInt.in_range (s_y h2 + SnakeFull.dir_y w2) ->
       sf_ahead h2 w2
       = mkSegment (s_x h2 + SnakeFull.dir_x w2) (s_y h2 + SnakeFull.dir_y w2))
   /\ (eats (sf_ahead h2 w2) (SnakeFull.food w2) = false ->
       forall fuel, exists w', SnakeFull.move_snake fuel w2 = Done w')
   /\ (eats (sf_ahead h2 w2) (SnakeFull.food w2) = true ->
       forall k,
         CInt.sub (SnakeFull.max_x w2) 2 <> 0 ->
         CInt.sub (SnakeFull.max_y w2) 3 <> 0 ->
         free (sf_ahead h2 w2 :: h2 :: t2) (sf_draw k w2) = true ->
         exists w', SnakeFull.move_snake (S k) w2 = Done w')).
Proof.
  intros Hb1 Hb2 Hm1 Hm2. split.
  - split; [ | split; [ | split ] ].
    + intros fuel w' Hrun.
      destruct (eats (sg_ahead h1 w1) (SnakeGame.food w1)) eqn:Eat.
      * rewrite (sg_move_eat w1 h1 t1 fuel Hb1 Hm1 Eat) in Hrun.
        apply sg_spawn_food_sound in Hrun. destruct Hrun as [Ebody _].
        rewrite Ebody, Hb1. split; reflexivity.
      * destruct (sg_move_plain w1 h1 t1 fuel Hb1 Hm1 Eat)
          as (w'' & Erun & Ebody & _).
        rewrite Erun in Hrun. injection Hrun as <-.
        rewrite Ebody, Hb1. split; [ reflexivity | ].
        cbn [List.length]. f_equal. apply length_removelast_cons.
    + intros Hx Hy. unfold sg_ahead.
      rewrite !CIntFacts.add_exact by assumption. reflexivity.
    + intros Eat fuel.
      destruct (sg_move_plain w1 h1 t1 fuel Hb1 Hm1 Eat) as (w'' & Erun & _).
      exists w''. exact Erun.
    + intros Eat k Hw Hh Hfree.
      rewrite (sg_move_eat w1 h1 t1 (S k) Hb1 Hm1 Eat).
      apply sg_spawn_food_returns; [ exact Hw | exact Hh | ].
      rewrite (sg_draw_ext k w1) by reflexivity.
      exact Hfree.
  - split; [ | split; [ | split ] ].
    + intros fuel w' Hrun.
      destruct (eats (sf_ahead h2 w2) (SnakeFull.food w2)) eqn:Eat.
      * rewrite (sf_move_eat w2 h2 t2 fuel Hb2 Hm2 Eat) in Hrun.
        apply sf_spawn_food_sound in Hrun. destruct Hrun as [Ebody _].
        rewrite Ebody, Hb2. split; reflexivity.
      * destruct (sf_move_plain w2 h2 t2 fuel Hb2 Hm2 Eat)
          as (w'' & Erun & Ebody & _).
        rewrite Erun in Hrun. injection Hrun as <-.
        rewrite Ebody, Hb2. split; [ reflexivity | ].
        cbn [List.length]. f_equal. apply length_removelast_cons.
    + intros Hx Hy. unfold sf_ahead.
      rewrite !CIntFacts.add_exact by assumption. reflexivity.
    + intros Eat fuel.
      destruct (sf_move_plain w2 h2 t2 fuel Hb2 Hm2 Eat) as (w'' & Erun & _).
      exists w''. exact Erun.
    + intros Eat k Hw Hh Hfree.
      rewrite (sf_move_eat w2 h2 t2 (S k) Hb2 Hm2 Eat).
      apply sf_spawn_food_returns; [ exact Hw | exact Hh | ].
      rewrite (sf_draw_ext k w2) by reflexivity.
      exact Hfree.
Qed.

Lemma snake_advances_witness :
  SnakeGame.body sg_eating = mkSegment 42 12 :: [mkSegment 41 12; mkSegment 40 12]
  /\ SnakeFull.body sf_eating = mkSegment 42 12 :: [mkSegment 41 12; mkSegment 40 12]
  /\ fst (Libc.malloc (SnakeGame.libc sg_eating)) = true
  /\ fst (Libc.malloc (SnakeFull.libc sf_eating)) = true
  /\ (exists w', SnakeGame.move_snake 2 sg_eating = Done w')
  /\ (exists w', SnakeFull.move_snake 2 sf_eating = Done w').
Proof.
  assert (Hb1 : SnakeGame.body sg_eating
                = mkSegment 42 12 :: [mkSegment 41 12; mkSegment 40 12])
    by reflexivity.
  assert (Hb2 : SnakeFull.body sf_eating
                = mkSegment 42 12 :: [mkSegment 41 12; mkSegment 40 12])
    by reflexivity.
  assert (Hm1 : fst (Libc.malloc (SnakeGame.libc sg_eating)) = true)
    by reflexivity.
  assert (Hm2 : fst (Libc.malloc (SnakeFull.libc sf_eating)) = true)
    by reflexivity.
  destruct (snake_advances sg_eating sf_eating _ _ _ _ Hb1 Hb2 Hm1 Hm2)
    as [(_ & _ & _ & Hsg) (_ & _ & _ & Hsf)].
  split; [ exact Hb1 | ]. split; [ exact Hb2 | ].
  split; [ exact Hm1 | ]. split; [ exact Hm2 | ].
  split.
  - apply (Hsg eq_refl 1%nat); [ vm_compute; discriminate
                               | vm_compute; discriminate
                               | vm_compute; reflexivity ].
  - apply (Hsf eq_refl 1%nat); [ vm_compute; discriminate
                               | vm_compute; discriminate
                               | vm_compute; reflexivity ].
Defined.

(** C9.  In both snake games, whenever [spawn_food] returns, the body is
    as it was and no segment of it lies on the food cell: the food is
    the first of the drawn cells that the scan of the body found free,
    every earlier draw having been rejected.  The call does return once
    one of the drawn cells is free. *)
Theorem food_lands_on_free_cell (w1 : SnakeGame.World) (w2 : SnakeFull.World) :
  ((forall fuel w', SnakeGame.spawn_food fuel w1 = Done w' ->
      SnakeGame.body w' = SnakeGame.body w1
      /\ (forall s, In s (SnakeGame.body w') ->
            ~ (s_x s = f_x (SnakeGame.food w') /\ s_y s = f_y (SnakeGame.food w')))
      /\ exists j,
           (f_x (SnakeGame.food w'), f_y (SnakeGame.food w')) = sg_draw j w1
           /\ forall i, (i < j)%nat -> free (SnakeGame.body w1) (sg_draw i w1) = false)
   /\ (forall k,
        CInt.sub (SnakeGame.play_w w1) 2 <> 0 ->
        CInt.sub (SnakeGame.play_h w1) 2 <> 0 ->
        free (SnakeGame.body w1) (sg_draw k w1) = true ->
        exists w', SnakeGame.spawn_food (S k) w1 = Done w'))
  /\ ((forall fuel w', SnakeFull.spawn_food fuel w2 = Done w' ->
      SnakeFull.body w' = SnakeFull.body w2
      /\ (forall s, In s (SnakeFull.body w') ->
            ~ (s_x s = f_x (SnakeFull.food w') /\ s_y s = f_y (SnakeFull.food w')))
      /\ exists j,
           (f_x (SnakeFull.food w'), f_y (SnakeFull.food w')) = sf_draw j w2
           /\ forall i, (i < j)%nat -> free (SnakeFull.body w2) (sf_draw i w2) = false)
   /\ (forall k,
        CInt.sub (SnakeFull.max_x w2) 2 <> 0 ->
        CInt.sub (SnakeFull.max_y w2) 3 <> 0 ->
        free (SnakeFull.body w2) (sf_draw k w2) = true ->
        exists w', SnakeFull.spawn_food (S k) w2 = Done w')).
Proof.
  split.
  - split.
    + intros fuel w' Hrun.
      apply sg_spawn_food_sound in Hrun.
      destruct Hrun as (Ebody & j & _ & Efood & Hfree & Hbefore).
      split; [ exact Ebody | ]. split.
      * rewrite Ebody. apply conflict_free.
        unfold free in Hfree. rewrite <- Efood in Hfree.
        apply negb_true_iff in Hfree. exact Hfree.
      * exists j. split; [ exact Efood | exact Hbefore ].
    + intros k. apply sg_spawn_food_returns.
  - split.
    + intros fuel w' Hrun.
      apply sf_spawn_food_sound in Hrun.
      destruct Hrun as (Ebody & j & _ & Efood & Hfree & Hbefore).
      split; [ exact Ebody | ]. split.
      * rewrite Ebody. apply conflict_free.
        unfold free in Hfree. rewrite <- Efood in Hfree.
        apply negb_true_iff in Hfree. exact Hfree.
      * exists j. split; [ exact Efood | exact Hbefore ].
    + intros k. apply sf_spawn_food_returns.
Qed.

(** An iteration of the main loop that is not paused once the key is
    handled runs [move_snake] and then the collision test. *)
Lemma sg_tick_running fuel ch w :
  Key.quit_key ch = false ->
  CInt.truthy (SnakeGame.paused (SnakeGame.steer ch w)) = false ->
  SnakeGame.tick fuel ch w
  = (w2 <- SnakeGame.move_snake fuel (SnakeGame.steer ch w) ;;
     hit <- SnakeGame.check_collision w2 ;;
     if (hit : bool) then Done (SnakeGame.end_game w2, true) else Done (w2, false)).
Proof.
  intros Hq Hp. unfold SnakeGame.tick. rewrite Hq, Hp. reflexivity.
Qed.

Lemma sf_tick_running fuel ch w :
  Key.quit_key ch = false ->
  CInt.truthy (SnakeFull.paused (SnakeFull.steer ch w)) = false ->
  SnakeFull.tick fuel ch w
  = (w2 <- SnakeFull.move_snake fuel (SnakeFull.steer ch w) ;;
     hit <- SnakeFull.check_collision w2 ;;
     Done (w2, (hit : bool))).
Proof.
  intros Hq Hp. unfold SnakeFull.tick. rewrite Hq, Hp. reflexivity.
Qed.

(** While a snake game is paused the arrow keys do nothing; only the
    pause key changes the world, and the quit key ends the program. *)
Lemma sg_steer_paused ch w :
  CInt.truthy (SnakeGame.paused w) = true ->
  SnakeGame.steer ch w
  = if Key.pause_key ch then SnakeGame.set_paused (CInt.lnot (SnakeGame.paused w)) w
    else w.
Proof.
  intros Hp. unfold SnakeGame.steer. rewrite Hp. key_cases.
Qed.

Lemma sf_steer_paused ch w :
  CInt.truthy (SnakeFull.paused w) = true ->
  SnakeFull.steer ch w
  = if Key.pause_key ch then SnakeFull.set_paused (CInt.lnot (SnakeFull.paused w)) w
    else w.
Proof.
  intros Hp. unfold SnakeFull.steer. rewrite Hp. key_cases.
Qed.

End SnakeFacts.

(** ** The map of the platformer *)

Module MarioMapFacts.

Import Mario Shape Scenario Scenario2.

Lemma length_store {A : Type} (n : nat) (v : A) (l : list A) :
  List.length (store n v l) = List.length l.
Proof.
  revert n. induction l as [ | h t IH]; intros [ | n]; simpl; auto.
Qed.

Lemma nth_store_same {A : Type} (n : nat) (v d : A) (l : list A) :
  (n < List.length l)%nat -> nth n (store n v l) d = v.
Proof.
  revert n. induction l as [ | h t IH]; intros [ | n] H; simpl in *; try lia.
  - reflexivity.
  - apply IH. lia.
Qed.

Lemma nth_store_other {A : Type} (n m : nat) (v d : A) (l : list A) :
  n <> m -> nth m (store n v l) d = nth m l d.
Proof.
  revert n m. induction l as [ | h t IH]; intros [ | n] [ | m] H; simpl;
    try reflexivity; try congruence.
  apply IH. congruence.
Qed.

Lemma length_pad_row n cs : List.length (pad_row n cs) = n.
Proof.
  revert cs. induction n as [ | n IH]; intros cs; simpl; [ reflexivity | ].
  destruct cs; simpl; rewrite IH; reflexivity.
Qed.

Lemma nth_pad_row n cs i :
  (i < n)%nat -> nth i (pad_row n cs) SPACE = nth i cs SPACE.
Proof.
  revert cs i. induction n as [ | n IH]; intros cs i H; [ lia | ].
  destruct cs as [ | c cs]; destruct i as [ | i]; simpl; try reflexivity.
  - rewrite IH by lia. destruct i; reflexivity.
  - apply IH. lia.
Qed.

Lemma widest_bounds src : forall acc,
  acc <= widest src acc
  /\ (forall s, In s src -> strlen s <= widest src acc)
  /\ (widest src acc = acc \/ exists s, In s src /\ strlen s = widest src acc).
Proof.
  induction src as [ | s rest IH]; intros acc; simpl.
  - split; [ lia | ]. split; [ intros s [] | left; reflexivity ].
  - destruct (IH (if acc <? strlen s then strlen s else acc)) as (H1 & H2 & H3).
    unfold widest in *. simpl.
    destruct (acc <? strlen s) eqn:E.
    + apply Z.ltb_lt in E. split; [ lia | ]. split.
      * intros s' [<- | Hin]; [ exact H1 | exact (H2 s' Hin) ].
      * right. destruct H3 as [H3 | (s' & Hin & H3)].
        -- exists s. split; [ left; reflexivity | symmetry; exact H3 ].
        -- exists s'. split; [ right; exact Hin | exact H3 ].
    + apply Z.ltb_ge in E. split; [ exact H1 | ]. split.
      * intros s' [<- | Hin]; [ lia | exact (H2 s' Hin) ].
      * destruct H3 as [H3 | (s' & Hin & H3)]; [ left; exact H3 | ].
        right. exists s'. split; [ right; exact Hin | exact H3 ].
Qed.

(** What the loop over the rows returns: the rows of the level, each
    padded to the width; [rand] is not consulted. *)
Lemma load_rows_done src width : forall l r,
  load_rows src width l = Done r ->
  fst r = map (fun s => pad_row width (list_ascii_of_string s)) src.
Proof.
  induction src as [ | s rest IH]; intros l r H; cbn [load_rows] in H.
  - injection H as <-. reflexivity.
  - destruct (Libc.malloc l) as [ok l'].
    destruct ok; cbn [negb] in H; [ | discriminate ].
    destruct (load_rows rest width l') as [r' | | ] eqn:Er; cbn [bind] in H;
      try discriminate.
    injection H as <-. cbn [fst map]. rewrite (IH _ _ Er). reflexivity.
Qed.

Lemma load_rows_returns src width : forall l,
  (forall k, (k < List.length src)%nat ->
             Libc.malloc_src l (Libc.malloc_pos l + k) = true) ->
  exists r, load_rows src width l = Done r.
Proof.
  induction src as [ | s rest IH]; intros l Hm; cbn [load_rows].
  - eexists. reflexivity.
  - unfold Libc.malloc.
    pose proof (Hm 0%nat ltac:(cbn [List.length]; lia)) as H0.
    rewrite Nat.add_0_r in H0. rewrite H0. cbn [negb].
    destruct (IH (Libc.mk (Libc.rand_src l) (Libc.rand_pos l) (Libc.malloc_src l)
                          (S (Libc.malloc_pos l)))) as [r Er].
    + intros k Hk. cbn [Libc.malloc_src Libc.malloc_pos].
      rewrite <- (Hm (S k) ltac:(cbn [List.length]; lia)). f_equal. lia.
    + rewrite Er. cbn [bind]. eexists. reflexivity.
Qed.

Lemma load_rows_fault src width : forall l k,
  (k < List.length src)%nat ->
  Libc.malloc_src l (Libc.malloc_pos l + k) = false ->
  load_rows src width l = Fault.
Proof.
  induction src as [ | s rest IH]; intros l k Hk Hm;
    [ cbn [List.length] in Hk; lia | ].
  cbn [load_rows]. unfold Libc.malloc.
  destruct (Libc.malloc_src l (Libc.malloc_pos l)) eqn:E0; cbn [negb];
    [ | reflexivity ].
  destruct k as [ | k]; [ rewrite Nat.add_0_r, E0 in Hm; discriminate | ].
  rewrite (IH _ k); [ reflexivity | cbn [List.length] in Hk; lia | ].
  cbn [Libc.malloc_src Libc.malloc_pos]. rewrite <- Hm. f_equal. lia.
Qed.

(** When [load_map] returns on a level with a row, the world is the old
    one with the dimensions and the copied rows, and a libc further
    on. *)
Lemma load_map_done src w w' :
  src <> [] ->
  load_map src w = Done w' ->
  exists l',
    w' = set_libc l'
           (set_map_data
              (map (fun s => pad_row (Z.to_nat (widest src 0))
                                     (list_ascii_of_string s)) src)
              (mkWorld (widest src 0) (Z.of_nat (List.length src))
                 (map_data w) (player w) (enemies w) (enemy_count w)
                 (cam_x w) (paused w) (game_over w) (win w) (libc w))).
Proof.
  intros Hne H. unfold load_map in H. fold (widest src 0) in H. cbv zeta in H.
  destruct (Z.of_nat (List.length src) =? 0) eqn:E0.
  { apply Z.eqb_eq in E0. destruct src; [ congruence | simpl in E0; lia ]. }
  destruct (Libc.malloc (libc w)) as [ok l1].
  destruct ok; cbn [negb] in H; [ | discriminate ].
  destruct (load_rows src (Z.to_nat (widest src 0)) l1) as [r | | ] eqn:Er;
    cbn [bind] in H; try discriminate.
  injection H as <-. exists (snd r). rewrite (load_rows_done _ _ _ _ Er).
  reflexivity.
Qed.

Lemma load_map_returns src w :
  (forall k, (k <= List.length src)%nat ->
             Libc.malloc_src (libc w) (Libc.malloc_pos (libc w) + k) = true) ->
  exists w', load_map src w = Done w'.
Proof.
  intros Hm. unfold load_map. cbv zeta.
  destruct (Z.of_nat (List.length src) =? 0); [ eexists; reflexivity | ].
  unfold Libc.malloc.
  pose proof (Hm 0%nat ltac:(lia)) as H0. rewrite Nat.add_0_r in H0.
  rewrite H0. cbn [negb].
  match goal with
  | |- context [ load_rows src ?n ?l ] =>
      destruct (load_rows_returns src n l) as [r Er]
  end.
  - intros k Hk. cbn [Libc.malloc_src Libc.malloc_pos].
    rewrite <- (Hm (S k) ltac:(lia)). f_equal. lia.
  - rewrite Er. cbn [bind]. eexists. reflexivity.
Qed.

Lemma load_map_fault src w k :
  src <> [] ->
  (k <= List.length src)%nat ->
  Libc.malloc_src (libc w) (Libc.malloc_pos (libc w) + k) = false ->
  load_map src w = Fault.
Proof.
  intros Hne Hk Hm. unfold load_map. cbv zeta.
  destruct (Z.of_nat (List.length src) =? 0) eqn:E0.
  { apply Z.eqb_eq in E0. destruct src; [ congruence | simpl in E0; lia ]. }
  unfold Libc.malloc.
  destruct (Libc.malloc_src (libc w) (Libc.malloc_pos (libc w))) eqn:E1;
    cbn [negb]; [ | reflexivity ].
  destruct k as [ | k]; [ rewrite Nat.add_0_r, E1 in Hm; discriminate | ].
  rewrite (load_rows_fault src _ _ k); [ reflexivity | lia | ].
  cbn [Libc.malloc_src Libc.malloc_pos]. rewrite <- Hm. f_equal. lia.
Qed.

Lemma load_map_is_grid src w w' :
  src <> [] -> load_map src w = Done w' -> grid w'.
Proof.
  intros Hne H. destruct (load_map_done src w w' Hne H) as [l' ->].
  pose proof (widest_bounds src 0) as (Hw0 & _ & _).
  unfold grid. cbn.
  split; [ exact Hw0 | ]. split; [ lia | ].
  split; [ rewrite length_map, Nat2Z.id; reflexivity | ].
  apply Forall_forall. intros row Hrow.
  apply in_map_iff in Hrow. destruct Hrow as (s & <- & _).
  apply length_pad_row.
Qed.

(** The shipped level loads when its 23 allocations succeed. *)
Lemma mario_loaded_returns :
  load_map level_map (zeroed (Libc.scripted [] [])) = Done mario_loaded.
Proof. vm_compute. reflexivity. Qed.

Lemma mario_loaded_grid : grid mario_loaded.
Proof.
  apply (load_map_is_grid level_map (zeroed (Libc.scripted [] []))).
  - discriminate.
  - exact mario_loaded_returns.
Qed.

(** X1.  [load_map] returns when the allocation of the array of rows
    and those of the rows succeed (a level without rows allocates
    nothing), and on a level of at least one row a failed allocation is
    written through.  When it returns on such a level it has built a
    grid: as many rows as the level has, each as wide as the longest row
    of the level; a cell holds the character of the level at that place,
    and a space where the row of the level is shorter.  On a level
    without rows it sets both dimensions to 0, so every cell reads as a
    space. *)
Theorem load_map_grid (src : list string) (w : World) :
  (forall w', load_map src w = Done w' ->
     (src <> [] ->
      grid w'
      /\ map_h w' = Z.of_nat (List.length src)
      /\ (forall s, In s src -> strlen s <= map_w w')
      /\ (exists s, In s src /\ strlen s = map_w w')
      /\ forall mx my, inside w' mx my ->
           map_at w' mx my
           = nth (Z.to_nat mx)
                 (list_ascii_of_string (nth (Z.to_nat my) src EmptyString)) SPACE)
     /\ (src = [] ->
         map_h w' = 0 /\ map_w w' = 0 /\ libc w' = libc w
         /\ forall mx my, map_at w' mx my = SPACE))
  /\ ((forall k, (k <= List.length src)%nat ->
         Libc.malloc_src (libc w) (Libc.malloc_pos (libc w) + k) = true) ->
      exists w', load_map src w = Done w')
  /\ (forall k, src <> [] -> (k <= List.length src)%nat ->
        Libc.malloc_src (libc w) (Libc.malloc_pos (libc w) + k) = false ->
        load_map src w = Fault).
Proof.
  split; [ | split; [ apply load_map_returns | ] ].
  2: { intros k Hne Hk Hm. exact (load_map_fault src w k Hne Hk Hm). }
  intros w' Hdone. split.
  - intros Hne.
    assert (Hlen : (0 < List.length src)%nat)
      by (destruct src; [ congruence | simpl; lia ]).
    pose proof (widest_bounds src 0) as (Hw0 & Hwmax & Hwex).
    pose proof (load_map_is_grid src w w' Hne Hdone) as Hgrid.
    destruct (load_map_done src w w' Hne Hdone) as [l' E].
    rewrite E in *. clear E.
    split; [ exact Hgrid | split; [ reflexivity | split; [ exact Hwmax | split ] ] ].
    + destruct Hwex as [H0 | Hex]; [ | exact Hex ].
      destruct src as [ | s rest]; [ congruence | ].
      exists s. split; [ left; reflexivity | ].
      cbn [map_w set_map_data set_libc]. rewrite H0.
      pose proof (Hwmax s (or_introl eq_refl)) as Hs.
      unfold strlen in *. lia.
    + intros mx my [Hx Hy]. cbn in Hx, Hy.
      unfold map_at. cbn [map_w map_h map_data set_map_data set_libc].
      replace ((mx <? 0) || (my <? 0)
               || (Z.of_nat (List.length src) <=? my)
               || (widest src 0 <=? mx)) with false
        by (symmetry; repeat (apply orb_false_iff; split);
            first [ apply Z.ltb_ge | apply Z.leb_gt ]; lia).
      rewrite (nth_indep _ [] (pad_row (Z.to_nat (widest src 0))
                                 (list_ascii_of_string EmptyString)))
        by (rewrite length_map; lia).
      rewrite (map_nth (fun s => pad_row (Z.to_nat (widest src 0))
                                   (list_ascii_of_string s))).
      apply nth_pad_row. lia.
  - intros ->. cbn in Hdone. injection Hdone as <-. cbn.
    split; [ reflexivity | ]. split; [ reflexivity | ]. split; [ reflexivity | ].
    intros mx my. unfold map_at. cbn [map_w map_h].
    destruct (mx <? 0) eqn:Ex; [ reflexivity | ].
    destruct (my <? 0) eqn:Ey; [ reflexivity | ].
    apply Z.ltb_ge in Ey. apply Z.leb_le in Ey. rewrite Ey. reflexivity.
Qed.

(** The shipped level loads into a grid of 22 rows; with the third
    allocation failing the call faults. *)
Lemma load_map_grid_witness :
  load_map level_map (zeroed (Libc.scripted [] [])) = Done mario_loaded
  /\ grid mario_loaded
  /\ map_h mario_loaded = Z.of_nat (List.length level_map)
  /\ load_map level_map (zeroed starved) = Fault.
Proof.
  split; [ exact mario_loaded_returns | ].
  destruct (load_map_grid level_map (zeroed (Libc.scripted [] []))) as (H & _).
  destruct (H mario_loaded mario_loaded_returns) as [Hg _].
  destruct (Hg ltac:(discriminate)) as (G & Hh & _).
  split; [ exact G | ]. split; [ exact Hh | ].
  destruct (load_map_grid level_map (zeroed starved)) as (_ & _ & Hf).
  apply (Hf 2%nat); [ discriminate | vm_compute; lia | vm_compute; reflexivity ].
Defined.

(** *** Reading and writing cells *)

Lemma map_at_same_map w w' mx my : same_map w w' -> map_at w' mx my = map_at w mx my.
Proof.
  intros (Ew & Eh & Ed). unfold map_at. rewrite Ew, Eh, Ed. reflexivity.
Qed.

Lemma grid_same_map w w' : same_map w w' -> grid w -> grid w'.
Proof.
  intros (Ew & Eh & Ed). unfold grid. rewrite Ew, Eh, Ed. tauto.
Qed.

Lemma map_at_outside w mx my : ~ inside w mx my -> map_at w mx my = SPACE.
Proof.
  intros H. unfold map_at, inside in *.
  destruct (mx <? 0) eqn:E1; [ reflexivity | ].
  destruct (my <? 0) eqn:E2; [ reflexivity | ].
  destruct (map_h w <=? my) eqn:E3; [ reflexivity | ].
  destruct (map_w w <=? mx) eqn:E4; [ reflexivity | ].
  exfalso. apply H. lia.
Qed.

Lemma set_map_char_outside w mx my c : ~ inside w mx my -> set_map_char mx my c w = w.
Proof.
  intros H. unfold set_map_char, inside in *.
  destruct (mx <? 0) eqn:E1; [ reflexivity | ].
  destruct (my <? 0) eqn:E2; [ reflexivity | ].
  destruct (map_h w <=? my) eqn:E3; [ reflexivity | ].
  destruct (map_w w <=? mx) eqn:E4; [ reflexivity | ].
  exfalso. apply H. lia.
Qed.

Lemma set_map_char_inside w mx my c :
  inside w mx my ->
  set_map_char mx my c w
  = set_map_data
      (store (Z.to_nat my)
             (store (Z.to_nat mx) c (nth (Z.to_nat my) (map_data w) []))
             (map_data w)) w.
Proof.
  intros [Hx Hy]. unfold set_map_char.
  replace ((mx <? 0) || (my <? 0) || (map_h w <=? my) || (map_w w <=? mx))
    with false; [ reflexivity | ].
  symmetry. repeat (apply orb_false_iff; split);
    first [ apply Z.ltb_ge | apply Z.leb_gt ]; lia.
Qed.

Lemma inside_bool w mx my :
  inside w mx my ->
  (mx <? 0) || (my <? 0) || (map_h w <=? my) || (map_w w <=? mx) = false.
Proof.
  intros [Hx Hy]. repeat (apply orb_false_iff; split);
    first [ apply Z.ltb_ge | apply Z.leb_gt ]; lia.
Qed.

Lemma bool_inside w mx my :
  (mx <? 0) || (my <? 0) || (map_h w <=? my) || (map_w w <=? mx) = false ->
  inside w mx my.
Proof.
  intros E.
  apply orb_false_iff in E. destruct E as [E E4].
  apply orb_false_iff in E. destruct E as [E E3].
  apply orb_false_iff in E. destruct E as [E1 E2].
  apply Z.ltb_ge in E1, E2. apply Z.leb_gt in E3, E4.
  unfold inside. lia.
Qed.

Lemma row_length w my :
  grid w -> 0 <= my < map_h w ->
  List.length (nth (Z.to_nat my) (map_data w) []) = Z.to_nat (map_w w).
Proof.
  intros (_ & _ & Hrows & Hall) Hy.
  rewrite Forall_forall in Hall. apply Hall, nth_In. lia.
Qed.

Lemma Forall_store {A : Type} (P : A -> Prop) n v (l : list A) :
  Forall P l -> P v -> Forall P (store n v l).
Proof.
  intros Hl Hv. revert n.
  induction Hl as [ | h t Hh Ht IH]; intros [ | n]; simpl; constructor; auto.
Qed.

Lemma grid_set_map_char w mx my c : grid w -> grid (set_map_char mx my c w).
Proof.
  intros Hg. unfold set_map_char.
  destruct ((mx <? 0) || (my <? 0) || (map_h w <=? my) || (map_w w <=? mx)) eqn:E;
    [ exact Hg | ].
  assert (Hy : 0 <= my < map_h w) by (apply (bool_inside w mx my E)).
  pose proof (row_length w my Hg Hy) as Hrow.
  destruct Hg as (Hw & Hh & Hrows & Hall).
  unfold grid. cbn.
  split; [ exact Hw | ]. split; [ exact Hh | ].
  split; [ rewrite length_store; exact Hrows | ].
  apply Forall_store; [ exact Hall | ].
  rewrite length_store. exact Hrow.
Qed.

Lemma map_at_set_same w mx my c :
  grid w -> inside w mx my -> map_at (set_map_char mx my c w) mx my = c.
Proof.
  intros Hg Hin. rewrite (set_map_char_inside w mx my c Hin).
  unfold map_at. cbn [map_w map_h map_data set_map_data].
  rewrite (inside_bool w mx my Hin).
  pose proof (row_length w my Hg (proj2 Hin)) as Hrow.
  destruct Hg as (_ & _ & Hrows & _). destruct Hin as [Hx Hy].
  rewrite nth_store_same by lia.
  apply nth_store_same. lia.
Qed.

Lemma map_at_set_other w mx my c x y :
  (x, y) <> (mx, my) -> map_at (set_map_char mx my c w) x y = map_at w x y.
Proof.
  intros Hne. unfold set_map_char.
  destruct ((mx <? 0) || (my <? 0) || (map_h w <=? my) || (map_w w <=? mx)) eqn:E;
    [ reflexivity | ].
  unfold map_at. cbn [map_w map_h map_data set_map_data].
  destruct ((x <? 0) || (y <? 0) || (map_h w <=? y) || (map_w w <=? x)) eqn:E';
    [ reflexivity | ].
  destruct (bool_inside w mx my E) as [Hmx Hmy].
  destruct (bool_inside w x y E') as [Hx' Hy'].
  destruct (Z.eq_dec y my) as [-> | Hy].
  - destruct (Nat.lt_ge_cases (Z.to_nat my) (List.length (map_data w))) as [Hl | Hl].
    + rewrite nth_store_same by exact Hl.
      apply nth_store_other. intros Heq. apply Hne.
      f_equal. lia.
    + rewrite (nth_overflow (store _ _ _)) by (rewrite length_store; exact Hl).
      rewrite (nth_overflow (map_data w)) by exact Hl. reflexivity.
  - rewrite nth_store_other by lia. reflexivity.
Qed.

(** X2.  Writing a cell of a grid and reading it back gives the
    character written; every other cell reads as before and the map is
    still a grid.  Outside the grid a write changes nothing and a read
    gives a space. *)
Theorem map_write_read (w : World) (mx my : Z) (c : ascii) :
  grid w ->
  (inside w mx my ->
   map_at (set_map_char mx my c w) mx my = c
   /\ (forall x y, (x, y) <> (mx, my) ->
         map_at (set_map_char mx my c w) x y = map_at w x y)
   /\ grid (set_map_char mx my c w))
  /\ (~ inside w mx my ->
      set_map_char mx my c w = w /\ map_at w mx my = SPACE).
Proof.
  intros Hg. split.
  - intros Hin. split; [ apply map_at_set_same; assumption | ].
    split; [ intros x y; apply map_at_set_other | apply grid_set_map_char, Hg ].
  - intros Hout. split; [ apply set_map_char_outside | apply map_at_outside ];
      exact Hout.
Qed.

Lemma map_write_read_witness :
  grid mario_loaded
  /\ map_at (set_map_char 27 7 "x" mario_loaded) 27 7 = "x"%char.
Proof.
  assert (Hg : grid mario_loaded) by exact mario_loaded_grid.
  split; [ exact Hg | ].
  apply (map_write_read mario_loaded 27 7 "x" Hg).
  vm_compute. repeat split; intro H; discriminate H.
Defined.

(** What is not a space lies inside the grid. *)
Lemma not_space_inside w mx my : map_at w mx my <> SPACE -> inside w mx my.
Proof.
  intros H. unfold map_at in H.
  destruct ((mx <? 0) || (my <? 0) || (map_h w <=? my) || (map_w w <=? mx)) eqn:E;
    [ congruence | ].
  apply bool_inside, E.
Qed.

(** Nothing is picked up from an empty cell. *)
Lemma pickup_nothing w :
  map_at w (fst (feet w)) (snd (feet w)) = SPACE -> pickup w = w.
Proof.
  intros H. unfold feet in H. cbn [fst snd] in H.
  unfold pickup. rewrite H. reflexivity.
Qed.

(** X3.  With a coin under the player's feet on a grid, [pickup] adds 5
    to the score, clears that cell and no other, and leaves [win] as it
    is; a second [pickup] finds the cell empty and changes nothing, so
    a coin scores once. *)
Theorem coin_scores_once (w : World) :
  grid w ->
  map_at w (fst (feet w)) (snd (feet w)) = "o"%char ->
  pl_score (player (pickup w)) = CInt.add (pl_score (player w)) 5
  /\ map_at (pickup w) (fst (feet w)) (snd (feet w)) = SPACE
  /\ (forall x y, (x, y) <> feet w -> map_at (pickup w) x y = map_at w x y)
  /\ win (pickup w) = win w
  /\ pickup (pickup w) = pickup w.
Proof.
  intros Hg Hcoin.
  assert (Hin : inside w (fst (feet w)) (snd (feet w))).
  { apply not_space_inside. rewrite Hcoin. discriminate. }
  assert (E : pickup w
              = set_map_char (fst (feet w)) (snd (feet w)) SPACE
                  (upd (set_score (CInt.add (pl_score (player w)) 5)) w)).
  { unfold pickup. fold (fst (feet w)) (snd (feet w)).
    unfold feet in *. cbn [fst snd] in *. rewrite Hcoin. reflexivity. }
  assert (Hfeet : feet (pickup w) = feet w).
  { unfold feet. rewrite E, MarioFacts.player_set_map_char. reflexivity. }
  assert (Hclear : map_at (pickup w) (fst (feet w)) (snd (feet w)) = SPACE).
  { rewrite E. apply map_at_set_same; [ exact Hg | exact Hin ]. }
  split; [ rewrite E, MarioFacts.player_set_map_char; reflexivity | ].
  split; [ exact Hclear | ].
  split.
  { intros x y Hne. rewrite E. rewrite map_at_set_other.
    - reflexivity.
    - destruct (feet w). exact Hne. }
  split.
  { rewrite E. unfold set_map_char.
    destruct (_ || _ || _ || _); reflexivity. }
  apply pickup_nothing. rewrite Hfeet. exact Hclear.
Qed.

Lemma coin_scores_once_witness :
  grid mario_on_coin
  /\ map_at mario_on_coin (fst (feet mario_on_coin)) (snd (feet mario_on_coin))
     = "o"%char
  /\ pl_score (player (pickup mario_on_coin)) = 5
  /\ pickup (pickup mario_on_coin) = pickup mario_on_coin.
Proof.
  assert (Hg : grid mario_on_coin).
  { apply (grid_same_map mario_loaded);
      [ vm_compute; split; [ reflexivity | split; reflexivity ] | ].
    exact mario_loaded_grid. }
  assert (Hc : map_at mario_on_coin (fst (feet mario_on_coin))
                      (snd (feet mario_on_coin)) = "o"%char)
    by (vm_compute; reflexivity).
  destruct (coin_scores_once mario_on_coin Hg Hc) as (Hs & _ & _ & _ & Hi).
  split; [ exact Hg | ]. split; [ exact Hc | ].
  split; [ rewrite Hs; vm_compute; reflexivity | exact Hi ].
Defined.

(** *** Enemy markers and [reset_level] *)

(** A loop whose body carries a property from index to index. *)
Lemma for_range_ind {St : Type} (P : Z -> St -> Prop) (body : Z -> St -> St) :
  (forall i s, P i s -> P (i + 1) (body i s)) ->
  forall n i s, P i s -> P (i + Z.of_nat n) (for_range n i body s).
Proof.
  intros Hbody n. induction n as [ | n IH]; intros i s Hs.
  - simpl. replace (i + 0) with i by lia. exact Hs.
  - cbn [for_range].
    replace (i + Z.of_nat (S n)) with (i + 1 + Z.of_nat n) by lia.
    apply IH, Hbody, Hs.
Qed.

Lemma for_range_fix {St : Type} (body : Z -> St -> St) (s : St) :
  (forall i, body i s = s) -> forall n i, for_range n i body s = s.
Proof.
  intros Hfix n. induction n as [ | n IH]; intros i; simpl; [ reflexivity | ].
  rewrite Hfix. apply IH.
Qed.

(** The world in which [spawn_cell] clears the marker has the map of
    the world it started from. *)
Lemma spawn_cell_write r c w :
  exists w1,
    same_map w w1
    /\ spawn_cell r c w
       = if is_char (map_at w c r) "E" then set_map_char c r SPACE w1 else w.
Proof.
  unfold spawn_cell. destruct (is_char (map_at w c r) "E"); [ | exists w; repeat split ].
  destruct (enemy_count w <? MAX_ENEMIES); [ | exists w; repeat split ].
  destruct (Libc.rand (libc w)) as [rv l'].
  eexists. split; [ | reflexivity ]. repeat split.
Qed.

Lemma spawn_cell_map r c w :
  grid w ->
  grid (spawn_cell r c w)
  /\ map_w (spawn_cell r c w) = map_w w
  /\ map_h (spawn_cell r c w) = map_h w
  /\ (forall x y, map_at w x y <> "E"%char ->
                  map_at (spawn_cell r c w) x y <> "E"%char)
  /\ map_at (spawn_cell r c w) c r <> "E"%char.
Proof.
  intros Hg. destruct (spawn_cell_write r c w) as (w1 & Hsame & E).
  rewrite E. clear E.
  destruct (is_char (map_at w c r) "E") eqn:Em.
  - apply Ascii.eqb_eq in Em.
    assert (Hin : inside w c r)
      by (apply not_space_inside; rewrite Em; discriminate).
    pose proof (grid_same_map w w1 Hsame Hg) as Hg1.
    assert (Hin1 : inside w1 c r).
    { destruct Hsame as (Ew & Eh & _). unfold inside. rewrite Ew, Eh. exact Hin. }
    split; [ apply grid_set_map_char, Hg1 | ].
    destruct Hsame as (Ew & Eh & Ed).
    split.
    { rewrite (set_map_char_inside w1 c r SPACE Hin1). exact Ew. }
    split.
    { rewrite (set_map_char_inside w1 c r SPACE Hin1). exact Eh. }
    split.
    + intros x y Hxy.
      destruct (Z.eq_dec x c) as [-> | Hx];
        [ destruct (Z.eq_dec y r) as [-> | Hy] | ].
      * rewrite (map_at_set_same w1 c r SPACE Hg1 Hin1). discriminate.
      * rewrite map_at_set_other by congruence.
        rewrite (map_at_same_map w w1) by (repeat split; assumption). exact Hxy.
      * rewrite map_at_set_other by congruence.
        rewrite (map_at_same_map w w1) by (repeat split; assumption). exact Hxy.
    + rewrite (map_at_set_same w1 c r SPACE Hg1 Hin1). discriminate.
  - apply Ascii.eqb_neq in Em.
    split; [ exact Hg | ]. split; [ reflexivity | ]. split; [ reflexivity | ].
    split; [ intros x y H; exact H | exact Em ].
Qed.

(** The scan of [spawn_enemies_from_map] leaves no marker behind. *)
Lemma spawn_clears w :
  grid w ->
  grid (spawn_enemies_from_map w) /\ no_marker (spawn_enemies_from_map w).
Proof.
  intros Hg. unfold spawn_enemies_from_map.
  pose (Q := fun (r : Z) (s : World) =>
               grid s /\ map_w s = map_w w /\ map_h s = map_h w
               /\ forall x y, y < r -> map_at s x y <> "E"%char).
  assert (HQ : Q (0 + Z.of_nat (Z.to_nat (map_h w)))
                 (for_range (Z.to_nat (map_h w)) 0
                    (fun r => for_range (Z.to_nat (map_w w)) 0
                                (fun c => spawn_cell r c)) w)).
  { apply for_range_ind.
    - intros r s (Hgs & Ews & Ehs & Hdone).
      pose (P := fun (c : Z) (s' : World) =>
                   grid s' /\ map_w s' = map_w w /\ map_h s' = map_h w
                   /\ forall x y, y < r \/ (y = r /\ x < c) ->
                                  map_at s' x y <> "E"%char).
      assert (HP : P (0 + Z.of_nat (Z.to_nat (map_w w)))
                     (for_range (Z.to_nat (map_w w)) 0
                        (fun c => spawn_cell r c) s)).
      { apply for_range_ind.
        - intros c s' (Hgs' & Ews' & Ehs' & Hdone').
          destruct (spawn_cell_map r c s' Hgs') as (Hg2 & Ew2 & Eh2 & Hkeep & Hcell).
          split; [ exact Hg2 | ]. split; [ congruence | ]. split; [ congruence | ].
          intros x y Hxy.
          destruct (Z.eq_dec x c) as [-> | Hx];
            [ destruct (Z.eq_dec y r) as [-> | Hy] | ].
          + exact Hcell.
          + apply Hkeep, Hdone'. lia.
          + apply Hkeep, Hdone'. lia.
        - split; [ exact Hgs | ]. split; [ exact Ews | ]. split; [ exact Ehs | ].
          intros x y [Hy | [Hy Hx]].
          + apply Hdone, Hy.
          + intros HE.
            assert (Hin : inside s x y)
              by (apply not_space_inside; rewrite HE; discriminate).
            destruct Hin. lia. }
      destruct HP as (Hg2 & Ew2 & Eh2 & Hrow).
      split; [ exact Hg2 | ]. split; [ exact Ew2 | ]. split; [ exact Eh2 | ].
      intros x y Hy HE.
      assert (Hin : inside (for_range (Z.to_nat (map_w w)) 0
                              (fun c => spawn_cell r c) s) x y)
        by (apply not_space_inside; rewrite HE; discriminate).
      destruct Hin as [Hx Hy'].
      destruct Hg as (Hw0 & _).
      apply (Hrow x y); [ | exact HE ].
      destruct (Z.eq_dec y r); [ right | left ]; lia.
    - split; [ exact Hg | ]. split; [ reflexivity | ]. split; [ reflexivity | ].
      intros x y Hy HE.
      assert (Hin : inside w x y)
        by (apply not_space_inside; rewrite HE; discriminate).
      destruct Hin. lia. }
  destruct HQ as (Hg2 & Ew2 & Eh2 & Hall).
  split; [ exact Hg2 | ].
  intros x y HE.
  assert (Hin : inside (for_range (Z.to_nat (map_h w)) 0
                          (fun r => for_range (Z.to_nat (map_w w)) 0
                                      (fun c => spawn_cell r c)) w) x y)
    by (apply not_space_inside; rewrite HE; discriminate).
  destruct Hin as [Hx Hy]. destruct Hg as (_ & Hh0 & _).
  apply (Hall x y); [ lia | exact HE ].
Qed.

(** On a map without markers the scan does nothing. *)
Lemma spawn_nothing w : no_marker w -> spawn_enemies_from_map w = w.
Proof.
  intros Hno. unfold spawn_enemies_from_map.
  apply for_range_fix. intros r. apply for_range_fix. intros c.
  unfold spawn_cell.
  destruct (is_char (map_at w c r) "E") eqn:E; [ | reflexivity ].
  apply Ascii.eqb_eq in E. exfalso. exact (Hno c r E).
Qed.

(** Up to the scan of the map, [reset_level] writes the player, the
    flags and the enemy array only. *)
Lemma reset_level_scan w :
  exists w4,
    same_map w w4 /\ enemy_count w4 = 0
    /\ reset_level w = spawn_enemies_from_map w4.
Proof.
  unfold reset_level. destruct (spawn_point w) as [sx sy].
  eexists. split; [ | split; [ | reflexivity ] ].
  - apply (MarioFacts.for_range_inv (fun s => same_map w s)); [ | repeat split ].
    intros i s Hs. exact Hs.
  - apply (MarioFacts.for_range_inv (fun s => enemy_count s = 0)); [ | reflexivity ].
    intros i s Hs. exact Hs.
Qed.

(** X4.  [reset_level] on a grid consumes every enemy marker of the
    map, and a [reset_level] on a map without markers registers no
    enemy.  So the enemies of a level exist only until the next reset:
    after a second [reset_level] the enemy count is 0. *)
Theorem reset_consumes_markers (w : World) :
  grid w ->
  grid (reset_level w)
  /\ no_marker (reset_level w)
  /\ (no_marker w -> enemy_count (reset_level w) = 0)
  /\ enemy_count (reset_level (reset_level w)) = 0.
Proof.
  intros Hg.
  assert (Hnone : forall v, no_marker v -> enemy_count (reset_level v) = 0).
  { intros v Hno. destruct (reset_level_scan v) as (v4 & Hsame & Hcount & E).
    rewrite E, spawn_nothing; [ exact Hcount | ].
    intros x y. rewrite (map_at_same_map v v4 x y Hsame). apply Hno. }
  destruct (reset_level_scan w) as (w4 & Hsame & _ & E).
  destruct (spawn_clears w4 (grid_same_map w w4 Hsame Hg)) as [Hg' Hno'].
  rewrite <- E in Hg', Hno'.
  split; [ exact Hg' | ]. split; [ exact Hno' | ].
  split; [ apply Hnone | apply Hnone, Hno' ].
Qed.

Lemma reset_consumes_markers_witness :
  grid mario_loaded
  /\ enemy_count (reset_level mario_loaded) = 1
  /\ enemy_count (reset_level (reset_level mario_loaded)) = 0.
Proof.
  assert (Hg : grid mario_loaded) by exact mario_loaded_grid.
  split; [ exact Hg | ].
  split; [ vm_compute; reflexivity | ].
  exact (proj2 (proj2 (proj2 (reset_consumes_markers mario_loaded Hg)))).
Defined.

(** X5.  [reset_level] never registers more than [MAX_ENEMIES] enemies,
    whatever the map holds: the count after it is between 0 and 128. *)
Theorem reset_respects_enemy_array (w : World) :
  0 <= enemy_count (reset_level w) <= MAX_ENEMIES.
Proof.
  destruct (reset_level_scan w) as (w4 & _ & Hcount & E). rewrite E.
  unfold spawn_enemies_from_map.
  apply (MarioFacts.for_range_inv (fun s => 0 <= enemy_count s <= MAX_ENEMIES));
    [ | rewrite Hcount; unfold MAX_ENEMIES; lia ].
  intros r s Hs.
  apply (MarioFacts.for_range_inv (fun s => 0 <= enemy_count s <= MAX_ENEMIES));
    [ | exact Hs ].
  intros c s' Hs'. unfold spawn_cell.
  destruct (is_char (map_at s' c r) "E"); [ | exact Hs' ].
  assert (Hcnt : forall v, enemy_count (set_map_char c r SPACE v) = enemy_count v).
  { intros v. unfold set_map_char. destruct (_ || _ || _ || _); reflexivity. }
  rewrite Hcnt.
  destruct (enemy_count s' <? MAX_ENEMIES) eqn:El; [ | exact Hs' ].
  apply Z.ltb_lt in El.
  destruct (Libc.rand (libc s')) as [rv l']. cbn. lia.
Qed.

End MarioMapFacts.

(** ** Enemies, keys and the camera of the platformer *)

Module MarioMoreFacts.

Import F32 Mario Shape Patrol MarioView Scenario Scenario2.

Lemma enemy_at_set_enemy i e w j :
  enemy_at (set_enemy i e w) j = enemy_at w j
  \/ (Z.to_nat j = Z.to_nat i /\ enemy_at (set_enemy i e w) j = e).
Proof.
  unfold enemy_at, set_enemy. cbn [enemies set_enemies].
  destruct (Nat.eq_dec (Z.to_nat i) (Z.to_nat j)) as [E | E].
  - rewrite <- E.
    destruct (Nat.lt_ge_cases (Z.to_nat i) (List.length (enemies w))) as [Hl | Hl].
    + right. split; [ reflexivity | ].
      apply MarioMapFacts.nth_store_same, Hl.
    + left. rewrite !nth_overflow;
        [ reflexivity | exact Hl | rewrite MarioMapFacts.length_store; exact Hl ].
  - left. apply MarioMapFacts.nth_store_other, E.
Qed.

Lemma enemy_at_same_index w i j : Z.to_nat j = Z.to_nat i -> enemy_at w j = enemy_at w i.
Proof. unfold enemy_at. intros ->. reflexivity. Qed.

(** One patrol step keeps what it is not meant to move. *)
Lemma patrol_frame i w j :
  en_alive (enemy_at (patrol i w) j) = en_alive (enemy_at w j)
  /\ en_y (enemy_at (patrol i w) j) = en_y (enemy_at w j)
  /\ en_left_bound (enemy_at (patrol i w) j) = en_left_bound (enemy_at w j)
  /\ en_right_bound (enemy_at (patrol i w) j) = en_right_bound (enemy_at w j)
  /\ (CInt.truthy (en_alive (enemy_at w j)) = false ->
      enemy_at (patrol i w) j = enemy_at w j).
Proof.
  unfold patrol.
  destruct (CInt.truthy (en_alive (enemy_at w i))) eqn:Ea; cbn [negb];
    [ | repeat split; reflexivity ].
  destruct (negb (tile_collide w _ (en_y (enemy_at w i))));
    match goal with
    | |- context [set_enemy i ?e w] =>
        destruct (enemy_at_set_enemy i e w j) as [E | [Ej E]]; rewrite E;
        try (repeat split; reflexivity);
        rewrite (enemy_at_same_index w i j Ej);
        (repeat split; try reflexivity); intros Hd; congruence
    end.
Qed.

Lemma patrol_range i w j :
  patrolling (enemy_at w j) -> patrolling (enemy_at (patrol i w) j).
Proof.
  intros Hp. unfold patrol.
  destruct (CInt.truthy (en_alive (enemy_at w i))) eqn:Ea; cbn [negb];
    [ | exact Hp ].
  destruct (negb (tile_collide w _ (en_y (enemy_at w i))));
    match goal with
    | |- context [set_enemy i ?e w] =>
        destruct (enemy_at_set_enemy i e w j) as [E | [Ej E]]; rewrite E;
        [ exact Hp | ];
        rewrite (enemy_at_same_index w i j Ej) in Hp
    end;
    destruct Hp as (Hlr & Hx & Hd & Hlo & Hhi);
    unfold patrolling; cbn [en_x en_dir en_left_bound en_right_bound];
    unfold CInt.INT_MIN, CInt.INT_MAX in *;
    (assert (Ea1 : CInt.add (en_x (enemy_at w i)) (en_dir (enemy_at w i))
                   = en_x (enemy_at w i) + en_dir (enemy_at w i))
       by (apply CIntFacts.add_exact;
           unfold CInt.in_range, CInt.INT_MIN, CInt.INT_MAX; lia));
    rewrite Ea1;
    destruct Hd as [Hd | Hd]; rewrite Hd in *;
    change (CInt.neg 1) with (-1); change (CInt.neg (-1)) with 1;
    match goal with
    | |- context [?a || ?b] => destruct a eqn:E1; destruct b eqn:E2; cbn [orb]
    end;
    try apply Z.ltb_lt in E1; try apply Z.ltb_ge in E1;
    try apply Z.ltb_lt in E2; try apply Z.ltb_ge in E2;
    try (change (CInt.neg 1) with (-1)); try (change (CInt.neg (-1)) with 1);
    try (rewrite CIntFacts.add_exact
           by (unfold CInt.in_range, CInt.INT_MIN, CInt.INT_MAX; lia));
    repeat split; try lia; auto.
Qed.

(** X6.  [update_enemies] moves enemies along their row only: the
    alive flag, the row and the patrol bounds of every entry are kept, a
    dead enemy is not touched, and the map and the player are as before.
    An enemy that is inside a patrol range of at least two tiles and
    faces left or right is still inside the range, facing left or
    right, afterwards. *)
Theorem patrol_stays_in_range (w : World) :
  (forall j,
     en_alive (enemy_at (update_enemies w) j) = en_alive (enemy_at w j)
     /\ en_y (enemy_at (update_enemies w) j) = en_y (enemy_at w j)
     /\ en_left_bound (enemy_at (update_enemies w) j) = en_left_bound (enemy_at w j)
     /\ en_right_bound (enemy_at (update_enemies w) j) = en_right_bound (enemy_at w j)
     /\ (CInt.truthy (en_alive (enemy_at w j)) = false ->
         enemy_at (update_enemies w) j = enemy_at w j))
  /\ (forall j, patrolling (enemy_at w j) ->
                patrolling (enemy_at (update_enemies w) j))
  /\ same_map w (update_enemies w)
  /\ player (update_enemies w) = player w.
Proof.
  unfold update_enemies. split; [ | split; [ | split ] ].
  - intros j.
    apply (MarioFacts.for_range_inv
             (fun s =>
                en_alive (enemy_at s j) = en_alive (enemy_at w j)
                /\ en_y (enemy_at s j) = en_y (enemy_at w j)
                /\ en_left_bound (enemy_at s j) = en_left_bound (enemy_at w j)
                /\ en_right_bound (enemy_at s j) = en_right_bound (enemy_at w j)
                /\ (CInt.truthy (en_alive (enemy_at w j)) = false ->
                    enemy_at s j = enemy_at w j)));
      [ | repeat split; reflexivity ].
    intros i s (Ha & Hy & Hl & Hr & Hdead).
    destruct (patrol_frame i s j) as (Ha' & Hy' & Hl' & Hr' & Hdead').
    split; [ congruence | ]. split; [ congruence | ].
    split; [ congruence | ]. split; [ congruence | ].
    intros Hd. rewrite Hdead'; [ apply Hdead, Hd | ].
    rewrite (Hdead Hd). exact Hd.
  - intros j Hp.
    apply (MarioFacts.for_range_inv (fun s => patrolling (enemy_at s j)));
      [ | exact Hp ].
    intros i s Hs. apply patrol_range, Hs.
  - apply (MarioFacts.for_range_inv (fun s => same_map w s)); [ | repeat split ].
    intros i s Hs. unfold patrol.
    destruct (negb (CInt.truthy (en_alive (enemy_at s i)))); [ exact Hs | ].
    destruct (negb (tile_collide s _ _)); exact Hs.
  - apply (MarioFacts.for_range_inv (fun s => player s = player w)); [ | reflexivity ].
    intros i s Hs. unfold patrol.
    destruct (negb (CInt.truthy (en_alive (enemy_at s i)))); [ exact Hs | ].
    destruct (negb (tile_collide s _ _)); exact Hs.
Qed.

(** The enemy of the shipped level after its first step. *)
Lemma patrol_stays_in_range_witness :
  patrolling (enemy_at mario_start 0)
  /\ patrolling (enemy_at (update_enemies mario_start) 0).
Proof.
  assert (H0 : patrolling (enemy_at mario_start 0)).
  { vm_compute.
    split; [ reflexivity | ].
    split; [ split; discriminate | ].
    split; [ right; reflexivity | ].
    split; reflexivity. }
  split; [ exact H0 | ].
  destruct (patrol_stays_in_range mario_start) as (_ & H & _).
  exact (H 0 H0).
Defined.

(** An enemy in contact is alive, so it is an entry of the array. *)
Lemma in_contact_alive ptx pty i w :
  in_contact ptx pty i w = true -> CInt.truthy (en_alive (enemy_at w i)) = true.
Proof.
  unfold in_contact. intros H.
  apply andb_true_iff in H. destruct H as [H _].
  apply andb_true_iff in H. destruct H as [H _]. exact H.
Qed.

Lemma alive_in_array w i :
  CInt.truthy (en_alive (enemy_at w i)) = true ->
  (Z.to_nat i < List.length (enemies w))%nat.
Proof.
  intros H. destruct (Nat.lt_ge_cases (Z.to_nat i) (List.length (enemies w)))
    as [Hl | Hl]; [ exact Hl | ].
  unfold enemy_at in H. rewrite nth_overflow in H by exact Hl. discriminate.
Qed.

(** X7.  A contact that is a stomp kills the touched enemy, adds 20 to
    the score and sends the player up with velocity [JUMP_VELO * 0.6f];
    lives and position are kept.  The dead enemy is out of every later
    contact test: the same loop step on it again changes nothing, and a
    step on any dead enemy is the identity. *)
Theorem stomp_kills_once (w : World) (ptx pty i : Z) :
  in_contact ptx pty i w = true ->
  is_stomp i w = true ->
  contact_step ptx pty i w = stomp i w
  /\ en_alive (enemy_at (contact_step ptx pty i w) i) = 0
  /\ pl_score (player (contact_step ptx pty i w)) = CInt.add (pl_score (player w)) 20
  /\ pl_vy (player (contact_step ptx pty i w)) = mul JUMP_VELO f0_6
  /\ pl_on_ground (player (contact_step ptx pty i w)) = 0
  /\ pl_lives (player (contact_step ptx pty i w)) = pl_lives (player w)
  /\ pl_x (player (contact_step ptx pty i w)) = pl_x (player w)
  /\ pl_y (player (contact_step ptx pty i w)) = pl_y (player w)
  /\ contact_step ptx pty i (contact_step ptx pty i w) = contact_step ptx pty i w
  /\ (forall v k, CInt.truthy (en_alive (enemy_at v k)) = false ->
                  contact_step ptx pty k v = v).
Proof.
  intros Hc Hs.
  assert (E : contact_step ptx pty i w = stomp i w)
    by (unfold contact_step; rewrite Hc, Hs; reflexivity).
  assert (Hdead : forall v k, CInt.truthy (en_alive (enemy_at v k)) = false ->
                              contact_step ptx pty k v = v).
  { intros v k Hd. unfold contact_step, in_contact. rewrite Hd. reflexivity. }
  assert (Ha : en_alive (enemy_at (stomp i w) i) = 0).
  { pose proof (alive_in_array w i (in_contact_alive ptx pty i w Hc)) as Hl.
    unfold stomp, enemy_at, upd, set_enemy.
    cbn [enemies set_player set_enemies player].
    rewrite MarioMapFacts.nth_store_same by exact Hl. reflexivity. }
  rewrite E.
  split; [ reflexivity | ]. split; [ exact Ha | ].
  repeat (split; [ reflexivity | ]).
  split; [ | exact Hdead ].
  apply Hdead. rewrite Ha. reflexivity.
Qed.

Lemma stomp_kills_once_witness :
  in_contact 61 17 0 mario_stomping = true
  /\ is_stomp 0 mario_stomping = true
  /\ en_alive (enemy_at (contact_step 61 17 0 mario_stomping) 0) = 0.
Proof.
  assert (H1 : in_contact 61 17 0 mario_stomping = true)
    by (vm_compute; reflexivity).
  assert (H2 : is_stomp 0 mario_stomping = true) by (vm_compute; reflexivity).
  split; [ exact H1 | ]. split; [ exact H2 | ].
  exact (proj1 (proj2 (stomp_kills_once mario_stomping 61 17 0 H1 H2))).
Defined.

(** The jump branch of the [switch]. *)
Lemma move_key_jump ch w :
  jump_key ch = true ->
  move_key ch w
  = if CInt.truthy (pl_on_ground (player w))
    then upd (set_on_ground 0) (upd (set_vy JUMP_VELO) w)
    else w.
Proof.
  unfold jump_key, move_key. intros H.
  unfold Key.pressed, Key.chr, Key.KEY_LEFT, Key.KEY_RIGHT, Key.KEY_UP in *.
  cbn in H |- *.
  repeat match goal with
         | |- context [Z.eqb ch ?b] =>
             destruct (Z.eqb_spec ch b); [ subst; cbn in H |- * | ]
         end;
    try reflexivity; try discriminate H.
Qed.

(** X8.  A jump key acts only on a player that stands on the ground: it
    sets the velocity to [JUMP_VELO] and clears [on_ground], and in the
    air it does nothing.  So jump keys read one after the other in the
    same input phase give one jump: the second is dropped. *)
Theorem jump_only_from_ground (ch : Z) (w : World) (rest : list Z) :
  Patrol.jump_key ch = true ->
  (CInt.truthy (pl_on_ground (player w)) = false -> move_key ch w = w)
  /\ (CInt.truthy (pl_on_ground (player w)) = true ->
      pl_vy (player (move_key ch w)) = JUMP_VELO
      /\ pl_on_ground (player (move_key ch w)) = 0
      /\ pl_x (player (move_key ch w)) = pl_x (player w)
      /\ pl_y (player (move_key ch w)) = pl_y (player w))
  /\ move_key ch (move_key ch w) = move_key ch w
  /\ handle_input (ch :: ch :: rest) w = handle_input (ch :: rest) w.
Proof.
  intros Hj.
  assert (Hnq : Key.pause_key ch = false /\ Key.quit_key ch = false).
  { unfold jump_key, Key.pause_key, Key.quit_key, Key.pressed, Key.chr,
           Key.KEY_UP in *.
    cbn in Hj |- *.
    repeat match goal with
           | |- context [Z.eqb ch ?b] =>
               destruct (Z.eqb_spec ch b); [ subst; cbn in Hj |- * | ]
           end;
      split; try reflexivity; discriminate Hj. }
  destruct Hnq as [Hp Hq].
  assert (Hidem : move_key ch (move_key ch w) = move_key ch w).
  { rewrite !(move_key_jump ch _ Hj).
    destruct (CInt.truthy (pl_on_ground (player w))) eqn:Eg; [ | rewrite Eg ];
      reflexivity. }
  split; [ intros Hair; rewrite (move_key_jump ch w Hj), Hair; reflexivity | ].
  split.
  { intros Hg. rewrite (move_key_jump ch w Hj), Hg. repeat split. }
  split; [ exact Hidem | ].
  cbn [handle_input]. unfold handle_key. rewrite Hp, Hq.
  destruct (CInt.truthy (paused w) || CInt.truthy (win w)) eqn:Eg.
  - rewrite Eg. reflexivity.
  - assert (Eg' : CInt.truthy (paused (move_key ch w))
                  || CInt.truthy (win (move_key ch w)) = false).
    { rewrite (move_key_jump ch w Hj).
      destruct (CInt.truthy (pl_on_ground (player w))); exact Eg. }
    rewrite Eg', Hidem. reflexivity.
Qed.

Lemma jump_only_from_ground_witness :
  jump_key (Key.chr " ") = true
  /\ pl_vy (player (fst (handle_input [Key.chr " "; Key.chr " "] mario_grounded)))
     = JUMP_VELO.
Proof.
  assert (Hj : jump_key (Key.chr " ") = true) by reflexivity.
  split; [ exact Hj | ].
  destruct (jump_only_from_ground (Key.chr " ") mario_grounded [] Hj)
    as (_ & _ & _ & E).
  rewrite E. vm_compute. reflexivity.
Defined.

(** No branch of the [switch] writes a flag of the game. *)
Lemma move_key_flags ch w :
  game_over (move_key ch w) = game_over w
  /\ paused (move_key ch w) = paused w
  /\ win (move_key ch w) = win w.
Proof.
  unfold move_key.
  repeat match goal with
         | |- context [if ?b then _ else _] => destruct b
         end; repeat split.
Qed.

Lemma handle_key_no_quit ch w :
  Key.quit_key ch = false ->
  snd (handle_key ch w) = true
  /\ game_over (fst (handle_key ch w)) = game_over w.
Proof.
  intros Hq. unfold handle_key. rewrite Hq.
  destruct (Key.pause_key ch); [ split; reflexivity | ].
  destruct (CInt.truthy (paused w) || CInt.truthy (win w)); [ split; reflexivity | ].
  split; [ reflexivity | apply move_key_flags ].
Qed.

Lemma handle_input_no_quit ks : forall w,
  forallb (fun ch => negb (Key.quit_key ch)) ks = true ->
  snd (handle_input ks w) = []
  /\ game_over (fst (handle_input ks w)) = game_over w.
Proof.
  induction ks as [ | ch ks IH]; intros w H; [ split; reflexivity | ].
  cbn [forallb] in H. apply andb_true_iff in H. destruct H as [Hq Hks].
  apply negb_true_iff in Hq.
  destruct (handle_key_no_quit ch w Hq) as [Hgo Hsame].
  cbn [handle_input]. destruct (handle_key ch w) as [w1 go_on].
  cbn [fst snd] in Hgo, Hsame. subst go_on.
  destruct (IH w1 Hks) as [Hrest Hover].
  split; [ exact Hrest | congruence ].
Qed.

Lemma handle_input_app ks : forall w more,
  forallb (fun ch => negb (Key.quit_key ch)) ks = true ->
  handle_input (ks ++ more) w = handle_input more (fst (handle_input ks w)).
Proof.
  induction ks as [ | ch ks IH]; intros w more H; [ reflexivity | ].
  cbn [forallb] in H. apply andb_true_iff in H. destruct H as [Hq Hks].
  apply negb_true_iff in Hq.
  destruct (handle_key_no_quit ch w Hq) as [Hgo _].
  cbn [handle_input app]. destruct (handle_key ch w) as [w1 go_on].
  cbn [snd] in Hgo. subst go_on. apply IH, Hks.
Qed.

(** X9.  [handle_input] reads the whole queue unless it meets a quit
    key: without one the queue comes out empty and [game_over] is as it
    was.  A quit key sets [game_over] and returns at once, the keys
    behind it left unread in the queue. *)
Theorem quit_ends_input (ks rest : list Z) (q : Z) (w : World) :
  forallb (fun ch => negb (Key.quit_key ch)) ks = true ->
  Key.quit_key q = true ->
  snd (handle_input ks w) = []
  /\ game_over (fst (handle_input ks w)) = game_over w
  /\ handle_input (ks ++ q :: rest) w
     = (set_game_over 1 (fst (handle_input ks w)), rest).
Proof.
  intros Hks Hq.
  destruct (handle_input_no_quit ks w Hks) as [Hrest Hover].
  split; [ exact Hrest | ]. split; [ exact Hover | ].
  rewrite (handle_input_app ks w (q :: rest) Hks).
  cbn [handle_input]. unfold handle_key. rewrite Hq.
  assert (Hp : Key.pause_key q = false).
  { unfold Key.quit_key, Key.pause_key, Key.pressed, Key.chr in *.
    cbn in Hq |- *.
    repeat match goal with
           | |- context [Z.eqb q ?b] =>
               destruct (Z.eqb_spec q b); [ subst; cbn in Hq |- * | ]
           end; try reflexivity; discriminate Hq. }
  rewrite Hp. reflexivity.
Qed.

Lemma quit_ends_input_witness :
  forallb (fun ch => negb (Key.quit_key ch)) [Key.KEY_RIGHT; Key.chr "p"] = true
  /\ Key.quit_key (Key.chr "q") = true
  /\ snd (handle_input ([Key.KEY_RIGHT; Key.chr "p"]
                          ++ Key.chr "q" :: [Key.KEY_LEFT]) mario_grounded)
     = [Key.KEY_LEFT].
Proof.
  assert (H1 : forallb (fun ch => negb (Key.quit_key ch))
                       [Key.KEY_RIGHT; Key.chr "p"] = true) by reflexivity.
  assert (H2 : Key.quit_key (Key.chr "q") = true) by reflexivity.
  split; [ exact H1 | ]. split; [ exact H2 | ].
  destruct (quit_ends_input [Key.KEY_RIGHT; Key.chr "p"] [Key.KEY_LEFT]
              (Key.chr "q") mario_grounded H1 H2) as (_ & _ & E).
  rewrite E. reflexivity.
Defined.

(** X10.  The upward half of the vertical motion: with the velocity
    still negative once gravity is added, a solid tile at the projected
    head row stops the player just below it, at [(float)head_tile +
    1.0f] with velocity 0 and [on_ground] as it was; with no solid tile
    there the player rises to the projected y in the air.  Either way
    the move writes neither x, lives, score nor the map. *)
Theorem head_bump_stops_rise (w : World) :
  geb (vy_after_gravity w) zero = false ->
  (tile_collide w (left_tile w) (head_tile w)
   || tile_collide w (right_tile w) (head_tile w) = true ->
   pl_y (player (move_vertical w)) = add (of_int (head_tile w)) one
   /\ pl_vy (player (move_vertical w)) = zero
   /\ pl_on_ground (player (move_vertical w)) = pl_on_ground (player w))
  /\ (tile_collide w (left_tile w) (head_tile w)
      || tile_collide w (right_tile w) (head_tile w) = false ->
      pl_y (player (move_vertical w)) = projected_y w
      /\ pl_vy (player (move_vertical w)) = vy_after_gravity w
      /\ pl_on_ground (player (move_vertical w)) = 0)
  /\ pl_x (player (move_vertical w)) = pl_x (player w)
  /\ pl_lives (player (move_vertical w)) = pl_lives (player w)
  /\ pl_score (player (move_vertical w)) = pl_score (player w)
  /\ same_map w (move_vertical w).
Proof.
  intros Hup.
  assert (E : move_vertical w
              = if tile_collide w (left_tile w) (head_tile w)
                   || tile_collide w (right_tile w) (head_tile w)
                then upd (set_y (add (of_int (head_tile w)) one))
                       (upd (set_vy zero) (upd (set_vy (vy_after_gravity w)) w))
                else upd (set_on_ground 0)
                       (upd (set_y (projected_y w))
                          (upd (set_vy (vy_after_gravity w)) w))).
  { unfold move_vertical.
    change (pl_vy (player (upd (set_vy (vy_after_gravity w)) w)))
      with (vy_after_gravity w).
    rewrite Hup, !MarioFacts.tile_collide_upd. reflexivity. }
  rewrite E.
  destruct (tile_collide w (left_tile w) (head_tile w)
            || tile_collide w (right_tile w) (head_tile w)).
  - split; [ intros _; repeat split | ].
    split; [ intros H; discriminate H | repeat split ].
  - split; [ intros H; discriminate H | ].
    split; [ intros _; repeat split | repeat split ].
Qed.

Lemma head_bump_stops_rise_witness :
  geb (vy_after_gravity mario_rising) zero = false
  /\ pl_x (player (move_vertical mario_rising)) = pl_x (player mario_rising).
Proof.
  assert (H : geb (vy_after_gravity mario_rising) zero = false)
    by (vm_compute; reflexivity).
  split; [ exact H | ].
  exact (proj1 (proj2 (proj2 (head_bump_stops_rise mario_rising H)))).
Defined.

(** X11.  The camera [draw] computes never leaves the map: on a map
    wider than the terminal it is a column between 0 and [map_w -
    term_w], so that the [term_w] columns it shows are columns of the
    map, wherever the player is; on a map that fits the terminal it
    is 0. *)
Theorem camera_stays_on_map (term_w : Z) (w : World) :
  0 <= term_w <= CInt.INT_MAX ->
  0 <= map_w w <= CInt.INT_MAX ->
  (map_w w <= term_w -> cam_x (draw term_w w) = 0)
  /\ (term_w < map_w w -> 0 <= cam_x (draw term_w w) <= map_w w - term_w).
Proof.
  intros Ht Hm. unfold draw. cbn [cam_x set_cam_x]. unfold camera.
  rewrite (CIntFacts.sub_exact (map_w w) term_w)
    by (unfold CInt.in_range, CInt.INT_MIN, CInt.INT_MAX in *; lia).
  set (t0 := CInt.sub (int_trunc (pl_x (player w))) (Z.quot term_w 3)).
  split; intros H.
  - apply Z.leb_le in H. rewrite H. reflexivity.
  - replace (map_w w <=? term_w) with false by (symmetry; apply Z.leb_gt; lia).
    destruct (t0 <? 0) eqn:E0;
      [ | apply Z.ltb_ge in E0 ];
      match goal with
      | |- context [?a <? ?b] => destruct (Z.ltb_spec a b)
      end; lia.
Qed.

Lemma camera_stays_on_map_witness :
  0 <= 40 <= CInt.INT_MAX
  /\ 0 <= map_w mario_beside_enemy <= CInt.INT_MAX
  /\ (40 < map_w mario_beside_enemy ->
      0 <= cam_x (draw 40 mario_beside_enemy) <= map_w mario_beside_enemy - 40).
Proof.
  assert (H1 : 0 <= 40 <= CInt.INT_MAX)
    by (vm_compute; split; intro H; discriminate H).
  assert (H2 : 0 <= map_w mario_beside_enemy <= CInt.INT_MAX)
    by (vm_compute; split; intro H; discriminate H).
  split; [ exact H1 | ]. split; [ exact H2 | ].
  exact (proj2 (camera_stays_on_map 40 mario_beside_enemy H1 H2)).
Defined.

End MarioMoreFacts.

(** ** The ship, the spawns and the difficulty of the shooters *)

Module ShooterMoreFacts.

Import Shooter Deck ShootingMenu Scenario Scenario2.

Ltac int_range := unfold CInt.in_range, CInt.INT_MIN, CInt.INT_MAX in *; lia.





(** [rand() % m] for a positive [m]. *)
Lemma rand_rem_bounds l m :
  0 < m -> 0 <= CInt.rem (fst (Libc.rand l)) m < m.
Proof.
  intros Hm. pose proof (CIntFacts.rand_bounds l) as Hr.
  unfold CInt.rem. apply Z.rem_bound_pos; lia.
Qed.

(** X13.  [spawn_enemy] in both shooters, on a terminal wide enough for
    the remainder to have a positive divisor and with the allocation
    succeeding: exactly one enemy is linked at the head of the list, on
    row 3, with counter 0 and the current enemy speed, in a column
    inside the border (2 .. max_x - 3 in shooting_game.c, 3 .. max_x - 4
    in ascii_shooter.c); the bullets are not touched.  On a terminal of
    exactly 4 (respectively 6) columns the divisor is 0 and the call
    faults. *)
Theorem spawn_is_inside_border (w1 : ShootingGame.World) (w2 : AsciiShooter.World) :
  fst (Libc.malloc (ShootingGame.libc w1)) = true ->
  fst (Libc.malloc (AsciiShooter.libc w2)) = true ->
  (4 < ShootingGame.max_x w1 <= CInt.INT_MAX ->
   exists x w',
     ShootingGame.spawn_enemy w1 = Done w'
     /\ ShootingGame.enemies w'
        = mkEnemy x 3 0 (ShootingGame.enemy_speed w1) :: ShootingGame.enemies w1
     /\ 2 <= x <= ShootingGame.max_x w1 - 3
     /\ ShootingGame.bullets w' = ShootingGame.bullets w1)
  /\ (ShootingGame.max_x w1 = 4 -> ShootingGame.spawn_enemy w1 = Fault)
  /\ (6 < AsciiShooter.max_x w2 <= CInt.INT_MAX ->
      exists x w',
        AsciiShooter.spawn_enemy w2 = Done w'
        /\ AsciiShooter.enemies w'
           = mkEnemy x 3 0 (AsciiShooter.enemy_speed w2) :: AsciiShooter.enemies w2
        /\ 3 <= x <= AsciiShooter.max_x w2 - 4
        /\ AsciiShooter.bullets w' = AsciiShooter.bullets w2)
  /\ (AsciiShooter.max_x w2 = 6 -> AsciiShooter.spawn_enemy w2 = Fault).
Proof.
  intros Hm1 Hm2. split; [ | split; [ | split ] ].
  - intros Hx. unfold ShootingGame.spawn_enemy.
    pose proof (rand_rem_bounds (ShootingGame.libc w1)
                  (ShootingGame.max_x w1 - 4) ltac:(lia)) as Hr.
    destruct (Libc.rand (ShootingGame.libc w1)) as [rv l'] eqn:Er.
    cbn [fst] in Hr.
    rewrite CIntFacts.sub_exact by int_range.
    replace (ShootingGame.max_x w1 - 4 =? 0) with false
      by (symmetry; apply Z.eqb_neq; lia).
    unfold ShootingGame.add_enemy.
    assert (El : fst (Libc.malloc (ShootingGame.libc (ShootingGame.set_libc l' w1)))
                 = true).
    { unfold Libc.rand in Er. injection Er as _ <-. exact Hm1. }
    destruct (Libc.malloc (ShootingGame.libc (ShootingGame.set_libc l' w1)))
      as [ok l''].
    cbn [fst] in El. subst ok.
    eexists. eexists. split; [ reflexivity | ].
    cbn. split; [ reflexivity | ].
    rewrite CIntFacts.add_exact by int_range.
    split; [ lia | reflexivity ].
  - intros E4. unfold ShootingGame.spawn_enemy.
    destruct (Libc.rand (ShootingGame.libc w1)) as [rv l'].
    rewrite E4. reflexivity.
  - intros Hx. unfold AsciiShooter.spawn_enemy.
    pose proof (rand_rem_bounds (AsciiShooter.libc w2)
                  (AsciiShooter.max_x w2 - 6) ltac:(lia)) as Hr.
    destruct (Libc.rand (AsciiShooter.libc w2)) as [rv l'] eqn:Er.
    cbn [fst] in Hr.
    change (2 * 2) with 4.
    rewrite (CIntFacts.sub_exact (AsciiShooter.max_x w2) 4) by int_range.
    rewrite (CIntFacts.sub_exact (AsciiShooter.max_x w2 - 4) 2) by int_range.
    replace (AsciiShooter.max_x w2 - 4 - 2) with (AsciiShooter.max_x w2 - 6) by lia.
    replace (AsciiShooter.max_x w2 - 6 =? 0) with false
      by (symmetry; apply Z.eqb_neq; lia).
    unfold AsciiShooter.add_enemy.
    assert (El : fst (Libc.malloc (AsciiShooter.libc (AsciiShooter.set_libc l' w2)))
                 = true).
    { unfold Libc.rand in Er. injection Er as _ <-. exact Hm2. }
    destruct (Libc.malloc (AsciiShooter.libc (AsciiShooter.set_libc l' w2)))
      as [ok l''].
    cbn [fst] in El. subst ok.
    eexists. eexists. split; [ reflexivity | ].
    cbn. split; [ reflexivity | ].
    rewrite (CIntFacts.add_exact (CInt.rem rv (AsciiShooter.max_x w2 - 6)) 2)
      by int_range.
    rewrite CIntFacts.add_exact by int_range.
    split; [ lia | reflexivity ].
  - intros E6. unfold AsciiShooter.spawn_enemy.
    destruct (Libc.rand (AsciiShooter.libc w2)) as [rv l'].
    rewrite E6. reflexivity.
Qed.

Lemma spawn_is_inside_border_witness :
  fst (Libc.malloc (ShootingGame.libc sg_paused)) = true
  /\ fst (Libc.malloc (AsciiShooter.libc (as_start (Libc.scripted [7] [])))) = true
  /\ exists x w',
       AsciiShooter.spawn_enemy (as_start (Libc.scripted [7] [])) = Done w'
       /\ AsciiShooter.enemies w'
          = mkEnemy x 3 0 (AsciiShooter.enemy_speed (as_start (Libc.scripted [7] [])))
            :: AsciiShooter.enemies (as_start (Libc.scripted [7] []))
       /\ 3 <= x <= AsciiShooter.max_x (as_start (Libc.scripted [7] [])) - 4
       /\ AsciiShooter.bullets w'
          = AsciiShooter.bullets (as_start (Libc.scripted [7] [])).
Proof.
  assert (H1 : fst (Libc.malloc (ShootingGame.libc sg_paused)) = true)
    by reflexivity.
  assert (H2 : fst (Libc.malloc (AsciiShooter.libc (as_start (Libc.scripted [7] []))))
               = true) by reflexivity.
  split; [ exact H1 | ]. split; [ exact H2 | ].
  apply (proj1 (proj2 (proj2
           (spawn_is_inside_border sg_paused (as_start (Libc.scripted [7] []))
              H1 H2)))).
  vm_compute. split; [ reflexivity | intro H; discriminate H ].
Defined.

(** *** Enemies reaching the ship *)

(** What the loop of [update_enemies] of ascii_shooter.c does from a
    list [es] on. *)
Lemma as_update_enemies_from es : forall w,
  CInt.INT_MIN + Z.of_nat (List.length es) <= p_lives (AsciiShooter.player w)
                                           <= CInt.INT_MAX ->
  let kept := fst (AsciiShooter.update_enemies_from es w) in
  let w' := snd (AsciiShooter.update_enemies_from es w) in
  kept = filter (above_ship (AsciiShooter.max_y w)) (map descend es)
  /\ AsciiShooter.max_y w' = AsciiShooter.max_y w
  /\ p_lives (AsciiShooter.player w')
     = p_lives (AsciiShooter.player w)
       - (Z.of_nat (List.length es) - Z.of_nat (List.length kept))
  /\ p_score (AsciiShooter.player w') = p_score (AsciiShooter.player w)
  /\ (exists fired,
        AsciiShooter.bullets w' = fired ++ AsciiShooter.bullets w
        /\ Forall (fun b => b_dy b = 1) fired
        /\ (List.length fired <= List.length es)%nat)
  /\ (AsciiShooter.game_over w = 1 -> AsciiShooter.game_over w' = 1)
  /\ ((List.length kept < List.length es)%nat ->
      p_lives (AsciiShooter.player w') <= 0 -> AsciiShooter.game_over w' = 1).
Proof.
  induction es as [ | e rest IH]; intros w Hl; cbn zeta.
  - cbn. do 2 (split; [ reflexivity | ]). split; [ lia | ].
    split; [ reflexivity | ]. split; [ | split; [ tauto | lia ] ].
    exists []. split; [ reflexivity | ].
    split; [ apply Forall_nil | cbn; lia ].
  - cbn [AsciiShooter.update_enemies_from].
    destruct (Libc.rand (AsciiShooter.libc w)) as [rv l'].
    set (w1 := AsciiShooter.set_libc l' w).
    set (w2 := if CInt.rem rv 200 =? 0
               then AsciiShooter.add_bullet (e_x (descend e))
                      (CInt.add (e_y (descend e)) 1) 1 w1
               else w1).
    assert (Hw2 : AsciiShooter.max_y w2 = AsciiShooter.max_y w
                  /\ AsciiShooter.player w2 = AsciiShooter.player w
                  /\ AsciiShooter.game_over w2 = AsciiShooter.game_over w
                  /\ exists fired,
                       AsciiShooter.bullets w2 = fired ++ AsciiShooter.bullets w
                       /\ Forall (fun b => b_dy b = 1) fired
                       /\ (List.length fired <= 1)%nat).
    { subst w2 w1. destruct (CInt.rem rv 200 =? 0).
      - unfold AsciiShooter.add_bullet.
        destruct (Libc.malloc _) as [ok l'']. destruct ok; cbn.
        + do 3 (split; [ reflexivity | ]).
          exists [mkBullet (e_x (descend e)) (CInt.add (e_y (descend e)) 1) 1].
          split; [ reflexivity | ].
          split; [ | cbn; lia ].
          apply Forall_cons; [ reflexivity | apply Forall_nil ].
        + do 3 (split; [ reflexivity | ]). exists []. split; [ reflexivity | ].
          split; [ apply Forall_nil | cbn; lia ].
      - cbn. do 3 (split; [ reflexivity | ]). exists []. split; [ reflexivity | ].
        split; [ apply Forall_nil | cbn; lia ]. }
    destruct Hw2 as (Emy & Epl & Ego & fired & Ebul & Hfired & Hlen).
    cbn [List.length] in Hl. cbn [map filter].
    unfold above_ship at 1. rewrite Emy.
    destruct (CInt.sub (AsciiShooter.max_y w) 3 <=? e_y (descend e)) eqn:Ereach;
      cbn [negb].
    + set (w3 := AsciiShooter.set_player
                   (AsciiShooter.set_lives
                      (CInt.sub (p_lives (AsciiShooter.player w2)) 1)
                      (AsciiShooter.player w2)) w2).
      set (w4 := if p_lives (AsciiShooter.player w3) <=? 0
                 then AsciiShooter.set_game_over 1 w3 else w3).
      assert (El3 : p_lives (AsciiShooter.player w3)
                    = p_lives (AsciiShooter.player w) - 1).
      { subst w3. cbn. rewrite Epl. apply CIntFacts.sub_exact. int_range. }
      assert (Hw4 : AsciiShooter.max_y w4 = AsciiShooter.max_y w
                    /\ p_lives (AsciiShooter.player w4)
                       = p_lives (AsciiShooter.player w) - 1
                    /\ p_score (AsciiShooter.player w4)
                       = p_score (AsciiShooter.player w)
                    /\ AsciiShooter.bullets w4 = AsciiShooter.bullets w2
                    /\ (AsciiShooter.game_over w = 1 -> AsciiShooter.game_over w4 = 1)
                    /\ (p_lives (AsciiShooter.player w) - 1 <= 0 ->
                        AsciiShooter.game_over w4 = 1)).
      { subst w4. rewrite El3.
        destruct (p_lives (AsciiShooter.player w) - 1 <=? 0) eqn:E0.
        - cbn. subst w3. cbn. rewrite Epl, Emy.
          repeat split; try reflexivity.
          apply CIntFacts.sub_exact. int_range.
        - apply Z.leb_gt in E0. subst w3. cbn. rewrite Epl, Emy, Ego.
          repeat split; try reflexivity; try tauto; try lia.
          apply CIntFacts.sub_exact. int_range. }
      destruct Hw4 as (Emy4 & El4 & Es4 & Eb4 & Hgo4 & Hz4).
      specialize (IH w4 ltac:(rewrite El4; int_range)). cbn zeta in IH.
      destruct (AsciiShooter.update_enemies_from rest w4) as [kept w'].
      cbn [fst snd] in IH |- *.
      destruct IH as (Ek & Emy' & El' & Es' & (fired' & Eb' & Hf' & Hlen') & Hgo' & Hz').
      rewrite Emy4 in Ek.
      split; [ exact Ek | ]. split; [ congruence | ].
      split; [ rewrite El', El4; cbn [List.length]; lia | ]. split; [ congruence | ].
      split.
      { exists (fired' ++ fired). rewrite Eb', Eb4, Ebul, app_assoc.
        split; [ reflexivity | ].
        split; [ apply Forall_app; split; assumption | ].
        rewrite length_app. cbn [List.length]. lia. }
      split; [ intros Hg; apply Hgo', Hgo4, Hg | ].
      intros _ Hdead.
      destruct (Nat.lt_ge_cases (List.length kept) (List.length rest)) as [Hlt | Hge].
      * apply Hz'; assumption.
      * apply Hgo', Hz4.
        assert (Hk : (List.length kept <= List.length rest)%nat).
        { rewrite Ek. rewrite <- (length_map descend rest). apply filter_length_le. }
        lia.
    + specialize (IH w2 ltac:(rewrite Epl; int_range)). cbn zeta in IH.
      destruct (AsciiShooter.update_enemies_from rest w2) as [kept w'].
      cbn [fst snd] in IH |- *.
      destruct IH as (Ek & Emy' & El' & Es' & (fired' & Eb' & Hf' & Hlen') & Hgo' & Hz').
      rewrite Emy in Ek.
      split; [ rewrite Ek; reflexivity | ]. split; [ congruence | ].
      split; [ rewrite El', Epl; cbn [List.length]; lia | ].
      split; [ congruence | ].
      split.
      { exists (fired' ++ fired). rewrite Eb', Ebul, app_assoc.
        split; [ reflexivity | ].
        split; [ apply Forall_app; split; assumption | ].
        rewrite length_app. cbn [List.length]. lia. }
      split; [ intros Hg; apply Hgo'; congruence | ].
      cbn [List.length]. intros Hlt Hdead. apply Hz'; [ lia | exact Hdead ].
Qed.

(** The same loop in shooting_game.c, when it completes: it faults on
    a failed allocation of a bullet and on a fire chance of 0. *)
Lemma sg_update_enemies_from es : forall w kept w',
  CInt.INT_MIN + Z.of_nat (List.length es) <= p_lives (ShootingGame.player w)
                                           <= CInt.INT_MAX ->
  ShootingGame.update_enemies_from es w = Done (kept, w') ->
  kept = filter (above_ship (ShootingGame.max_y w)) (map descend es)
  /\ ShootingGame.max_y w' = ShootingGame.max_y w
  /\ p_lives (ShootingGame.player w')
     = p_lives (ShootingGame.player w)
       - (Z.of_nat (List.length es) - Z.of_nat (List.length kept))
  /\ p_score (ShootingGame.player w') = p_score (ShootingGame.player w)
  /\ (exists fired,
        ShootingGame.bullets w' = fired ++ ShootingGame.bullets w
        /\ Forall (fun b => b_dy b = 1) fired
        /\ (List.length fired <= List.length es)%nat)
  /\ (ShootingGame.game_over w = 1 -> ShootingGame.game_over w' = 1)
  /\ ((List.length kept < List.length es)%nat ->
      p_lives (ShootingGame.player w') <= 0 -> ShootingGame.game_over w' = 1).
Proof.
  induction es as [ | e rest IH]; intros w kept w' Hl Hrun.
  - cbn in Hrun. injection Hrun as <- <-.
    cbn. do 2 (split; [ reflexivity | ]). split; [ lia | ].
    split; [ reflexivity | ]. split; [ | split; [ tauto | lia ] ].
    exists []. split; [ reflexivity | ].
    split; [ apply Forall_nil | cbn; lia ].
  - cbn [ShootingGame.update_enemies_from] in Hrun.
    destruct (Libc.rand (ShootingGame.libc w)) as [rv l'].
    set (w1 := ShootingGame.set_libc l' w) in *.
    destruct (ShootingGame.enemy_fire_chance w =? 0); [ discriminate Hrun | ].
    destruct (if CInt.rem rv (ShootingGame.enemy_fire_chance w) =? 0
              then ShootingGame.add_bullet (e_x (descend e))
                     (CInt.add (e_y (descend e)) 1) 1 w1
              else Done w1) as [w2 | | ] eqn:Efire; try discriminate Hrun.
    cbn [bind] in Hrun.
    assert (Hw2 : ShootingGame.max_y w2 = ShootingGame.max_y w
                  /\ ShootingGame.player w2 = ShootingGame.player w
                  /\ ShootingGame.game_over w2 = ShootingGame.game_over w
                  /\ exists fired,
                       ShootingGame.bullets w2 = fired ++ ShootingGame.bullets w
                       /\ Forall (fun b => b_dy b = 1) fired
                       /\ (List.length fired <= 1)%nat).
    { destruct (CInt.rem rv (ShootingGame.enemy_fire_chance w) =? 0).
      - unfold ShootingGame.add_bullet in Efire.
        destruct (Libc.malloc _) as [ok l'']. destruct ok; [ | discriminate Efire ].
        injection Efire as <-. cbn.
        do 3 (split; [ reflexivity | ]).
        exists [mkBullet (e_x (descend e)) (CInt.add (e_y (descend e)) 1) 1].
        split; [ reflexivity | ].
        split; [ | cbn; lia ].
        apply Forall_cons; [ reflexivity | apply Forall_nil ].
      - injection Efire as <-. cbn. do 3 (split; [ reflexivity | ]).
        exists []. split; [ reflexivity | ].
        split; [ apply Forall_nil | cbn; lia ]. }
    destruct Hw2 as (Emy & Epl & Ego & fired & Ebul & Hfired & Hlen).
    cbn [List.length] in Hl. cbn [map filter].
    unfold above_ship at 1. rewrite Emy in Hrun.
    destruct (CInt.sub (ShootingGame.max_y w) 3 <=? e_y (descend e)) eqn:Ereach;
      cbn [negb].
    + set (w3 := ShootingGame.set_player
                   (ShootingGame.set_lives
                      (CInt.sub (p_lives (ShootingGame.player w2)) 1)
                      (ShootingGame.player w2)) w2) in *.
      set (w4 := if p_lives (ShootingGame.player w3) <=? 0
                 then ShootingGame.set_game_over 1 w3 else w3) in *.
      assert (El3 : p_lives (ShootingGame.player w3)
                    = p_lives (ShootingGame.player w) - 1).
      { subst w3. cbn. rewrite Epl. apply CIntFacts.sub_exact. int_range. }
      assert (Hw4 : ShootingGame.max_y w4 = ShootingGame.max_y w
                    /\ p_lives (ShootingGame.player w4)
                       = p_lives (ShootingGame.player w) - 1
                    /\ p_score (ShootingGame.player w4)
                       = p_score (ShootingGame.player w)
                    /\ ShootingGame.bullets w4 = ShootingGame.bullets w2
                    /\ (ShootingGame.game_over w = 1 -> ShootingGame.game_over w4 = 1)
                    /\ (p_lives (ShootingGame.player w) - 1 <= 0 ->
                        ShootingGame.game_over w4 = 1)).
      { subst w4. rewrite El3.
        destruct (p_lives (ShootingGame.player w) - 1 <=? 0) eqn:E0.
        - cbn. subst w3. cbn. rewrite Epl, Emy.
          repeat split; try reflexivity.
          apply CIntFacts.sub_exact. int_range.
        - apply Z.leb_gt in E0. subst w3. cbn. rewrite Epl, Emy, Ego.
          repeat split; try reflexivity; try tauto; try lia.
          apply CIntFacts.sub_exact. int_range. }
      destruct Hw4 as (Emy4 & El4 & Es4 & Eb4 & Hgo4 & Hz4).
      destruct (IH w4 kept w' ltac:(rewrite El4; int_range) Hrun)
        as (Ek & Emy' & El' & Es' & (fired' & Eb' & Hf' & Hlen') & Hgo' & Hz').
      rewrite Emy4 in Ek.
      split; [ exact Ek | ]. split; [ congruence | ].
      split; [ rewrite El', El4; cbn [List.length]; lia | ]. split; [ congruence | ].
      split.
      { exists (fired' ++ fired). rewrite Eb', Eb4, Ebul, app_assoc.
        split; [ reflexivity | ].
        split; [ apply Forall_app; split; assumption | ].
        rewrite length_app. cbn [List.length]. lia. }
      split; [ intros Hg; apply Hgo', Hgo4, Hg | ].
      intros _ Hdead.
      destruct (Nat.lt_ge_cases (List.length kept) (List.length rest)) as [Hlt | Hge].
      * apply Hz'; assumption.
      * apply Hgo', Hz4.
        assert (Hk : (List.length kept <= List.length rest)%nat).
        { rewrite Ek. rewrite <- (length_map descend rest). apply filter_length_le. }
        lia.
    + destruct (ShootingGame.update_enemies_from rest w2) as [[kept0 w0] | | ] eqn:Erest;
        try discriminate Hrun.
      cbn [bind fst snd] in Hrun. injection Hrun as <- <-.
      destruct (IH w2 kept0 w0 ltac:(rewrite Epl; int_range) Erest)
        as (Ek & Emy' & El' & Es' & (fired' & Eb' & Hf' & Hlen') & Hgo' & Hz').
      rewrite Emy in Ek.
      split; [ rewrite Ek; reflexivity | ]. split; [ congruence | ].
      split; [ rewrite El', Epl; cbn [List.length]; lia | ].
      split; [ congruence | ].
      split.
      { exists (fired' ++ fired). rewrite Eb', Ebul, app_assoc.
        split; [ reflexivity | ].
        split; [ apply Forall_app; split; assumption | ].
        rewrite length_app. cbn [List.length]. lia. }
      split; [ intros Hg; apply Hgo'; congruence | ].
      cbn [List.length]. intros Hlt Hdead. apply Hz'; [ lia | exact Hdead ].
Qed.

Lemma above_ship_bound max_y e :
  CInt.INT_MIN + 3 <= max_y <= CInt.INT_MAX ->
  above_ship max_y e = true -> e_y e < max_y - 3.
Proof.
  intros Hm. unfold above_ship.
  rewrite CIntFacts.sub_exact by int_range.
  intros H. apply negb_true_iff, Z.leb_gt in H. exact H.
Qed.

(** X14.  [update_enemies] in both shooters (in shooting_game.c when
    the call completes): every enemy counts its tick and steps down when
    due; those that then are on the row of the ship or below are
    unlinked, each for exactly one life, and the others stay in their
    order, all above the row of the ship.  The score is not touched, the
    bullets of the call are enemy bullets put in front of the list, at
    most one per enemy, and [game_over] is set when an enemy was
    unlinked and no life is left. *)
Theorem enemies_stop_at_ship_row
    (w1 w1' : ShootingGame.World) (w2 : AsciiShooter.World) :
  CInt.INT_MIN + Z.of_nat (List.length (ShootingGame.enemies w1))
    <= p_lives (ShootingGame.player w1) <= CInt.INT_MAX ->
  CInt.INT_MIN + 3 <= ShootingGame.max_y w1 <= CInt.INT_MAX ->
  CInt.INT_MIN + Z.of_nat (List.length (AsciiShooter.enemies w2))
    <= p_lives (AsciiShooter.player w2) <= CInt.INT_MAX ->
  CInt.INT_MIN + 3 <= AsciiShooter.max_y w2 <= CInt.INT_MAX ->
  (ShootingGame.update_enemies w1 = Done w1' ->
   ShootingGame.enemies w1'
   = filter (above_ship (ShootingGame.max_y w1))
            (map descend (ShootingGame.enemies w1))
   /\ (forall e, In e (ShootingGame.enemies w1') ->
                 e_y e < ShootingGame.max_y w1 - 3)
   /\ p_lives (ShootingGame.player w1')
      = p_lives (ShootingGame.player w1)
        - (Z.of_nat (List.length (ShootingGame.enemies w1))
           - Z.of_nat (List.length (ShootingGame.enemies w1')))
   /\ p_score (ShootingGame.player w1') = p_score (ShootingGame.player w1)
   /\ (exists fired,
         ShootingGame.bullets w1' = fired ++ ShootingGame.bullets w1
         /\ Forall (fun b => b_dy b = 1) fired
         /\ (List.length fired <= List.length (ShootingGame.enemies w1))%nat)
   /\ ((List.length (ShootingGame.enemies w1')
        < List.length (ShootingGame.enemies w1))%nat ->
       p_lives (ShootingGame.player w1') <= 0 ->
       ShootingGame.game_over w1' = 1))
  /\ (AsciiShooter.enemies (AsciiShooter.update_enemies w2)
      = filter (above_ship (AsciiShooter.max_y w2))
               (map descend (AsciiShooter.enemies w2))
      /\ (forall e, In e (AsciiShooter.enemies (AsciiShooter.update_enemies w2)) ->
                    e_y e < AsciiShooter.max_y w2 - 3)
      /\ p_lives (AsciiShooter.player (AsciiShooter.update_enemies w2))
         = p_lives (AsciiShooter.player w2)
           - (Z.of_nat (List.length (AsciiShooter.enemies w2))
              - Z.of_nat (List.length
                            (AsciiShooter.enemies (AsciiShooter.update_enemies w2))))
      /\ p_score (AsciiShooter.player (AsciiShooter.update_enemies w2))
         = p_score (AsciiShooter.player w2)
      /\ (exists fired,
            AsciiShooter.bullets (AsciiShooter.update_enemies w2)
            = fired ++ AsciiShooter.bullets w2
            /\ Forall (fun b => b_dy b = 1) fired
            /\ (List.length fired <= List.length (AsciiShooter.enemies w2))%nat)
      /\ ((List.length (AsciiShooter.enemies (AsciiShooter.update_enemies w2))
           < List.length (AsciiShooter.enemies w2))%nat ->
          p_lives (AsciiShooter.player (AsciiShooter.update_enemies w2)) <= 0 ->
          AsciiShooter.game_over (AsciiShooter.update_enemies w2) = 1)).
Proof.
  intros Hl1 Hm1 Hl2 Hm2. split.
  - intros Hrun. unfold ShootingGame.update_enemies in Hrun.
    destruct (ShootingGame.update_enemies_from (ShootingGame.enemies w1) w1)
      as [[kept v] | | ] eqn:E; try discriminate Hrun.
    cbn [bind fst snd] in Hrun. injection Hrun as <-.
    destruct (sg_update_enemies_from _ w1 kept v Hl1 E)
      as (Ek & Emy & El & Es & Hfired & _ & Hz).
    cbn [ShootingGame.enemies ShootingGame.set_enemies ShootingGame.player
         ShootingGame.set_player ShootingGame.bullets ShootingGame.game_over].
    split; [ exact Ek | ]. split.
    { intros e He. rewrite Ek in He. apply filter_In in He.
      apply (above_ship_bound _ e Hm1), He. }
    split; [ exact El | ]. split; [ exact Es | ]. split; [ exact Hfired | exact Hz ].
  - unfold AsciiShooter.update_enemies.
    pose proof (as_update_enemies_from (AsciiShooter.enemies w2) w2 Hl2) as H.
    cbn zeta in H.
    destruct (AsciiShooter.update_enemies_from (AsciiShooter.enemies w2) w2)
      as [kept v].
    cbn [fst snd] in H. destruct H as (Ek & Emy & El & Es & Hfired & _ & Hz).
    cbn [AsciiShooter.enemies AsciiShooter.set_enemies AsciiShooter.player
         AsciiShooter.set_player AsciiShooter.bullets AsciiShooter.game_over].
    split; [ exact Ek | ]. split.
    { intros e He. rewrite Ek in He. apply filter_In in He.
      apply (above_ship_bound _ e Hm2), He. }
    split; [ exact El | ]. split; [ exact Es | ]. split; [ exact Hfired | exact Hz ].
Qed.

Lemma enemies_stop_at_ship_row_witness :
  (CInt.INT_MIN + Z.of_nat (List.length (ShootingGame.enemies sg_raided))
     <= p_lives (ShootingGame.player sg_raided) <= CInt.INT_MAX)
  /\ (CInt.INT_MIN + 3 <= ShootingGame.max_y sg_raided <= CInt.INT_MAX)
  /\ (CInt.INT_MIN + Z.of_nat (List.length (AsciiShooter.enemies as_raided))
        <= p_lives (AsciiShooter.player as_raided) <= CInt.INT_MAX)
  /\ (CInt.INT_MIN + 3 <= AsciiShooter.max_y as_raided <= CInt.INT_MAX)
  /\ AsciiShooter.enemies (AsciiShooter.update_enemies as_raided)
     = filter (above_ship (AsciiShooter.max_y as_raided))
              (map descend (AsciiShooter.enemies as_raided))
  /\ p_lives (AsciiShooter.player (AsciiShooter.update_enemies as_raided)) = 2.
Proof.
  assert (H1 : CInt.INT_MIN + Z.of_nat (List.length (ShootingGame.enemies sg_raided))
               <= p_lives (ShootingGame.player sg_raided) <= CInt.INT_MAX)
    by (vm_compute; split; intro H; discriminate H).
  assert (H2 : CInt.INT_MIN + 3 <= ShootingGame.max_y sg_raided <= CInt.INT_MAX)
    by (vm_compute; split; intro H; discriminate H).
  assert (H3 : CInt.INT_MIN + Z.of_nat (List.length (AsciiShooter.enemies as_raided))
               <= p_lives (AsciiShooter.player as_raided) <= CInt.INT_MAX)
    by (vm_compute; split; intro H; discriminate H).
  assert (H4 : CInt.INT_MIN + 3 <= AsciiShooter.max_y as_raided <= CInt.INT_MAX)
    by (vm_compute; split; intro H; discriminate H).
  do 4 (split; [ assumption | ]).
  destruct (enemies_stop_at_ship_row sg_raided sg_raided as_raided H1 H2 H3 H4)
    as (_ & Ek & _ & El & _).
  split; [ exact Ek | ].
  rewrite El. vm_compute. reflexivity.
Defined.

(** *** Hits *)

Lemma sg_remove_first_hit_length b es es' :
  ShootingGame.remove_first_hit b es = Some es' ->
  List.length es = S (List.length es').
Proof.
  revert es'. induction es as [ | e rest IH]; intros es' H; cbn in H;
    [ discriminate | ].
  destruct (ShootingGame.hits e b); [ injection H as <-; reflexivity | ].
  destruct (ShootingGame.remove_first_hit b rest) as [r | ]; [ | discriminate ].
  injection H as <-. cbn. rewrite (IH r eq_refl). reflexivity.
Qed.

Lemma as_remove_first_hit_length b es es' :
  AsciiShooter.remove_first_hit b es = Some es' ->
  List.length es = S (List.length es').
Proof.
  revert es'. induction es as [ | e rest IH]; intros es' H; cbn in H;
    [ discriminate | ].
  destruct (AsciiShooter.hits e b); [ injection H as <-; reflexivity | ].
  destruct (AsciiShooter.remove_first_hit b rest) as [r | ]; [ | discriminate ].
  injection H as <-. cbn. rewrite (IH r eq_refl). reflexivity.
Qed.

(** Projections of the worlds of the shooters after their setters. *)
Ltac sg_proj :=
  cbn [ShootingGame.player ShootingGame.enemies ShootingGame.bullets
       ShootingGame.game_over ShootingGame.max_x ShootingGame.max_y
       ShootingGame.set_player ShootingGame.set_enemies ShootingGame.set_bullets
       ShootingGame.set_game_over ShootingGame.set_lives ShootingGame.set_score
       AsciiShooter.player AsciiShooter.enemies AsciiShooter.bullets
       AsciiShooter.game_over AsciiShooter.max_x AsciiShooter.max_y
       AsciiShooter.set_player AsciiShooter.set_enemies AsciiShooter.set_bullets
       AsciiShooter.set_game_over AsciiShooter.set_lives AsciiShooter.set_score
       p_x p_y p_lives p_score fst snd List.length] in *.

(** The bullet loop of [check_collisions] of shooting_game.c: [k]
    bullets hit an enemy and [m] hit the ship. *)
Lemma sg_collisions_from bs : forall w,
  CInt.INT_MIN <= p_score (ShootingGame.player w) ->
  p_score (ShootingGame.player w) + 10 * Z.of_nat (List.length bs) <= CInt.INT_MAX ->
  CInt.INT_MIN + Z.of_nat (List.length bs) <= p_lives (ShootingGame.player w)
                                           <= CInt.INT_MAX ->
  exists k m : nat,
    (List.length (ShootingGame.enemies (snd (ShootingGame.check_collisions_from bs w)))
     + k = List.length (ShootingGame.enemies w))%nat
    /\ (List.length (fst (ShootingGame.check_collisions_from bs w)) + k + m
        = List.length bs)%nat
    /\ p_score (ShootingGame.player (snd (ShootingGame.check_collisions_from bs w)))
       = p_score (ShootingGame.player w) + 10 * Z.of_nat k
    /\ p_lives (ShootingGame.player (snd (ShootingGame.check_collisions_from bs w)))
       = p_lives (ShootingGame.player w) - Z.of_nat m.
Proof.
  induction bs as [ | b rest IH]; intros w Hs0 Hs Hl.
  - exists O, O. sg_proj. cbn [ShootingGame.check_collisions_from]. sg_proj.
    repeat split; lia.
  - cbn [ShootingGame.check_collisions_from]. sg_proj.
    destruct (b_dy b <? 0).
    + destruct (ShootingGame.remove_first_hit b (ShootingGame.enemies w))
        as [es' | ] eqn:Ehit.
      * apply sg_remove_first_hit_length in Ehit.
        match goal with
        | |- context [ShootingGame.check_collisions_from rest ?v] =>
            assert (Hv : p_score (ShootingGame.player v)
                         = p_score (ShootingGame.player w) + 10
                         /\ p_lives (ShootingGame.player v)
                            = p_lives (ShootingGame.player w)
                         /\ ShootingGame.enemies v = es');
            [ | destruct Hv as (Es & El & Ee);
                destruct (IH v) as (k & m & He & Hb & Esc & Eli) ]
        end.
        { sg_proj. rewrite CIntFacts.add_exact by int_range. repeat split. }
        { int_range. } { int_range. } { int_range. }
        exists (S k), m. rewrite Ee in He. repeat split; lia.
      * destruct (IH w) as (k & m & He & Hb & Esc & Eli); try int_range.
        destruct (ShootingGame.check_collisions_from rest w) as [kept w'].
        exists k, m. sg_proj. repeat split; lia.
    + destruct (ShootingGame.hits_player b (ShootingGame.player w)).
      * match goal with
        | |- context [ShootingGame.check_collisions_from rest ?v] =>
            assert (Hv : p_score (ShootingGame.player v)
                         = p_score (ShootingGame.player w)
                         /\ p_lives (ShootingGame.player v)
                            = p_lives (ShootingGame.player w) - 1
                         /\ ShootingGame.enemies v = ShootingGame.enemies w);
            [ | destruct Hv as (Es & El & Ee);
                destruct (IH v) as (k & m & He & Hb & Esc & Eli) ]
        end.
        { destruct (_ <=? 0); sg_proj;
            rewrite CIntFacts.sub_exact by int_range; repeat split. }
        { int_range. } { int_range. } { int_range. }
        exists k, (S m). rewrite Ee in He. repeat split; lia.
      * destruct (IH w) as (k & m & He & Hb & Esc & Eli); try int_range.
        destruct (ShootingGame.check_collisions_from rest w) as [kept w'].
        exists k, m. sg_proj. repeat split; lia.
Qed.

Lemma as_bullets_pass bs : forall w,
  CInt.INT_MIN <= p_score (AsciiShooter.player w) ->
  p_score (AsciiShooter.player w) + 10 * Z.of_nat (List.length bs) <= CInt.INT_MAX ->
  CInt.INT_MIN + Z.of_nat (List.length bs) <= p_lives (AsciiShooter.player w)
                                           <= CInt.INT_MAX ->
  exists k m : nat,
    (List.length (AsciiShooter.enemies (snd (AsciiShooter.bullets_pass bs w)))
     + k = List.length (AsciiShooter.enemies w))%nat
    /\ (List.length (fst (AsciiShooter.bullets_pass bs w)) + k + m
        = List.length bs)%nat
    /\ p_score (AsciiShooter.player (snd (AsciiShooter.bullets_pass bs w)))
       = p_score (AsciiShooter.player w) + 10 * Z.of_nat k
    /\ p_lives (AsciiShooter.player (snd (AsciiShooter.bullets_pass bs w)))
       = p_lives (AsciiShooter.player w) - Z.of_nat m.
Proof.
  induction bs as [ | b rest IH]; intros w Hs0 Hs Hl.
  - exists O, O. sg_proj. cbn [AsciiShooter.bullets_pass]. sg_proj.
    repeat split; lia.
  - cbn [AsciiShooter.bullets_pass]. sg_proj.
    destruct (b_dy b <? 0).
    + destruct (AsciiShooter.remove_first_hit b (AsciiShooter.enemies w))
        as [es' | ] eqn:Ehit.
      * apply as_remove_first_hit_length in Ehit.
        match goal with
        | |- context [AsciiShooter.bullets_pass rest ?v] =>
            assert (Hv : p_score (AsciiShooter.player v)
                         = p_score (AsciiShooter.player w) + 10
                         /\ p_lives (AsciiShooter.player v)
                            = p_lives (AsciiShooter.player w)
                         /\ AsciiShooter.enemies v = es');
            [ | destruct Hv as (Es & El & Ee);
                destruct (IH v) as (k & m & He & Hb & Esc & Eli) ]
        end.
        { sg_proj. rewrite CIntFacts.add_exact by int_range. repeat split. }
        { int_range. } { int_range. } { int_range. }
        exists (S k), m. rewrite Ee in He. repeat split; lia.
      * destruct (IH w) as (k & m & He & Hb & Esc & Eli); try int_range.
        destruct (AsciiShooter.bullets_pass rest w) as [kept w'].
        exists k, m. sg_proj. repeat split; lia.
    + destruct (AsciiShooter.hits_player b (AsciiShooter.player w)).
      * match goal with
        | |- context [AsciiShooter.bullets_pass rest ?v] =>
            assert (Hv : p_score (AsciiShooter.player v)
                         = p_score (AsciiShooter.player w)
                         /\ p_lives (AsciiShooter.player v)
                            = p_lives (AsciiShooter.player w) - 1
                         /\ AsciiShooter.enemies v = AsciiShooter.enemies w);
            [ | destruct Hv as (Es & El & Ee);
                destruct (IH v) as (k & m & He & Hb & Esc & Eli) ]
        end.
        { destruct (_ <=? 0); sg_proj;
            rewrite CIntFacts.sub_exact by int_range; repeat split. }
        { int_range. } { int_range. } { int_range. }
        exists k, (S m). rewrite Ee in He. repeat split; lia.
      * destruct (IH w) as (k & m & He & Hb & Esc & Eli); try int_range.
        destruct (AsciiShooter.bullets_pass rest w) as [kept w'].
        exists k, m. sg_proj. repeat split; lia.
Qed.

(** The second loop of ascii_shooter.c: [r] enemies ram the ship. *)
Lemma as_ramming_pass es : forall w,
  CInt.INT_MIN + Z.of_nat (List.length es) <= p_lives (AsciiShooter.player w)
                                           <= CInt.INT_MAX ->
  exists r : nat,
    (List.length (fst (AsciiShooter.ramming_pass es w)) + r = List.length es)%nat
    /\ p_lives (AsciiShooter.player (snd (AsciiShooter.ramming_pass es w)))
       = p_lives (AsciiShooter.player w) - Z.of_nat r
    /\ p_score (AsciiShooter.player (snd (AsciiShooter.ramming_pass es w)))
       = p_score (AsciiShooter.player w)
    /\ AsciiShooter.bullets (snd (AsciiShooter.ramming_pass es w))
       = AsciiShooter.bullets w.
Proof.
  induction es as [ | e rest IH]; intros w Hl.
  - exists O. cbn [AsciiShooter.ramming_pass]. sg_proj. repeat split; lia.
  - cbn [AsciiShooter.ramming_pass]. sg_proj.
    destruct ((e_y e =? p_y (AsciiShooter.player w))
              && (AsciiShooter.absdiff (e_x e) (p_x (AsciiShooter.player w)) <=? 1)).
    + rewrite CIntFacts.sub_exact by int_range.
      destruct (p_lives (AsciiShooter.player w) - 1 <=? 0).
      * exists 1%nat. sg_proj. repeat split; lia.
      * match goal with
        | |- context [AsciiShooter.ramming_pass rest ?v] =>
            destruct (IH v) as (r & Hk & El & Es & Eb)
        end.
        { sg_proj. int_range. }
        exists (S r). sg_proj. repeat split; try lia; assumption.
    + destruct (IH w) as (r & Hk & El & Es & Eb); [ int_range | ].
      destruct (AsciiShooter.ramming_pass rest w) as [kept w'].
      exists r. sg_proj. repeat split; try lia; assumption.
Qed.

(** X15.  [check_collisions] keeps the books: in shooting_game.c, with
    [k] the number of enemies unlinked and [m] the number of lives
    lost, the score grows by 10 [k], and the bullet list is shorter by
    [k + m]: every hit takes one bullet and one enemy, every bullet on
    the ship one bullet and one life.  In ascii_shooter.c the same
    holds with [r] more enemies unlinked for one life each, those that
    touch the ship.  The scores and lives are [int]s with room for the
    changes. *)
Theorem collisions_keep_the_books (w1 : ShootingGame.World) (w2 : AsciiShooter.World) :
  CInt.INT_MIN <= p_score (ShootingGame.player w1) ->
  p_score (ShootingGame.player w1)
    + 10 * Z.of_nat (List.length (ShootingGame.bullets w1)) <= CInt.INT_MAX ->
  CInt.INT_MIN + Z.of_nat (List.length (ShootingGame.bullets w1))
    <= p_lives (ShootingGame.player w1) <= CInt.INT_MAX ->
  CInt.INT_MIN <= p_score (AsciiShooter.player w2) ->
  p_score (AsciiShooter.player w2)
    + 10 * Z.of_nat (List.length (AsciiShooter.bullets w2)) <= CInt.INT_MAX ->
  CInt.INT_MIN + Z.of_nat (List.length (AsciiShooter.bullets w2))
               + Z.of_nat (List.length (AsciiShooter.enemies w2))
    <= p_lives (AsciiShooter.player w2) <= CInt.INT_MAX ->
  (exists k m : nat,
     (List.length (ShootingGame.enemies (ShootingGame.check_collisions w1)) + k
      = List.length (ShootingGame.enemies w1))%nat
     /\ (List.length (ShootingGame.bullets (ShootingGame.check_collisions w1)) + k + m
         = List.length (ShootingGame.bullets w1))%nat
     /\ p_score (ShootingGame.player (ShootingGame.check_collisions w1))
        = p_score (ShootingGame.player w1) + 10 * Z.of_nat k
     /\ p_lives (ShootingGame.player (ShootingGame.check_collisions w1))
        = p_lives (ShootingGame.player w1) - Z.of_nat m)
  /\ (exists k m r : nat,
        (List.length (AsciiShooter.enemies (AsciiShooter.check_collisions w2)) + k + r
         = List.length (AsciiShooter.enemies w2))%nat
        /\ (List.length (AsciiShooter.bullets (AsciiShooter.check_collisions w2)) + k + m
            = List.length (AsciiShooter.bullets w2))%nat
        /\ p_score (AsciiShooter.player (AsciiShooter.check_collisions w2))
           = p_score (AsciiShooter.player w2) + 10 * Z.of_nat k
        /\ p_lives (AsciiShooter.player (AsciiShooter.check_collisions w2))
           = p_lives (AsciiShooter.player w2) - Z.of_nat m - Z.of_nat r).
Proof.
  intros Hs0 Hs Hl Ht0 Ht Hu. split.
  - destruct (sg_collisions_from (ShootingGame.bullets w1) w1 Hs0 Hs Hl)
      as (k & m & He & Hb & Esc & Eli).
    unfold ShootingGame.check_collisions.
    destruct (ShootingGame.check_collisions_from (ShootingGame.bullets w1) w1)
      as [kept w'].
    exists k, m. sg_proj. repeat split; assumption.
  - destruct (as_bullets_pass (AsciiShooter.bullets w2) w2 Ht0 Ht)
      as (k & m & He & Hb & Esc & Eli); [ int_range | ].
    unfold AsciiShooter.check_collisions.
    destruct (AsciiShooter.bullets_pass (AsciiShooter.bullets w2) w2)
      as [kept_b v].
    sg_proj.
    destruct (as_ramming_pass (AsciiShooter.enemies v)
                (AsciiShooter.set_bullets kept_b v))
      as (r & Hk & El & Es & Eb).
    { sg_proj. int_range. }
    destruct (AsciiShooter.ramming_pass (AsciiShooter.enemies v)
                (AsciiShooter.set_bullets kept_b v)) as [kept_e v'].
    exists k, m, r. sg_proj. repeat split; try lia.
    rewrite Eb. lia.
Qed.

Lemma collisions_keep_the_books_witness :
  (CInt.INT_MIN <= p_score (ShootingGame.player sg_crossfire))
  /\ (p_score (ShootingGame.player sg_crossfire)
        + 10 * Z.of_nat (List.length (ShootingGame.bullets sg_crossfire))
      <= CInt.INT_MAX)
  /\ (CInt.INT_MIN + Z.of_nat (List.length (ShootingGame.bullets sg_crossfire))
      <= p_lives (ShootingGame.player sg_crossfire) <= CInt.INT_MAX)
  /\ (CInt.INT_MIN <= p_score (AsciiShooter.player as_crossfire))
  /\ (p_score (AsciiShooter.player as_crossfire)
        + 10 * Z.of_nat (List.length (AsciiShooter.bullets as_crossfire))
      <= CInt.INT_MAX)
  /\ (CInt.INT_MIN + Z.of_nat (List.length (AsciiShooter.bullets as_crossfire))
                   + Z.of_nat (List.length (AsciiShooter.enemies as_crossfire))
      <= p_lives (AsciiShooter.player as_crossfire) <= CInt.INT_MAX)
  /\ exists k m : nat,
       (List.length (ShootingGame.enemies (ShootingGame.check_collisions sg_crossfire)) + k
        = List.length (ShootingGame.enemies sg_crossfire))%nat
       /\ (List.length (ShootingGame.bullets (ShootingGame.check_collisions sg_crossfire))
             + k + m
           = List.length (ShootingGame.bullets sg_crossfire))%nat
       /\ p_score (ShootingGame.player (ShootingGame.check_collisions sg_crossfire))
          = p_score (ShootingGame.player sg_crossfire) + 10 * Z.of_nat k
       /\ p_lives (ShootingGame.player (ShootingGame.check_collisions sg_crossfire))
          = p_lives (ShootingGame.player sg_crossfire) - Z.of_nat m.
Proof.
  assert (H1 : CInt.INT_MIN <= p_score (ShootingGame.player sg_crossfire))
    by (vm_compute; intro H; discriminate H).
  assert (H2 : p_score (ShootingGame.player sg_crossfire)
               + 10 * Z.of_nat (List.length (ShootingGame.bullets sg_crossfire))
               <= CInt.INT_MAX)
    by (vm_compute; intro H; discriminate H).
  assert (H3 : CInt.INT_MIN + Z.of_nat (List.length (ShootingGame.bullets sg_crossfire))
               <= p_lives (ShootingGame.player sg_crossfire) <= CInt.INT_MAX)
    by (vm_compute; split; intro H; discriminate H).
  assert (H4 : CInt.INT_MIN <= p_score (AsciiShooter.player as_crossfire))
    by (vm_compute; intro H; discriminate H).
  assert (H5 : p_score (AsciiShooter.player as_crossfire)
               + 10 * Z.of_nat (List.length (AsciiShooter.bullets as_crossfire))
               <= CInt.INT_MAX)
    by (vm_compute; intro H; discriminate H).
  assert (H6 : CInt.INT_MIN + Z.of_nat (List.length (AsciiShooter.bullets as_crossfire))
               + Z.of_nat (List.length (AsciiShooter.enemies as_crossfire))
               <= p_lives (AsciiShooter.player as_crossfire) <= CInt.INT_MAX)
    by (vm_compute; split; intro H; discriminate H).
  do 6 (split; [ assumption | ]).
  exact (proj1 (collisions_keep_the_books sg_crossfire as_crossfire
                  H1 H2 H3 H4 H5 H6)).
Defined.

(** *** The difficulty of ascii_shooter.c *)

Lemma tuning_process_input keys : forall w,
  tuning (AsciiShooter.process_input keys w) = tuning w.
Proof.
  unfold AsciiShooter.process_input.
  induction keys as [ | ch keys IH]; intros w; [ reflexivity | ].
  cbn [fold_left]. rewrite IH. unfold AsciiShooter.process_key.
  repeat match goal with
         | |- context [if ?b then _ else _] => destruct b
         end; try reflexivity;
    unfold AsciiShooter.add_bullet;
    destruct (Libc.malloc _) as [ok l']; destruct ok; reflexivity.
Qed.

Lemma tuning_add_bullet x y dy w :
  tuning (AsciiShooter.add_bullet x y dy w) = tuning w.
Proof.
  unfold AsciiShooter.add_bullet.
  destruct (Libc.malloc _) as [ok l']; destruct ok; reflexivity.
Qed.

Lemma tuning_update_enemies w : tuning (AsciiShooter.update_enemies w) = tuning w.
Proof.
  unfold AsciiShooter.update_enemies.
  assert (H : forall es v, tuning (snd (AsciiShooter.update_enemies_from es v))
                           = tuning v).
  { induction es as [ | e rest IH]; intros v; [ reflexivity | ].
    cbn [AsciiShooter.update_enemies_from].
    destruct (Libc.rand (AsciiShooter.libc v)) as [rv l'].
    match goal with
    | |- context [if CInt.rem rv 200 =? 0 then ?a else ?b] =>
        assert (E2 : tuning (if CInt.rem rv 200 =? 0 then a else b) = tuning v)
          by (destruct (CInt.rem rv 200 =? 0);
              [ rewrite tuning_add_bullet | ]; reflexivity);
        set (w2 := if CInt.rem rv 200 =? 0 then a else b) in *
    end.
    destruct (CInt.sub (AsciiShooter.max_y w2) 3 <=? e_y (descend e)).
    - rewrite IH. rewrite <- E2.
      destruct (_ <=? 0); reflexivity.
    - specialize (IH w2).
      destruct (AsciiShooter.update_enemies_from rest w2) as [kept w'].
      cbn [snd] in *. congruence. }
  specialize (H (AsciiShooter.enemies w) w).
  destruct (AsciiShooter.update_enemies_from (AsciiShooter.enemies w) w)
    as [kept w'].
  cbn [snd] in H. rewrite <- H. reflexivity.
Qed.

Lemma tuning_check_collisions w :
  tuning (AsciiShooter.check_collisions w) = tuning w.
Proof.
  assert (Hb : forall bs v, tuning (snd (AsciiShooter.bullets_pass bs v)) = tuning v).
  { induction bs as [ | b rest IH]; intros v; [ reflexivity | ].
    cbn [AsciiShooter.bullets_pass].
    destruct (b_dy b <? 0).
    - destruct (AsciiShooter.remove_first_hit b (AsciiShooter.enemies v)).
      + rewrite IH. reflexivity.
      + specialize (IH v). destruct (AsciiShooter.bullets_pass rest v).
        exact IH.
    - destruct (AsciiShooter.hits_player b (AsciiShooter.player v)).
      + rewrite IH. destruct (_ <=? 0); reflexivity.
      + specialize (IH v). destruct (AsciiShooter.bullets_pass rest v).
        exact IH. }
  assert (He : forall es v, tuning (snd (AsciiShooter.ramming_pass es v)) = tuning v).
  { induction es as [ | e rest IH]; intros v; [ reflexivity | ].
    cbn [AsciiShooter.ramming_pass].
    destruct (_ && _).
    - destruct (_ <=? 0); [ reflexivity | ]. rewrite IH. reflexivity.
    - specialize (IH v). destruct (AsciiShooter.ramming_pass rest v).
      exact IH. }
  unfold AsciiShooter.check_collisions.
  specialize (Hb (AsciiShooter.bullets w) w).
  destruct (AsciiShooter.bullets_pass (AsciiShooter.bullets w) w) as [kept_b w1].
  cbn [snd] in Hb.
  specialize (He (AsciiShooter.enemies (AsciiShooter.set_bullets kept_b w1))
                 (AsciiShooter.set_bullets kept_b w1)).
  destruct (AsciiShooter.ramming_pass _ _) as [kept_e w3].
  cbn [snd] in He.
  change (tuning (AsciiShooter.set_enemies kept_e w3)) with (tuning w3).
  rewrite He. exact Hb.
Qed.

Lemma tuning_spawn_enemy w w' :
  AsciiShooter.spawn_enemy w = Done w' -> tuning w' = tuning w.
Proof.
  unfold AsciiShooter.spawn_enemy.
  destruct (Libc.rand (AsciiShooter.libc w)) as [rv l'].
  destruct (_ =? 0); [ discriminate | ].
  intros H. injection H as <-. unfold AsciiShooter.add_enemy.
  destruct (Libc.malloc _) as [ok l'']; destruct ok; reflexivity.
Qed.

(** X16.  The difficulty of ascii_shooter.c stays within its limits:
    [init_game] puts the spawn rate, the enemy speed and the level
    within them, and no iteration of the main loop takes the spawn rate
    below [MIN_SPAWN_RATE] or above [INITIAL_SPAWN_RATE], or the enemy
    speed below 2 or above [ENEMY_SPEED_INITIAL]; the level always
    equals 41 minus the spawn rate, so it stays between 1 and 33. *)
Theorem difficulty_stays_tuned (keys : list Z) (w0 w w' : AsciiShooter.World) :
  tuned (AsciiShooter.init_game w0)
  /\ (tuned w -> AsciiShooter.tick keys w = Done w' ->
      tuned w' /\ 1 <= AsciiShooter.level w' <= 33).
Proof.
  split.
  - unfold tuned. cbn.
    unfold AsciiShooter.MIN_SPAWN_RATE, AsciiShooter.INITIAL_SPAWN_RATE,
           AsciiShooter.ENEMY_SPEED_INITIAL. lia.
  - intros Ht Hrun.
    assert (Hgoal : forall v, tuned v -> tuned v /\ 1 <= AsciiShooter.level v <= 33).
    { intros v Hv. split; [ exact Hv | ].
      unfold tuned, AsciiShooter.MIN_SPAWN_RATE, AsciiShooter.INITIAL_SPAWN_RATE in Hv.
      lia. }
    assert (Hkeep : forall v v', tuning v' = tuning v -> tuned v -> tuned v').
    { intros v v' E. unfold tuning in E. injection E as E1 E2 E3.
      unfold tuned. rewrite E1, E2, E3. tauto. }
    apply Hgoal.
    unfold AsciiShooter.tick in Hrun.
    pose proof (tuning_process_input keys w) as E1.
    set (w1 := AsciiShooter.process_input keys w) in *.
    destruct (negb (CInt.truthy (AsciiShooter.paused w1)));
      [ | injection Hrun as <-; apply (Hkeep w w1 E1 Ht) ].
    set (w3 := AsciiShooter.set_spawn_counter _ (AsciiShooter.set_tick_count _ w1)) in *.
    assert (E3 : tuning w3 = tuning w) by exact E1.
    destruct (if AsciiShooter.spawn_rate w3 <=? AsciiShooter.spawn_counter w3
              then (w'0 <- AsciiShooter.spawn_enemy w3 ;;
                    Done (AsciiShooter.set_spawn_counter 0 w'0))
              else Done w3) as [w4 | | ] eqn:Espawn; try discriminate Hrun.
    cbn [bind] in Hrun. injection Hrun as <-.
    assert (E4 : tuning w4 = tuning w).
    { destruct (AsciiShooter.spawn_rate w3 <=? AsciiShooter.spawn_counter w3).
      - destruct (AsciiShooter.spawn_enemy w3) as [v | | ] eqn:Es;
          try discriminate Espawn.
        cbn [bind] in Espawn. injection Espawn as <-.
        rewrite <- E3, <- (tuning_spawn_enemy w3 v Es). reflexivity.
      - injection Espawn as <-. exact E3. }
    pose proof (Hkeep w w4 E4 Ht) as Ht4.
    match goal with
    | |- tuned (AsciiShooter.check_collisions
                  (AsciiShooter.update_bullets (AsciiShooter.update_enemies ?v))) =>
        apply (Hkeep v);
        [ rewrite tuning_check_collisions;
          change (tuning (AsciiShooter.update_bullets
                            (AsciiShooter.update_enemies v)))
            with (tuning (AsciiShooter.update_enemies v));
          apply tuning_update_enemies | ]
    end.
    destruct Ht4 as (Hsr & Hes & Hlv).
    unfold AsciiShooter.MIN_SPAWN_RATE, AsciiShooter.INITIAL_SPAWN_RATE,
           AsciiShooter.ENEMY_SPEED_INITIAL in *.
    destruct ((CInt.rem (AsciiShooter.tick_count w4) AsciiShooter.SPAWN_DECREASE_EVERY
               =? 0) && (8 <? AsciiShooter.spawn_rate w4)) eqn:Escale.
    + apply andb_true_iff in Escale. destruct Escale as [_ Hgt].
      apply Z.ltb_lt in Hgt.
      cbn [AsciiShooter.enemy_speed AsciiShooter.set_level AsciiShooter.set_spawn_rate].
      destruct (2 <? AsciiShooter.enemy_speed w4) eqn:Esp;
        [ apply Z.ltb_lt in Esp | apply Z.ltb_ge in Esp ];
        unfold tuned, AsciiShooter.MIN_SPAWN_RATE, AsciiShooter.INITIAL_SPAWN_RATE,
               AsciiShooter.ENEMY_SPEED_INITIAL;
        cbn [AsciiShooter.spawn_rate AsciiShooter.enemy_speed AsciiShooter.level
             AsciiShooter.set_level AsciiShooter.set_spawn_rate
             AsciiShooter.set_enemy_speed];
        rewrite ?CIntFacts.sub_exact, ?CIntFacts.add_exact by int_range; lia.
    + unfold tuned, AsciiShooter.MIN_SPAWN_RATE, AsciiShooter.INITIAL_SPAWN_RATE,
             AsciiShooter.ENEMY_SPEED_INITIAL. lia.
Qed.

(** The first iteration of the loop after [init_game], without a key. *)
Lemma difficulty_stays_tuned_witness :
  exists w', AsciiShooter.tick [] (as_start (Libc.scripted [] [])) = Done w'
             /\ tuned w' /\ 1 <= AsciiShooter.level w' <= 33.
Proof.
  eexists. split; [ vm_compute; reflexivity | ].
  match goal with
  | |- tuned ?a /\ _ =>
      destruct (difficulty_stays_tuned []
                  (AsciiShooter.mkWorld 80 24 (Shooter.mkPlayer 0 0 0 0) [] []
                     0 0 0 0 0 0 0 (Libc.scripted [] []))
                  (as_start (Libc.scripted [] [])) a) as [H0 H]
  end.
  apply H; [ exact H0 | vm_compute; reflexivity ].
Defined.

(** *** The menu of shooting_game.c *)

Lemma show_menu_from_range keys : forall choice level rest,
  1 <= choice <= 3 ->
  show_menu_from keys choice = Some (level, rest) ->
  1 <= level <= 3 /\ exists read, keys = read ++ NEWLINE :: rest.
Proof.
  induction keys as [ | ch keys IH]; intros choice level rest Hc H;
    cbn [show_menu_from] in H; [ discriminate | ].
  destruct ((ch =? Key.KEY_UP) && (1 <? choice)) eqn:Eu.
  { apply andb_true_iff in Eu. destruct Eu as [_ Eu]. apply Z.ltb_lt in Eu.
    destruct (IH (choice - 1) level rest ltac:(lia) H) as [Hl (read & ->)].
    split; [ exact Hl | ]. exists (ch :: read). reflexivity. }
  destruct ((ch =? Key.KEY_DOWN) && (choice <? 3)) eqn:Ed.
  { apply andb_true_iff in Ed. destruct Ed as [_ Ed]. apply Z.ltb_lt in Ed.
    destruct (IH (choice + 1) level rest ltac:(lia) H) as [Hl (read & ->)].
    split; [ exact Hl | ]. exists (ch :: read). reflexivity. }
  destruct (ch =? NEWLINE) eqn:En.
  { apply Z.eqb_eq in En. injection H as <- <-. subst ch.
    split; [ exact Hc | ]. exists []. reflexivity. }
  destruct (IH choice level rest Hc H) as [Hl (read & ->)].
  split; [ exact Hl | ]. exists (ch :: read). reflexivity.
Qed.

(** X17.  The start of shooting_game.c: whatever keys are typed, when
    the menu returns its choice is 1, 2 or 3, so the [switch] of [main]
    (which has no default case) always sets one of the three
    difficulties, and the game starts with 3 lives, score 0 and a fire
    chance that is not 0, the divisor of the remainder in
    [update_enemies].  The keys typed after the newline are left for
    the game; without a newline the menu is still waiting. *)
Theorem menu_sets_a_difficulty (keys rest : list Z) (w w' : ShootingGame.World) :
  (startup keys w = Some (w', rest) ->
   ((ShootingGame.spawn_rate w', ShootingGame.enemy_speed w',
     ShootingGame.enemy_fire_chance w') = (80, 12, 400)
    \/ (ShootingGame.spawn_rate w', ShootingGame.enemy_speed w',
        ShootingGame.enemy_fire_chance w') = (50, 8, 200)
    \/ (ShootingGame.spawn_rate w', ShootingGame.enemy_speed w',
        ShootingGame.enemy_fire_chance w') = (25, 5, 80))
   /\ ShootingGame.enemy_fire_chance w' <> 0
   /\ p_lives (ShootingGame.player w') = 3
   /\ p_score (ShootingGame.player w') = 0
   /\ exists read, keys = read ++ NEWLINE :: rest)
  /\ (~ In NEWLINE keys -> startup keys w = None).
Proof.
  split.
  - unfold startup, show_menu. intros H.
    destruct (show_menu_from keys 1) as [[level rest'] | ] eqn:Em;
      [ | discriminate ].
    injection H as <- <-.
    destruct (show_menu_from_range keys 1 level rest' ltac:(lia) Em)
      as [Hl Hread].
    assert (Hcases : level = 1 \/ level = 2 \/ level = 3) by lia.
    destruct Hcases as [-> | [-> | ->]]; cbn;
      (split; [ tauto | ]); (split; [ discriminate | ]);
      (split; [ reflexivity | ]); (split; [ reflexivity | exact Hread ]).
  - unfold startup, show_menu. intros Hno.
    assert (H : forall choice, show_menu_from keys choice = None).
    { induction keys as [ | ch keys IH]; intros choice; [ reflexivity | ].
      cbn [show_menu_from].
      assert (Hne : ch <> NEWLINE) by (intros ->; apply Hno; left; reflexivity).
      assert (Hin : ~ In NEWLINE keys) by (intros Hin; apply Hno; right; exact Hin).
      destruct (_ && _); [ apply IH, Hin | ].
      destruct (_ && _); [ apply IH, Hin | ].
      replace (ch =? NEWLINE) with false by (symmetry; apply Z.eqb_neq, Hne).
      apply IH, Hin. }
    rewrite H. reflexivity.
Qed.

(** Down, then the newline: the medium difficulty. *)
Lemma menu_sets_a_difficulty_witness :
  exists w', startup [Key.KEY_DOWN; NEWLINE] (sg_zeroed (Libc.scripted [] []))
             = Some (w', [])
             /\ (ShootingGame.spawn_rate w', ShootingGame.enemy_speed w',
                 ShootingGame.enemy_fire_chance w') = (50, 8, 200).
Proof.
  eexists. split; [ vm_compute; reflexivity | ].
  match goal with
  | |- (ShootingGame.spawn_rate ?a, _, _) = _ =>
      destruct (menu_sets_a_difficulty [Key.KEY_DOWN; NEWLINE] []
                  (sg_zeroed (Libc.scripted [] [])) a) as [H _]
  end.
  destruct H as ([H | [H | H]] & _);
    [ vm_compute; reflexivity | | exact H | ]; vm_compute in H; discriminate.
Defined.

End ShooterMoreFacts.

(** ** The snake games: steering, shape of the body, walls *)

Module SnakeMoreFacts.

Import Snake Draws Trail SnakeStart Scenario Scenario2.

Ltac in_int :=
  unfold CInt.in_range, CInt.INT_MIN, CInt.INT_MAX in *; lia.

(** *** Lists of segments *)

Lemma chain_removelast l : chain l -> chain (removelast l).
Proof.
  induction l as [ | a l IH]; [ trivial | ].
  destruct l as [ | b l]; [ intros _; exact I | ].
  change (removelast (a :: b :: l)) with (a :: removelast (b :: l)).
  intros [Hab Hc]. split; [ | apply IH, Hc ].
  destruct l as [ | c l]; [ exact I | exact Hab ].
Qed.

Lemma unfolded_removelast l : unfolded l -> unfolded (removelast l).
Proof.
  induction l as [ | a l IH]; [ trivial | ].
  destruct l as [ | b l]; [ intros _; exact I | ].
  change (removelast (a :: b :: l)) with (a :: removelast (b :: l)).
  intros [Hac Hu]. split; [ | apply IH, Hu ].
  destruct l as [ | c l]; [ exact I | ].
  change (removelast (b :: c :: l)) with (b :: removelast (c :: l)).
  destruct l as [ | d l]; [ exact I | exact Hac ].
Qed.

Lemma towards_removelast l dx dy : towards l dx dy -> towards (removelast l) dx dy.
Proof.
  destruct l as [ | h [ | n [ | m l]]]; try (intros _; exact I).
  intros H. exact H.
Qed.

Lemma trail_removelast l dx dy : trail l dx dy -> trail (removelast l) dx dy.
Proof.
  intros (Hu & Hc & Hf & Ht).
  split; [ exact Hu | ]. split; [ apply chain_removelast, Hc | ].
  split; [ apply unfolded_removelast, Hf | apply towards_removelast, Ht ].
Qed.

(** A step of the head along a heading that is not the reverse of the
    last one keeps the body a path that does not fold back. *)
Lemma trail_step h t dx dy dx' dy' :
  trail (h :: t) dx dy ->
  unit_heading dx' dy' ->
  (dx', dy') <> (- dx, - dy) ->
  trail (mkSegment (s_x h + dx') (s_y h + dy') :: h :: t) dx' dy'.
Proof.
  intros (Hu & Hc & Hf & Ht) Hu' Hrev.
  split; [ exact Hu' | ]. split; [ | split ].
  - split; [ | exact Hc ].
    unfold adjacent, unit_heading in *. cbn [s_x s_y].
    replace (s_x h + dx' - s_x h) with dx' by lia.
    replace (s_y h + dy' - s_y h) with dy' by lia. exact Hu'.
  - split; [ | exact Hf ].
    destruct t as [ | n t]; [ exact I | ].
    intros E. apply Hrev. destruct Ht as [Hx Hy].
    apply (f_equal s_x) in E as Ex. apply (f_equal s_y) in E as Ey.
    cbn [s_x s_y] in Ex, Ey. f_equal; lia.
  - cbn [towards s_x s_y]. split; reflexivity.
Qed.

Lemma ahead_exact x y dx dy :
  CInt.INT_MIN < x < CInt.INT_MAX ->
  CInt.INT_MIN < y < CInt.INT_MAX ->
  unit_heading dx dy ->
  CInt.add x dx = x + dx /\ CInt.add y dy = y + dy.
Proof.
  intros Hx Hy Hu. unfold unit_heading in Hu.
  split; apply CIntFacts.add_exact; in_int.
Qed.

(** *** Steering *)

Ltac steer_cases :=
  unfold SnakeGame.steer, SnakeFull.steer;
  repeat (match goal with
          | |- context [ Z.eqb ?a ?b ] => destruct (Z.eqb_spec a b)
          | |- context [ CInt.truthy ?p ] => destruct (CInt.truthy p) eqn:?
          | |- context [ Key.pause_key ?c ] => destruct (Key.pause_key c)
          end; cbn [negb andb]).

Lemma sg_steer_heading ch w :
  unit_heading (SnakeGame.dir_x w) (SnakeGame.dir_y w) ->
  unit_heading (SnakeGame.dir_x (SnakeGame.steer ch w))
               (SnakeGame.dir_y (SnakeGame.steer ch w))
  /\ (SnakeGame.dir_x (SnakeGame.steer ch w), SnakeGame.dir_y (SnakeGame.steer ch w))
     <> (- SnakeGame.dir_x w, - SnakeGame.dir_y w).
Proof.
  intros Hu. unfold unit_heading in *.
  steer_cases; cbn; (split; [ lia | intros E; injection E; lia ]).
Qed.

Lemma sf_steer_heading ch w :
  unit_heading (SnakeFull.dir_x w) (SnakeFull.dir_y w) ->
  unit_heading (SnakeFull.dir_x (SnakeFull.steer ch w))
               (SnakeFull.dir_y (SnakeFull.steer ch w))
  /\ (SnakeFull.dir_x (SnakeFull.steer ch w), SnakeFull.dir_y (SnakeFull.steer ch w))
     <> (- SnakeFull.dir_x w, - SnakeFull.dir_y w).
Proof.
  intros Hu. unfold unit_heading in *.
  steer_cases; cbn; (split; [ lia | intros E; injection E; lia ]).
Qed.

Lemma sg_steer_frame ch w :
  SnakeGame.body (SnakeGame.steer ch w) = SnakeGame.body w
  /\ SnakeGame.food (SnakeGame.steer ch w) = SnakeGame.food w
  /\ SnakeGame.score (SnakeGame.steer ch w) = SnakeGame.score w
  /\ SnakeGame.libc (SnakeGame.steer ch w) = SnakeGame.libc w
  /\ SnakeGame.play_x0 (SnakeGame.steer ch w) = SnakeGame.play_x0 w
  /\ SnakeGame.play_y0 (SnakeGame.steer ch w) = SnakeGame.play_y0 w
  /\ SnakeGame.play_w (SnakeGame.steer ch w) = SnakeGame.play_w w
  /\ SnakeGame.play_h (SnakeGame.steer ch w) = SnakeGame.play_h w.
Proof. steer_cases; cbn; repeat split. Qed.

Lemma sf_steer_frame ch w :
  SnakeFull.body (SnakeFull.steer ch w) = SnakeFull.body w
  /\ SnakeFull.food (SnakeFull.steer ch w) = SnakeFull.food w
  /\ SnakeFull.score (SnakeFull.steer ch w) = SnakeFull.score w
  /\ SnakeFull.libc (SnakeFull.steer ch w) = SnakeFull.libc w
  /\ SnakeFull.max_x (SnakeFull.steer ch w) = SnakeFull.max_x w
  /\ SnakeFull.max_y (SnakeFull.steer ch w) = SnakeFull.max_y w.
Proof. steer_cases; cbn; repeat split. Qed.

(** A steering that leaves the game paused has not turned the snake. *)
Lemma sg_steer_still ch w :
  CInt.truthy (SnakeGame.paused (SnakeGame.steer ch w)) = true ->
  SnakeGame.dir_x (SnakeGame.steer ch w) = SnakeGame.dir_x w
  /\ SnakeGame.dir_y (SnakeGame.steer ch w) = SnakeGame.dir_y w.
Proof.
  unfold SnakeGame.steer.
  destruct (CInt.truthy (SnakeGame.paused w)) eqn:Ep; cbn [negb andb].
  - intros _. repeat (destruct (Z.eqb _ _); [ split; reflexivity | ]).
    destruct (Key.pause_key ch); split; reflexivity.
  - repeat match goal with
           | |- context [ if ?a =? ?b then _ else _ ] => destruct (a =? b)
           | |- context [ negb ?c ] => destruct c; cbn [negb]
           end;
    try (destruct (Key.pause_key ch)); cbn; intros H;
    try (rewrite Ep in H; discriminate); split; reflexivity.
Qed.

Lemma sf_steer_still ch w :
  CInt.truthy (SnakeFull.paused (SnakeFull.steer ch w)) = true ->
  SnakeFull.dir_x (SnakeFull.steer ch w) = SnakeFull.dir_x w
  /\ SnakeFull.dir_y (SnakeFull.steer ch w) = SnakeFull.dir_y w.
Proof.
  unfold SnakeFull.steer.
  destruct (CInt.truthy (SnakeFull.paused w)) eqn:Ep; cbn [negb andb].
  - intros _. repeat (destruct (Z.eqb _ _); [ split; reflexivity | ]).
    destruct (Key.pause_key ch); split; reflexivity.
  - repeat match goal with
           | |- context [ if ?a =? ?b then _ else _ ] => destruct (a =? b)
           | |- context [ negb ?c ] => destruct c; cbn [negb]
           end;
    try (destruct (Key.pause_key ch)); cbn; intros H;
    try (rewrite Ep in H; discriminate); split; reflexivity.
Qed.

(** X18.  An arrow key never reverses a snake: after the [switch] of
    the main loop the heading is again one of the four unit headings
    and it is not the opposite of the heading before, whatever the key
    and whether the game is paused or not; the body, the food and the
    score are untouched. *)
Theorem arrow_never_reverses (ch : Z) (w1 : SnakeGame.World) (w2 : SnakeFull.World) :
  unit_heading (SnakeGame.dir_x w1) (SnakeGame.dir_y w1) ->
  unit_heading (SnakeFull.dir_x w2) (SnakeFull.dir_y w2) ->
  (unit_heading (SnakeGame.dir_x (SnakeGame.steer ch w1))
                (SnakeGame.dir_y (SnakeGame.steer ch w1))
   /\ (SnakeGame.dir_x (SnakeGame.steer ch w1), SnakeGame.dir_y (SnakeGame.steer ch w1))
      <> (- SnakeGame.dir_x w1, - SnakeGame.dir_y w1)
   /\ SnakeGame.body (SnakeGame.steer ch w1) = SnakeGame.body w1
   /\ SnakeGame.food (SnakeGame.steer ch w1) = SnakeGame.food w1
   /\ SnakeGame.score (SnakeGame.steer ch w1) = SnakeGame.score w1)
  /\ (unit_heading (SnakeFull.dir_x (SnakeFull.steer ch w2))
                   (SnakeFull.dir_y (SnakeFull.steer ch w2))
      /\ (SnakeFull.dir_x (SnakeFull.steer ch w2), SnakeFull.dir_y (SnakeFull.steer ch w2))
         <> (- SnakeFull.dir_x w2, - SnakeFull.dir_y w2)
      /\ SnakeFull.body (SnakeFull.steer ch w2) = SnakeFull.body w2
      /\ SnakeFull.food (SnakeFull.steer ch w2) = SnakeFull.food w2
      /\ SnakeFull.score (SnakeFull.steer ch w2) = SnakeFull.score w2).
Proof.
  intros H1 H2. split.
  - destruct (sg_steer_heading ch w1 H1) as [Hu Hr].
    destruct (sg_steer_frame ch w1) as (Hb & Hf & Hs & _).
    split; [ exact Hu | ]. split; [ exact Hr | ]. split; [ exact Hb | ].
    split; [ exact Hf | exact Hs ].
  - destruct (sf_steer_heading ch w2 H2) as [Hu Hr].
    destruct (sf_steer_frame ch w2) as (Hb & Hf & Hs & _).
    split; [ exact Hu | ]. split; [ exact Hr | ]. split; [ exact Hb | ].
    split; [ exact Hf | exact Hs ].
Qed.

(** The snakes heading right are asked to turn left: they keep heading
    right. *)
Lemma arrow_never_reverses_witness :
  (SnakeGame.dir_x (SnakeGame.steer Key.KEY_LEFT sg_cruising),
   SnakeGame.dir_y (SnakeGame.steer Key.KEY_LEFT sg_cruising)) <> (-1, 0)
  /\ (SnakeFull.dir_x (SnakeFull.steer Key.KEY_LEFT sf_cruising),
      SnakeFull.dir_y (SnakeFull.steer Key.KEY_LEFT sf_cruising)) <> (-1, 0).
Proof.
  destruct (arrow_never_reverses Key.KEY_LEFT sg_cruising sf_cruising)
    as [(_ & H1 & _) (_ & H2 & _)].
  - vm_compute. reflexivity.
  - vm_compute. reflexivity.
  - split; [ exact H1 | exact H2 ].
Defined.

(** *** What a move keeps *)

Lemma sg_spawn_food_frame fuel : forall w w',
  SnakeGame.spawn_food fuel w = Done w' ->
  SnakeGame.body w' = SnakeGame.body w
  /\ SnakeGame.dir_x w' = SnakeGame.dir_x w
  /\ SnakeGame.dir_y w' = SnakeGame.dir_y w
  /\ SnakeGame.score w' = SnakeGame.score w
  /\ SnakeGame.paused w' = SnakeGame.paused w
  /\ SnakeGame.play_x0 w' = SnakeGame.play_x0 w
  /\ SnakeGame.play_y0 w' = SnakeGame.play_y0 w
  /\ SnakeGame.play_w w' = SnakeGame.play_w w
  /\ SnakeGame.play_h w' = SnakeGame.play_h w.
Proof.
  induction fuel as [ | fuel IH]; intros w w' H; cbn [SnakeGame.spawn_food] in H;
    [ discriminate | ].
  destruct (Libc.rand (SnakeGame.libc w)) as [r1 l1].
  destruct (Z.eqb _ 0); [ discriminate | ].
  destruct (Libc.rand l1) as [r2 l2].
  destruct (Z.eqb _ 0); [ discriminate | ].
  destruct (conflict _ _ _).
  - apply IH in H. cbn in H. exact H.
  - injection H as <-. cbn. repeat split.
Qed.

Lemma sf_spawn_food_frame fuel : forall w w',
  SnakeFull.spawn_food fuel w = Done w' ->
  SnakeFull.body w' = SnakeFull.body w
  /\ SnakeFull.dir_x w' = SnakeFull.dir_x w
  /\ SnakeFull.dir_y w' = SnakeFull.dir_y w
  /\ SnakeFull.score w' = SnakeFull.score w
  /\ SnakeFull.paused w' = SnakeFull.paused w
  /\ SnakeFull.max_x w' = SnakeFull.max_x w
  /\ SnakeFull.max_y w' = SnakeFull.max_y w.
Proof.
  induction fuel as [ | fuel IH]; intros w w' H; cbn [SnakeFull.spawn_food] in H;
    [ discriminate | ].
  destruct (Libc.rand (SnakeFull.libc w)) as [r1 l1].
  destruct (Z.eqb _ 0); [ discriminate | ].
  destruct (Libc.rand l1) as [r2 l2].
  destruct (Z.eqb _ 0); [ discriminate | ].
  destruct (conflict _ _ _).
  - apply IH in H. cbn in H. exact H.
  - injection H as <-. cbn. repeat split.
Qed.

(** After [move_snake] the body is the new head before the old body,
    whole when the food was eaten and without its last segment
    otherwise; heading, pause flag and play area are as before. *)
Lemma sg_move_frame fuel w w' h t :
  SnakeGame.body w = h :: t ->
  SnakeGame.move_snake fuel w = Done w' ->
  (SnakeGame.body w' = sg_ahead h w :: h :: t
   \/ SnakeGame.body w' = removelast (sg_ahead h w :: h :: t))
  /\ SnakeGame.dir_x w' = SnakeGame.dir_x w
  /\ SnakeGame.dir_y w' = SnakeGame.dir_y w
  /\ SnakeGame.paused w' = SnakeGame.paused w
  /\ SnakeGame.play_x0 w' = SnakeGame.play_x0 w
  /\ SnakeGame.play_y0 w' = SnakeGame.play_y0 w
  /\ SnakeGame.play_w w' = SnakeGame.play_w w
  /\ SnakeGame.play_h w' = SnakeGame.play_h w.
Proof.
  intros Hb H. unfold SnakeGame.move_snake in H. rewrite Hb in H.
  destruct (Libc.malloc (SnakeGame.libc w)) as [ok l'].
  destruct ok; cbn [negb] in H; [ | discriminate ].
  cbv zeta in H.
  destruct (andb _ _).
  - apply sg_spawn_food_frame in H. cbn in H.
    destruct H as (B & Dx & Dy & _ & P & X0 & Y0 & W & Hh).
    unfold sg_ahead.
    split; [ left; exact B | ]. repeat (split; [ assumption | ]). assumption.
  - injection H as <-. unfold SnakeGame.erase_tail.
    cbn [SnakeGame.body SnakeGame.set_body SnakeGame.set_libc].
    cbn. unfold sg_ahead. split; [ right; reflexivity | ]. repeat split.
Qed.

Lemma sf_move_frame fuel w w' h t :
  SnakeFull.body w = h :: t ->
  SnakeFull.move_snake fuel w = Done w' ->
  (SnakeFull.body w' = sf_ahead h w :: h :: t
   \/ SnakeFull.body w' = removelast (sf_ahead h w :: h :: t))
  /\ SnakeFull.dir_x w' = SnakeFull.dir_x w
  /\ SnakeFull.dir_y w' = SnakeFull.dir_y w
  /\ SnakeFull.paused w' = SnakeFull.paused w
  /\ SnakeFull.max_x w' = SnakeFull.max_x w
  /\ SnakeFull.max_y w' = SnakeFull.max_y w.
Proof.
  intros Hb H. unfold SnakeFull.move_snake in H. rewrite Hb in H.
  destruct (Libc.malloc (SnakeFull.libc w)) as [ok l'].
  destruct ok; cbn [negb] in H; [ | discriminate ].
  cbv zeta in H.
  destruct (andb _ _).
  - apply sf_spawn_food_frame in H. cbn in H.
    destruct H as (B & Dx & Dy & _ & P & X0 & Y0).
    unfold sf_ahead.
    split; [ left; exact B | ]. repeat (split; [ assumption | ]). assumption.
  - unfold SnakeFull.erase_tail in H.
    cbn [SnakeFull.body SnakeFull.set_body SnakeFull.set_libc] in H.
    injection H as <-.
    cbn. unfold sf_ahead. split; [ right; reflexivity | ]. repeat split.
Qed.

(** *** The body stays a path *)

Lemma sg_tick_trail fuel ch w w' e :
  trail (SnakeGame.body w) (SnakeGame.dir_x w) (SnakeGame.dir_y w) ->
  head_in_bounds (SnakeGame.body w) ->
  SnakeGame.tick fuel ch w = Done (w', e) ->
  trail (SnakeGame.body w') (SnakeGame.dir_x w') (SnakeGame.dir_y w').
Proof.
  intros Ht Hh H. unfold SnakeGame.tick in H.
  destruct (Key.quit_key ch).
  { injection H as <- <-. destruct Ht as (Hu & _).
    split; [ exact Hu | ]. cbn. repeat split. }
  destruct (sg_steer_frame ch w) as (Hb & _).
  destruct (CInt.truthy (SnakeGame.paused (SnakeGame.steer ch w))) eqn:Ep;
    cbn [negb] in H.
  { injection H as <- <-. destruct (sg_steer_still ch w Ep) as [-> ->].
    rewrite Hb. exact Ht. }
  destruct (SnakeGame.move_snake fuel (SnakeGame.steer ch w)) as [w2 | | ] eqn:Em;
    cbn [bind] in H; try discriminate.
  assert (H2 : trail (SnakeGame.body w2) (SnakeGame.dir_x w2) (SnakeGame.dir_y w2)).
  { destruct (SnakeGame.body w) as [ | h t] eqn:Ew.
    { unfold SnakeGame.move_snake in Em. rewrite Hb in Em. discriminate. }
    destruct (sg_move_frame fuel _ w2 h t Hb Em) as (B & -> & -> & _).
    destruct (sg_steer_heading ch w (proj1 Ht)) as [Hu' Hrev].
    destruct Hh as [Hx Hy].
    destruct (ahead_exact _ _ _ _ Hx Hy Hu') as [Ex Ey].
    unfold sg_ahead in B. rewrite Ex, Ey in B.
    pose proof (trail_step h t _ _ _ _ Ht Hu' Hrev) as Hs.
    destruct B as [-> | ->]; [ exact Hs | apply trail_removelast, Hs ]. }
  destruct (SnakeGame.check_collision w2) as [hit | | ]; cbn [bind] in H;
    try discriminate.
  destruct hit; injection H as <- <-; [ | exact H2 ].
  destruct H2 as (Hu & _). split; [ exact Hu | ]. cbn. repeat split.
Qed.

Lemma sf_tick_trail fuel ch w w' e :
  trail (SnakeFull.body w) (SnakeFull.dir_x w) (SnakeFull.dir_y w) ->
  head_in_bounds (SnakeFull.body w) ->
  SnakeFull.tick fuel ch w = Done (w', e) ->
  trail (SnakeFull.body w') (SnakeFull.dir_x w') (SnakeFull.dir_y w').
Proof.
  intros Ht Hh H. unfold SnakeFull.tick in H.
  destruct (Key.quit_key ch).
  { injection H as <- <-. exact Ht. }
  destruct (sf_steer_frame ch w) as (Hb & _).
  destruct (CInt.truthy (SnakeFull.paused (SnakeFull.steer ch w))) eqn:Ep;
    cbn [negb] in H.
  { injection H as <- <-. destruct (sf_steer_still ch w Ep) as [-> ->].
    rewrite Hb. exact Ht. }
  destruct (SnakeFull.move_snake fuel (SnakeFull.steer ch w)) as [w2 | | ] eqn:Em;
    cbn [bind] in H; try discriminate.
  assert (H2 : trail (SnakeFull.body w2) (SnakeFull.dir_x w2) (SnakeFull.dir_y w2)).
  { destruct (SnakeFull.body w) as [ | h t] eqn:Ew.
    { unfold SnakeFull.move_snake in Em. rewrite Hb in Em. discriminate. }
    destruct (sf_move_frame fuel _ w2 h t Hb Em) as (B & -> & -> & _).
    destruct (sf_steer_heading ch w (proj1 Ht)) as [Hu' Hrev].
    destruct Hh as [Hx Hy].
    destruct (ahead_exact _ _ _ _ Hx Hy Hu') as [Ex Ey].
    unfold sf_ahead in B. rewrite Ex, Ey in B.
    pose proof (trail_step h t _ _ _ _ Ht Hu' Hrev) as Hs.
    destruct B as [-> | ->]; [ exact Hs | apply trail_removelast, Hs ]. }
  destruct (SnakeFull.check_collision w2) as [hit | | ]; cbn [bind] in H;
    try discriminate.
  injection H as <- <-. exact H2.
Qed.

(** *** Walls *)

Lemma bites_free x y rest :
  bites x y rest = false <-> ~ In (mkSegment x y) rest.
Proof.
  change (bites x y rest) with (conflict rest x y).
  rewrite SnakeFacts.conflict_free. split.
  - intros H Hin. exact (H _ Hin (conj eq_refl eq_refl)).
  - intros H s Hin [Ex Ey]. apply H. destruct s as [sx sy].
    cbn [s_x s_y] in Ex, Ey. subst. exact Hin.
Qed.

(** [check_collision] of snake_game.c answers 0 exactly when the head
    is strictly inside the border and on no other segment. *)
Lemma sg_check_collision_safe w h t :
  CInt.INT_MIN < SnakeGame.play_x0 w + SnakeGame.play_w w <= CInt.INT_MAX ->
  CInt.INT_MIN < SnakeGame.play_y0 w + SnakeGame.play_h w <= CInt.INT_MAX ->
  SnakeGame.body w = h :: t ->
  (SnakeGame.check_collision w = Done false
   <-> sg_inside w (s_x h) (s_y h) /\ ~ In h t).
Proof.
  intros Hx Hy Hb. unfold SnakeGame.check_collision, sg_inside. rewrite Hb.
  rewrite !CIntFacts.add_exact by in_int.
  rewrite !CIntFacts.sub_exact by in_int.
  destruct h as [hx hy]. cbn [s_x s_y].
  rewrite <- bites_free.
  destruct (Z.leb_spec hx (SnakeGame.play_x0 w));
    [ cbn [orb]; split; [ discriminate | lia ] | ].
  destruct (Z.leb_spec (SnakeGame.play_x0 w + SnakeGame.play_w w - 1) hx);
    [ cbn [orb]; split; [ discriminate | lia ] | ].
  destruct (Z.leb_spec hy (SnakeGame.play_y0 w));
    [ cbn [orb]; split; [ discriminate | lia ] | ].
  destruct (Z.leb_spec (SnakeGame.play_y0 w + SnakeGame.play_h w - 1) hy);
    [ cbn [orb]; split; [ discriminate | lia ] | ].
  cbn [orb]. split.
  - intros E. injection E as E. split; [ lia | exact E ].
  - intros [_ E]. rewrite E. reflexivity.
Qed.

Lemma sf_check_collision_safe w h t :
  CInt.INT_MIN < SnakeFull.max_x w <= CInt.INT_MAX ->
  CInt.INT_MIN < SnakeFull.max_y w <= CInt.INT_MAX ->
  SnakeFull.body w = h :: t ->
  (SnakeFull.check_collision w = Done false
   <-> sf_inside w (s_x h) (s_y h) /\ ~ In h t).
Proof.
  intros Hx Hy Hb. unfold SnakeFull.check_collision, sf_inside. rewrite Hb.
  rewrite !CIntFacts.sub_exact by in_int.
  destruct h as [hx hy]. cbn [s_x s_y].
  rewrite <- bites_free.
  destruct (Z.leb_spec hx 0);
    [ cbn [orb]; split; [ discriminate | lia ] | ].
  destruct (Z.leb_spec (SnakeFull.max_x w - 1) hx);
    [ cbn [orb]; split; [ discriminate | lia ] | ].
  destruct (Z.leb_spec hy 1);
    [ cbn [orb]; split; [ discriminate | lia ] | ].
  destruct (Z.leb_spec (SnakeFull.max_y w - 1) hy);
    [ cbn [orb]; split; [ discriminate | lia ] | ].
  cbn [orb]. split.
  - intros E. injection E as E. split; [ lia | exact E ].
  - intros [_ E]. rewrite E. reflexivity.
Qed.

Lemma sg_tick_running_safe fuel ch w w' :
  CInt.INT_MIN < SnakeGame.play_x0 w + SnakeGame.play_w w <= CInt.INT_MAX ->
  CInt.INT_MIN < SnakeGame.play_y0 w + SnakeGame.play_h w <= CInt.INT_MAX ->
  SnakeGame.tick fuel ch w = Done (w', false) ->
  CInt.truthy (SnakeGame.paused w') = false ->
  exists h t, SnakeGame.body w' = h :: t
              /\ sg_inside w (s_x h) (s_y h) /\ ~ In h t.
Proof.
  intros Hx Hy H Hp. unfold SnakeGame.tick in H.
  destruct (Key.quit_key ch); [ discriminate | ].
  destruct (sg_steer_frame ch w) as (Hb & _ & _ & _ & X0 & Y0 & W & Hh).
  destruct (CInt.truthy (SnakeGame.paused (SnakeGame.steer ch w))) eqn:Ep;
    cbn [negb] in H.
  { injection H as <-. rewrite Ep in Hp. discriminate. }
  destruct (SnakeGame.move_snake fuel (SnakeGame.steer ch w)) as [w2 | | ] eqn:Em;
    cbn [bind] in H; try discriminate.
  destruct (SnakeGame.check_collision w2) as [hit | | ] eqn:Ec; cbn [bind] in H;
    try discriminate.
  destruct hit; [ discriminate | ]. injection H as <-.
  destruct (SnakeGame.body (SnakeGame.steer ch w)) as [ | h0 t0] eqn:E0.
  { unfold SnakeGame.move_snake in Em. rewrite E0 in Em. discriminate. }
  destruct (sg_move_frame fuel _ w2 h0 t0 E0 Em)
    as (_ & _ & _ & _ & X2 & Y2 & W2 & H2).
  destruct (SnakeGame.body w2) as [ | h t] eqn:E2.
  { unfold SnakeGame.check_collision in Ec. rewrite E2 in Ec. discriminate. }
  exists h, t. split; [ reflexivity | ].
  assert (Hs : sg_inside w2 (s_x h) (s_y h) /\ ~ In h t).
  { apply (sg_check_collision_safe w2 h t); [ | | exact E2 | exact Ec ].
    - rewrite X2, W2, X0, W. exact Hx.
    - rewrite Y2, H2, Y0, Hh. exact Hy. }
  unfold sg_inside in *. rewrite X2, Y2, W2, H2, X0, Y0, W, Hh in Hs. exact Hs.
Qed.

Lemma sf_tick_running_safe fuel ch w w' :
  CInt.INT_MIN < SnakeFull.max_x w <= CInt.INT_MAX ->
  CInt.INT_MIN < SnakeFull.max_y w <= CInt.INT_MAX ->
  SnakeFull.tick fuel ch w = Done (w', false) ->
  CInt.truthy (SnakeFull.paused w') = false ->
  exists h t, SnakeFull.body w' = h :: t
              /\ sf_inside w (s_x h) (s_y h) /\ ~ In h t.
Proof.
  intros Hx Hy H Hp. unfold SnakeFull.tick in H.
  destruct (Key.quit_key ch); [ discriminate | ].
  destruct (sf_steer_frame ch w) as (Hb & _ & _ & _ & X0 & Y0).
  destruct (CInt.truthy (SnakeFull.paused (SnakeFull.steer ch w))) eqn:Ep;
    cbn [negb] in H.
  { injection H as <-. rewrite Ep in Hp. discriminate. }
  destruct (SnakeFull.move_snake fuel (SnakeFull.steer ch w)) as [w2 | | ] eqn:Em;
    cbn [bind] in H; try discriminate.
  destruct (SnakeFull.check_collision w2) as [hit | | ] eqn:Ec; cbn [bind] in H;
    try discriminate.
  injection H as <- ->.
  destruct (SnakeFull.body (SnakeFull.steer ch w)) as [ | h0 t0] eqn:E0.
  { unfold SnakeFull.move_snake in Em. rewrite E0 in Em. discriminate. }
  destruct (sf_move_frame fuel _ w2 h0 t0 E0 Em) as (_ & _ & _ & _ & X2 & Y2).
  destruct (SnakeFull.body w2) as [ | h t] eqn:E2.
  { unfold SnakeFull.check_collision in Ec. rewrite E2 in Ec. discriminate. }
  exists h, t. split; [ reflexivity | ].
  assert (Hs : sf_inside w2 (s_x h) (s_y h) /\ ~ In h t).
  { apply (sf_check_collision_safe w2 h t); [ | | exact E2 | exact Ec ].
    - rewrite X2, X0. exact Hx.
    - rewrite Y2, Y0. exact Hy. }
  unfold sf_inside in *. rewrite X2, Y2, X0, Y0 in Hs. exact Hs.
Qed.

(** An iteration that does not end the program leaves the head where
    it can take a step: it has not moved, or it is inside the border. *)
Lemma sg_tick_bounds fuel ch w w' :
  CInt.INT_MIN <= SnakeGame.play_x0 w ->
  CInt.INT_MIN <= SnakeGame.play_y0 w ->
  CInt.INT_MIN < SnakeGame.play_x0 w + SnakeGame.play_w w <= CInt.INT_MAX ->
  CInt.INT_MIN < SnakeGame.play_y0 w + SnakeGame.play_h w <= CInt.INT_MAX ->
  head_in_bounds (SnakeGame.body w) ->
  SnakeGame.tick fuel ch w = Done (w', false) ->
  head_in_bounds (SnakeGame.body w').
Proof.
  intros X0 Y0 Hx Hy Hb H.
  destruct (CInt.truthy (SnakeGame.paused w')) eqn:Ep.
  - unfold SnakeGame.tick in H.
    destruct (Key.quit_key ch); [ discriminate | ].
    destruct (sg_steer_frame ch w) as (Eb & _).
    destruct (CInt.truthy (SnakeGame.paused (SnakeGame.steer ch w))) eqn:Es;
      cbn [negb] in H.
    { injection H as <-. rewrite Eb. exact Hb. }
    exfalso.
    destruct (SnakeGame.move_snake fuel (SnakeGame.steer ch w)) as [w2 | | ] eqn:Em;
      cbn [bind] in H; try discriminate.
    destruct (SnakeGame.check_collision w2) as [hit | | ]; cbn [bind] in H;
      try discriminate.
    destruct hit; [ discriminate | ]. injection H as <-.
    destruct (SnakeGame.body (SnakeGame.steer ch w)) as [ | h0 t0] eqn:E0.
    { unfold SnakeGame.move_snake in Em. rewrite E0 in Em. discriminate. }
    destruct (sg_move_frame fuel _ w2 h0 t0 E0 Em) as (_ & _ & _ & P & _).
    rewrite P, Es in Ep. discriminate.
  - destruct (sg_tick_running_safe fuel ch w w' Hx Hy H Ep)
      as (h & t & -> & [Ix Iy] & _).
    cbn [head_in_bounds]. in_int.
Qed.

Lemma sf_tick_bounds fuel ch w w' :
  CInt.INT_MIN < SnakeFull.max_x w <= CInt.INT_MAX ->
  CInt.INT_MIN < SnakeFull.max_y w <= CInt.INT_MAX ->
  head_in_bounds (SnakeFull.body w) ->
  SnakeFull.tick fuel ch w = Done (w', false) ->
  head_in_bounds (SnakeFull.body w').
Proof.
  intros Hx Hy Hb H.
  destruct (CInt.truthy (SnakeFull.paused w')) eqn:Ep.
  - unfold SnakeFull.tick in H.
    destruct (Key.quit_key ch); [ discriminate | ].
    destruct (sf_steer_frame ch w) as (Eb & _).
    destruct (CInt.truthy (SnakeFull.paused (SnakeFull.steer ch w))) eqn:Es;
      cbn [negb] in H.
    { injection H as <-. rewrite Eb. exact Hb. }
    exfalso.
    destruct (SnakeFull.move_snake fuel (SnakeFull.steer ch w)) as [w2 | | ] eqn:Em;
      cbn [bind] in H; try discriminate.
    destruct (SnakeFull.check_collision w2) as [hit | | ]; cbn [bind] in H;
      try discriminate.
    injection H as <- _.
    destruct (SnakeFull.body (SnakeFull.steer ch w)) as [ | h0 t0] eqn:E0.
    { unfold SnakeFull.move_snake in Em. rewrite E0 in Em. discriminate. }
    destruct (sf_move_frame fuel _ w2 h0 t0 E0 Em) as (_ & _ & _ & P & _).
    rewrite P, Es in Ep. discriminate.
  - destruct (sf_tick_running_safe fuel ch w w' Hx Hy H Ep)
      as (h & t & -> & [Ix Iy] & _).
    cbn [head_in_bounds]. in_int.
Qed.

(** X19.  The body of a snake stays a path through every iteration of
    the main loop.  If each segment lies beside the next, no segment
    lies on the cell two places behind it, the head lies one step along
    the heading from the segment behind it, the head can take a step
    within the range of [int], and the border lies within the range of
    [int], then after an iteration that returns, whatever the key, the
    body is such a path again (the new head lies beside the old one and
    an arrow key cannot fold the snake back onto its neck), and when the
    iteration has not ended the program the head can again take a step
    within the range of [int]: all of it holds for the next
    iteration. *)
Theorem snake_stays_a_path (fuel : nat) (ch : Z)
    (w1 : SnakeGame.World) (w2 : SnakeFull.World) :
  trail (SnakeGame.body w1) (SnakeGame.dir_x w1) (SnakeGame.dir_y w1) ->
  trail (SnakeFull.body w2) (SnakeFull.dir_x w2) (SnakeFull.dir_y w2) ->
  head_in_bounds (SnakeGame.body w1) ->
  head_in_bounds (SnakeFull.body w2) ->
  CInt.INT_MIN <= SnakeGame.play_x0 w1 ->
  CInt.INT_MIN <= SnakeGame.play_y0 w1 ->
  CInt.INT_MIN < SnakeGame.play_x0 w1 + SnakeGame.play_w w1 <= CInt.INT_MAX ->
  CInt.INT_MIN < SnakeGame.play_y0 w1 + SnakeGame.play_h w1 <= CInt.INT_MAX ->
  CInt.INT_MIN < SnakeFull.max_x w2 <= CInt.INT_MAX ->
  CInt.INT_MIN < SnakeFull.max_y w2 <= CInt.INT_MAX ->
  (forall w' e, SnakeGame.tick fuel ch w1 = Done (w', e) ->
     trail (SnakeGame.body w') (SnakeGame.dir_x w') (SnakeGame.dir_y w')
     /\ (e = false -> head_in_bounds (SnakeGame.body w')))
  /\ (forall w' e, SnakeFull.tick fuel ch w2 = Done (w', e) ->
        trail (SnakeFull.body w') (SnakeFull.dir_x w') (SnakeFull.dir_y w')
        /\ (e = false -> head_in_bounds (SnakeFull.body w'))).
Proof.
  intros T1 T2 B1 B2 X0 Y0 X1 Y1 X2 Y2. split; intros w' e H.
  - split; [ exact (sg_tick_trail fuel ch w1 w' e T1 B1 H) | ].
    intros ->. exact (sg_tick_bounds fuel ch w1 w' X0 Y0 X1 Y1 B1 H).
  - split; [ exact (sf_tick_trail fuel ch w2 w' e T2 B2 H) | ].
    intros ->. exact (sf_tick_bounds fuel ch w2 w' X2 Y2 B2 H).
Qed.

Lemma cruising_trail :
  trail [mkSegment 42 12; mkSegment 41 12; mkSegment 40 12] 1 0.
Proof.
  unfold trail, unit_heading, chain, unfolded, towards, adjacent. cbn.
  split; [ reflexivity | ].
  split; [ split; [ reflexivity | split; [ reflexivity | split; exact I ] ] | ].
  split; [ split; [ discriminate | split; [ exact I | split; exact I ] ] | ].
  split; reflexivity.
Qed.

(** The cruising snakes turn up: each moves, is a path again and has
    its head in bounds. *)
Lemma snake_stays_a_path_witness :
  (exists w', SnakeGame.tick 2 Key.KEY_UP sg_cruising = Done (w', false)
     /\ trail (SnakeGame.body w') (SnakeGame.dir_x w') (SnakeGame.dir_y w')
     /\ head_in_bounds (SnakeGame.body w'))
  /\ (exists w', SnakeFull.tick 2 Key.KEY_UP sf_cruising = Done (w', false)
        /\ trail (SnakeFull.body w') (SnakeFull.dir_x w') (SnakeFull.dir_y w')
        /\ head_in_bounds (SnakeFull.body w')).
Proof.
  destruct (snake_stays_a_path 2 Key.KEY_UP sg_cruising sf_cruising)
    as [H1 H2].
  - exact cruising_trail.
  - exact cruising_trail.
  - vm_compute. repeat split; discriminate.
  - vm_compute. repeat split; discriminate.
  - vm_compute. discriminate.
  - vm_compute. discriminate.
  - vm_compute. split; [ reflexivity | discriminate ].
  - vm_compute. split; [ reflexivity | discriminate ].
  - vm_compute. split; [ reflexivity | discriminate ].
  - vm_compute. split; [ reflexivity | discriminate ].
  - split.
    + eexists. split; [ vm_compute; reflexivity | ].
      match goal with
      | |- trail (SnakeGame.body ?a) _ _ /\ _ =>
          destruct (H1 a false) as [Ht Hb]; [ vm_compute; reflexivity | ]
      end.
      split; [ exact Ht | exact (Hb eq_refl) ].
    + eexists. split; [ vm_compute; reflexivity | ].
      match goal with
      | |- trail (SnakeFull.body ?a) _ _ /\ _ =>
          destruct (H2 a false) as [Ht Hb]; [ vm_compute; reflexivity | ]
      end.
      split; [ exact Ht | exact (Hb eq_refl) ].
Defined.

(** *** The first snake *)

Lemma row_of_exact len sx sy :
  CInt.INT_MIN + Z.of_nat len <= sx <= CInt.INT_MAX ->
  row_of len sx sy
  = map (fun i => mkSegment (sx - Z.of_nat i) sy) (seq 0 len).
Proof.
  intros Hr. unfold row_of. apply map_ext_in. intros i Hi.
  apply in_seq in Hi. rewrite CIntFacts.sub_exact; [ reflexivity | in_int ].
Qed.

Lemma row_chain sx sy n : forall j,
  chain (map (fun i => mkSegment (sx - Z.of_nat i) sy) (seq j n)).
Proof.
  induction n as [ | n IH]; intros j; [ exact I | ].
  cbn [seq map chain]. split; [ | apply IH ].
  destruct n as [ | n]; [ exact I | ].
  cbn [seq map]. unfold adjacent. cbn [s_x s_y]. lia.
Qed.

Lemma row_unfolded sx sy n : forall j,
  unfolded (map (fun i => mkSegment (sx - Z.of_nat i) sy) (seq j n)).
Proof.
  induction n as [ | n IH]; intros j; [ exact I | ].
  cbn [seq map unfolded]. split; [ | apply IH ].
  destruct n as [ | [ | n]]; try exact I.
  cbn [seq map]. intros E. apply (f_equal s_x) in E. cbn [s_x] in E. lia.
Qed.

(** A row laid leftwards is a path heading right. *)
Lemma row_trail len sx sy :
  CInt.INT_MIN + Z.of_nat len <= sx < CInt.INT_MAX ->
  CInt.INT_MIN < sy < CInt.INT_MAX ->
  trail (row_of len sx sy) 1 0 /\ head_in_bounds (row_of len sx sy).
Proof.
  intros Hx Hy. rewrite row_of_exact by lia. split.
  - split; [ reflexivity | ]. split; [ apply row_chain | ].
    split; [ apply row_unfolded | ].
    destruct len as [ | [ | len]]; try exact I.
    cbn [seq map towards s_x s_y]. lia.
  - destruct len as [ | len]; [ exact I | ].
    cbn [seq map head_in_bounds s_x s_y]. in_int.
Qed.

Lemma sg_grow_done n : forall j sx sy l r,
  SnakeGame.grow n (Z.of_nat j) sx sy l = Done r ->
  fst r = map (fun i => mkSegment (CInt.sub sx (Z.of_nat i)) sy) (seq j n)
  /\ Libc.rand_src (snd r) = Libc.rand_src l
  /\ Libc.rand_pos (snd r) = Libc.rand_pos l.
Proof.
  induction n as [ | n IH]; intros j sx sy l r H; cbn [SnakeGame.grow] in H.
  - injection H as <-. repeat split.
  - destruct (Libc.malloc l) as [ok l'] eqn:El.
    destruct ok; cbn [negb] in H; [ | discriminate ].
    replace (Z.of_nat j + 1) with (Z.of_nat (S j)) in H by lia.
    destruct (SnakeGame.grow n (Z.of_nat (S j)) sx sy l') as [r' | | ] eqn:Eg;
      cbn [bind] in H; try discriminate.
    injection H as <-. destruct (IH _ _ _ _ _ Eg) as (Hb & Hs & Hp).
    unfold Libc.malloc in El. injection El as _ <-.
    cbn [fst snd seq map]. rewrite Hb. repeat split; assumption.
Qed.

Lemma sf_grow_done n : forall j sx sy l r,
  SnakeFull.grow n (Z.of_nat j) sx sy l = Done r ->
  fst r = map (fun i => mkSegment (CInt.sub sx (Z.of_nat i)) sy) (seq j n)
  /\ Libc.rand_src (snd r) = Libc.rand_src l
  /\ Libc.rand_pos (snd r) = Libc.rand_pos l.
Proof.
  induction n as [ | n IH]; intros j sx sy l r H; cbn [SnakeFull.grow] in H.
  - injection H as <-. repeat split.
  - destruct (Libc.malloc l) as [ok l'] eqn:El.
    destruct ok; cbn [negb] in H; [ | discriminate ].
    replace (Z.of_nat j + 1) with (Z.of_nat (S j)) in H by lia.
    destruct (SnakeFull.grow n (Z.of_nat (S j)) sx sy l') as [r' | | ] eqn:Eg;
      cbn [bind] in H; try discriminate.
    injection H as <-. destruct (IH _ _ _ _ _ Eg) as (Hb & Hs & Hp).
    unfold Libc.malloc in El. injection El as _ <-.
    cbn [fst snd seq map]. rewrite Hb. repeat split; assumption.
Qed.

(** An allocation that fails among the first [n] makes the loop write
    through a null pointer. *)
Lemma sg_grow_fault n : forall i sx sy l k,
  (k < n)%nat ->
  Libc.malloc_src l (Libc.malloc_pos l + k) = false ->
  SnakeGame.grow n i sx sy l = Fault.
Proof.
  induction n as [ | n IH]; intros i sx sy l k Hk Hm; [ lia | ].
  cbn [SnakeGame.grow]. unfold Libc.malloc.
  destruct (Libc.malloc_src l (Libc.malloc_pos l)) eqn:E0; cbn [negb];
    [ | reflexivity ].
  destruct k as [ | k]; [ rewrite Nat.add_0_r, E0 in Hm; discriminate | ].
  rewrite (IH _ _ _ _ k); [ reflexivity | lia | ].
  cbn [Libc.malloc_src Libc.malloc_pos]. rewrite <- Hm. f_equal. lia.
Qed.

Lemma sf_grow_fault n : forall i sx sy l k,
  (k < n)%nat ->
  Libc.malloc_src l (Libc.malloc_pos l + k) = false ->
  SnakeFull.grow n i sx sy l = Fault.
Proof.
  induction n as [ | n IH]; intros i sx sy l k Hk Hm; [ lia | ].
  cbn [SnakeFull.grow]. unfold Libc.malloc.
  destruct (Libc.malloc_src l (Libc.malloc_pos l)) eqn:E0; cbn [negb];
    [ | reflexivity ].
  destruct k as [ | k]; [ rewrite Nat.add_0_r, E0 in Hm; discriminate | ].
  rewrite (IH _ _ _ _ k); [ reflexivity | lia | ].
  cbn [Libc.malloc_src Libc.malloc_pos]. rewrite <- Hm. f_equal. lia.
Qed.

(** X20.  [init_game], when it returns: in snake_game.c the snake is 12
    segments on the middle row of the play area, from the middle column
    leftwards, in the other snake game 35 segments from the middle of
    the terminal; it heads right, the score of snake_game.c is 0 (the
    other game leaves the score alone) and the food lies on none of the
    segments.  If the row fits the range of [int] the snake is a path
    whose head is one step right of its neck. *)
Theorem init_game_lays_the_snake (fuel : nat)
    (w1 w1' : SnakeGame.World) (w2 w2' : SnakeFull.World) :
  SnakeGame.init_game fuel w1 = Done w1' ->
  SnakeFull.init_game fuel w2 = Done w2' ->
  (let start_x := CInt.add (SnakeGame.play_x0 w1) (Z.quot (SnakeGame.play_w w1) 2) in
   let start_y := CInt.add (SnakeGame.play_y0 w1) (Z.quot (SnakeGame.play_h w1) 2) in
   SnakeGame.body w1' = row_of 12 start_x start_y
   /\ (SnakeGame.dir_x w1', SnakeGame.dir_y w1') = (1, 0)
   /\ SnakeGame.score w1' = 0
   /\ free (SnakeGame.body w1')
           (f_x (SnakeGame.food w1'), f_y (SnakeGame.food w1')) = true
   /\ (CInt.INT_MIN + 12 <= start_x < CInt.INT_MAX ->
       CInt.INT_MIN < start_y < CInt.INT_MAX ->
       trail (SnakeGame.body w1') (SnakeGame.dir_x w1') (SnakeGame.dir_y w1')
       /\ head_in_bounds (SnakeGame.body w1')))
  /\ (let start_x := Z.quot (SnakeFull.max_x w2) 2 in
      let start_y := Z.quot (SnakeFull.max_y w2) 2 in
      SnakeFull.body w2' = row_of 35 start_x start_y
      /\ (SnakeFull.dir_x w2', SnakeFull.dir_y w2') = (1, 0)
      /\ SnakeFull.score w2' = SnakeFull.score w2
      /\ free (SnakeFull.body w2')
              (f_x (SnakeFull.food w2'), f_y (SnakeFull.food w2')) = true
      /\ (CInt.INT_MIN + 35 <= start_x < CInt.INT_MAX ->
          CInt.INT_MIN < start_y < CInt.INT_MAX ->
          trail (SnakeFull.body w2') (SnakeFull.dir_x w2') (SnakeFull.dir_y w2')
          /\ head_in_bounds (SnakeFull.body w2'))).
Proof.
  intros H1 H2. split; cbv zeta.
  - unfold SnakeGame.init_game in H1. cbv zeta in H1.
    change (Z.to_nat SnakeGame.INITIAL_SNAKE_LEN) with 12%nat in H1.
    destruct (SnakeGame.grow _ _ _ _ _) as [r | | ] eqn:Eg; cbn [bind] in H1;
      try discriminate.
    apply (sg_grow_done 12 0%nat) in Eg. destruct Eg as (Hb & _).
    change (fst r = row_of 12
              (CInt.add (SnakeGame.play_x0 w1) (Z.quot (SnakeGame.play_w w1) 2))
              (CInt.add (SnakeGame.play_y0 w1) (Z.quot (SnakeGame.play_h w1) 2)))
      in Hb.
    remember (SnakeGame.set_score 0 _) as w0 eqn:Ew0.
    assert (B0 : SnakeGame.body w0 = fst r) by (subst w0; reflexivity).
    assert (D0 : SnakeGame.dir_x w0 = 1 /\ SnakeGame.dir_y w0 = 0
                 /\ SnakeGame.score w0 = 0) by (subst w0; repeat split).
    destruct D0 as (Dx0 & Dy0 & Sc0).
    destruct (SnakeFacts.sg_spawn_food_sound _ _ _ H1) as (_ & j & _ & Hf & Hfree & _).
    destruct (sg_spawn_food_frame _ _ _ H1) as (B & Dx & Dy & Sc & _).
    rewrite Hf, B, Dx, Dy, Sc, Dx0, Dy0, Sc0, B0, Hb.
    rewrite B0, Hb in Hfree.
    split; [ reflexivity | ]. split; [ reflexivity | ]. split; [ reflexivity | ].
    split; [ exact Hfree | ].
    intros Hx Hy. apply row_trail; [ exact Hx | exact Hy ].
  - unfold SnakeFull.init_game in H2.
    destruct (SnakeFull.grow _ _ _ _ _) as [r | | ] eqn:Eg; cbn [bind] in H2;
      try discriminate.
    apply (sf_grow_done 35 0%nat) in Eg. destruct Eg as (Hb & _).
    change (fst r = row_of 35 (Z.quot (SnakeFull.max_x w2) 2)
                          (Z.quot (SnakeFull.max_y w2) 2)) in Hb.
    remember (SnakeFull.set_body _ _) as w0 eqn:Ew0.
    assert (B0 : SnakeFull.body w0 = fst r) by (subst w0; reflexivity).
    assert (D0 : SnakeFull.dir_x w0 = 1 /\ SnakeFull.dir_y w0 = 0
                 /\ SnakeFull.score w0 = SnakeFull.score w2)
      by (subst w0; repeat split).
    destruct D0 as (Dx0 & Dy0 & Sc0).
    destruct (SnakeFacts.sf_spawn_food_sound _ _ _ H2) as (_ & j & _ & Hf & Hfree & _).
    destruct (sf_spawn_food_frame _ _ _ H2) as (B & Dx & Dy & Sc & _).
    rewrite Hf, B, Dx, Dy, Sc, Dx0, Dy0, Sc0, B0, Hb.
    rewrite B0, Hb in Hfree.
    split; [ reflexivity | ]. split; [ reflexivity | ]. split; [ reflexivity | ].
    split; [ exact Hfree | ].
    intros Hx Hy. apply row_trail; [ exact Hx | exact Hy ].
Qed.

(** On a terminal of 80 x 24 both games start, the snakes with their
    heads at (40, 12). *)
Lemma init_game_lays_the_snake_witness :
  exists w1' w2',
    SnakeGame.init_game 1 (layout sg_terminal) = Done w1'
    /\ SnakeFull.init_game 1 sf_terminal = Done w2'
    /\ SnakeGame.body w1' = row_of 12 40 12
    /\ SnakeFull.body w2' = row_of 35 40 12.
Proof.
  eexists. eexists.
  split; [ vm_compute; reflexivity | ]. split; [ vm_compute; reflexivity | ].
  match goal with
  | |- SnakeGame.body ?a = _ /\ SnakeFull.body ?b = _ =>
      destruct (init_game_lays_the_snake 1 (layout sg_terminal) a sf_terminal b)
        as [(H1 & _) (H2 & _)]
  end.
  - vm_compute. reflexivity.
  - vm_compute. reflexivity.
  - split; [ exact H1 | exact H2 ].
Defined.

(** X21.  The snake games write through the result of [malloc] without
    a test: if one of the 12 (35) allocations of [init_game] fails the
    program writes through a null pointer, and so does [move_snake]
    when its allocation fails. *)
Theorem snake_allocations_are_unchecked (fuel k1 k2 : nat)
    (w1 : SnakeGame.World) (w2 : SnakeFull.World) :
  (k1 < 12)%nat ->
  (k2 < 35)%nat ->
  Libc.malloc_src (SnakeGame.libc w1) (Libc.malloc_pos (SnakeGame.libc w1) + k1) = false ->
  Libc.malloc_src (SnakeFull.libc w2) (Libc.malloc_pos (SnakeFull.libc w2) + k2) = false ->
  SnakeGame.init_game fuel w1 = Fault
  /\ SnakeFull.init_game fuel w2 = Fault
  /\ (k1 = 0%nat -> SnakeGame.move_snake fuel w1 = Fault)
  /\ (k2 = 0%nat -> SnakeFull.move_snake fuel w2 = Fault).
Proof.
  intros Hk1 Hk2 M1 M2. split; [ | split; [ | split ] ].
  - unfold SnakeGame.init_game. cbv zeta.
    change (Z.to_nat SnakeGame.INITIAL_SNAKE_LEN) with 12%nat.
    rewrite (sg_grow_fault 12 _ _ _ _ k1 Hk1 M1). reflexivity.
  - unfold SnakeFull.init_game.
    rewrite (sf_grow_fault 35 _ _ _ _ k2 Hk2 M2). reflexivity.
  - intros ->. rewrite Nat.add_0_r in M1. unfold SnakeGame.move_snake.
    destruct (SnakeGame.body w1); [ reflexivity | ].
    unfold Libc.malloc. rewrite M1. reflexivity.
  - intros ->. rewrite Nat.add_0_r in M2. unfold SnakeFull.move_snake.
    destruct (SnakeFull.body w2); [ reflexivity | ].
    unfold Libc.malloc. rewrite M2. reflexivity.
Qed.

(** The third allocation fails. *)
Lemma snake_allocations_are_unchecked_witness :
  SnakeGame.init_game 1 (SnakeGame.set_libc starved (layout sg_terminal)) = Fault
  /\ SnakeFull.init_game 1 (SnakeFull.set_libc starved sf_terminal) = Fault.
Proof.
  destruct (snake_allocations_are_unchecked 1 2 2
              (SnakeGame.set_libc starved (layout sg_terminal))
              (SnakeFull.set_libc starved sf_terminal))
    as (H1 & H2 & _).
  - lia.
  - lia.
  - vm_compute. reflexivity.
  - vm_compute. reflexivity.
  - split; [ exact H1 | exact H2 ].
Defined.

(** *** A moving snake *)

(** X22.  A snake that is still moving is inside the border and has not
    run into itself: when an iteration of the main loop returns without
    ending the program and leaves the game running, the head is
    strictly inside the border and on no other segment.  The corners
    of the area are taken inside the range of [int]. *)
Theorem running_snake_is_inside (fuel : nat) (ch : Z)
    (w1 w1' : SnakeGame.World) (w2 w2' : SnakeFull.World) :
  CInt.INT_MIN < SnakeGame.play_x0 w1 + SnakeGame.play_w w1 <= CInt.INT_MAX ->
  CInt.INT_MIN < SnakeGame.play_y0 w1 + SnakeGame.play_h w1 <= CInt.INT_MAX ->
  CInt.INT_MIN < SnakeFull.max_x w2 <= CInt.INT_MAX ->
  CInt.INT_MIN < SnakeFull.max_y w2 <= CInt.INT_MAX ->
  SnakeGame.tick fuel ch w1 = Done (w1', false) ->
  SnakeFull.tick fuel ch w2 = Done (w2', false) ->
  CInt.truthy (SnakeGame.paused w1') = false ->
  CInt.truthy (SnakeFull.paused w2') = false ->
  (exists h t, SnakeGame.body w1' = h :: t
               /\ sg_inside w1 (s_x h) (s_y h) /\ ~ In h t)
  /\ (exists h t, SnakeFull.body w2' = h :: t
                  /\ sf_inside w2 (s_x h) (s_y h) /\ ~ In h t).
Proof.
  intros X1 Y1 X2 Y2 T1 T2 P1 P2. split.
  - exact (sg_tick_running_safe fuel ch w1 w1' X1 Y1 T1 P1).
  - exact (sf_tick_running_safe fuel ch w2 w2' X2 Y2 T2 P2).
Qed.

(** The cruising snakes turn up and move on. *)
Lemma running_snake_is_inside_witness :
  exists w1' w2',
    SnakeGame.tick 2 Key.KEY_UP sg_cruising = Done (w1', false)
    /\ SnakeFull.tick 2 Key.KEY_UP sf_cruising = Done (w2', false)
    /\ (exists h t, SnakeGame.body w1' = h :: t
                    /\ sg_inside sg_cruising (s_x h) (s_y h) /\ ~ In h t)
    /\ (exists h t, SnakeFull.body w2' = h :: t
                    /\ sf_inside sf_cruising (s_x h) (s_y h) /\ ~ In h t).
Proof.
  eexists. eexists.
  split; [ vm_compute; reflexivity | ]. split; [ vm_compute; reflexivity | ].
  eapply (running_snake_is_inside 2 Key.KEY_UP sg_cruising _ sf_cruising _).
  - vm_compute. split; [ reflexivity | discriminate ].
  - vm_compute. split; [ reflexivity | discriminate ].
  - vm_compute. split; [ reflexivity | discriminate ].
  - vm_compute. split; [ reflexivity | discriminate ].
  - vm_compute. reflexivity.
  - vm_compute. reflexivity.
  - vm_compute. reflexivity.
  - vm_compute. reflexivity.
Defined.

(** *** The food *)

Lemma rand_rem_small l m :
  0 < m -> 0 <= CInt.rem (fst (Libc.rand l)) m < m.
Proof.
  intros Hm. pose proof (CIntFacts.rand_bounds l) as Hr.
  unfold CInt.rem. apply Z.rem_bound_pos; lia.
Qed.

Lemma sg_spawn_food_inside fuel : forall w w',
  3 <= SnakeGame.play_w w <= CInt.INT_MAX ->
  3 <= SnakeGame.play_h w <= CInt.INT_MAX ->
  CInt.INT_MIN <= SnakeGame.play_x0 w ->
  CInt.INT_MIN <= SnakeGame.play_y0 w ->
  SnakeGame.play_x0 w + SnakeGame.play_w w <= CInt.INT_MAX ->
  SnakeGame.play_y0 w + SnakeGame.play_h w <= CInt.INT_MAX ->
  SnakeGame.spawn_food fuel w = Done w' ->
  sg_inside w (f_x (SnakeGame.food w')) (f_y (SnakeGame.food w')).
Proof.
  induction fuel as [ | fuel IH]; intros w w' Hw Hh Hx0 Hy0 Hx Hy H;
    cbn [SnakeGame.spawn_food] in H; [ discriminate | ].
  pose proof (rand_rem_small (SnakeGame.libc w) (SnakeGame.play_w w - 2)
                ltac:(lia)) as R1.
  destruct (Libc.rand (SnakeGame.libc w)) as [r1 l1]. cbn [fst] in R1.
  rewrite (CIntFacts.sub_exact (SnakeGame.play_w w) 2) in H by in_int.
  rewrite (CIntFacts.sub_exact (SnakeGame.play_h w) 2) in H by in_int.
  destruct (Z.eqb_spec (SnakeGame.play_w w - 2) 0); [ lia | ].
  pose proof (rand_rem_small l1 (SnakeGame.play_h w - 2) ltac:(lia)) as R2.
  destruct (Libc.rand l1) as [r2 l2]. cbn [fst] in R2.
  destruct (Z.eqb_spec (SnakeGame.play_h w - 2) 0); [ lia | ].
  destruct (conflict _ _ _).
  - exact (IH (SnakeGame.set_libc l2 w) w' Hw Hh Hx0 Hy0 Hx Hy H).
  - injection H as <-. unfold sg_inside.
    cbn [SnakeGame.food SnakeGame.set_food f_x f_y].
    set (a := CInt.rem r1 (SnakeGame.play_w w - 2)) in *.
    set (b := CInt.rem r2 (SnakeGame.play_h w - 2)) in *.
    rewrite (CIntFacts.add_exact a) by in_int.
    rewrite (CIntFacts.add_exact b) by in_int.
    rewrite !CIntFacts.add_exact by in_int. lia.
Qed.

Lemma sf_spawn_food_inside fuel : forall w w',
  3 <= SnakeFull.max_x w <= CInt.INT_MAX ->
  4 <= SnakeFull.max_y w <= CInt.INT_MAX ->
  SnakeFull.spawn_food fuel w = Done w' ->
  sf_inside w (f_x (SnakeFull.food w')) (f_y (SnakeFull.food w')).
Proof.
  induction fuel as [ | fuel IH]; intros w w' Hx Hy H;
    cbn [SnakeFull.spawn_food] in H; [ discriminate | ].
  pose proof (rand_rem_small (SnakeFull.libc w) (SnakeFull.max_x w - 2)
                ltac:(lia)) as R1.
  destruct (Libc.rand (SnakeFull.libc w)) as [r1 l1]. cbn [fst] in R1.
  rewrite (CIntFacts.sub_exact (SnakeFull.max_x w) 2) in H by in_int.
  rewrite (CIntFacts.sub_exact (SnakeFull.max_y w) 3) in H by in_int.
  destruct (Z.eqb_spec (SnakeFull.max_x w - 2) 0); [ lia | ].
  pose proof (rand_rem_small l1 (SnakeFull.max_y w - 3) ltac:(lia)) as R2.
  destruct (Libc.rand l1) as [r2 l2]. cbn [fst] in R2.
  destruct (Z.eqb_spec (SnakeFull.max_y w - 3) 0); [ lia | ].
  destruct (conflict _ _ _).
  - exact (IH (SnakeFull.set_libc l2 w) w' Hx Hy H).
  - injection H as <-. unfold sf_inside.
    cbn [SnakeFull.food SnakeFull.set_food f_x f_y].
    set (a := CInt.rem r1 (SnakeFull.max_x w - 2)) in *.
    set (b := CInt.rem r2 (SnakeFull.max_y w - 3)) in *.
    rewrite (CIntFacts.add_exact a) by in_int.
    rewrite (CIntFacts.add_exact b) by in_int.
    cbn [SnakeFull.max_x SnakeFull.max_y SnakeFull.set_libc]. lia.
Qed.

(** X23.  The food is always put where the snake can eat it: when the
    play area has at least one cell inside its border (3 columns and 3
    rows; 3 columns and 4 rows of terminal in the game on the whole
    terminal) and its corners are in the range of [int], the cell
    [spawn_food] chooses is strictly inside the border, one of the
    cells where [check_collision] finds no wall. *)
Theorem food_is_inside_the_border (fuel : nat)
    (w1 w1' : SnakeGame.World) (w2 w2' : SnakeFull.World) :
  3 <= SnakeGame.play_w w1 <= CInt.INT_MAX ->
  3 <= SnakeGame.play_h w1 <= CInt.INT_MAX ->
  CInt.INT_MIN <= SnakeGame.play_x0 w1 ->
  CInt.INT_MIN <= SnakeGame.play_y0 w1 ->
  SnakeGame.play_x0 w1 + SnakeGame.play_w w1 <= CInt.INT_MAX ->
  SnakeGame.play_y0 w1 + SnakeGame.play_h w1 <= CInt.INT_MAX ->
  3 <= SnakeFull.max_x w2 <= CInt.INT_MAX ->
  4 <= SnakeFull.max_y w2 <= CInt.INT_MAX ->
  SnakeGame.spawn_food fuel w1 = Done w1' ->
  SnakeFull.spawn_food fuel w2 = Done w2' ->
  sg_inside w1 (f_x (SnakeGame.food w1')) (f_y (SnakeGame.food w1'))
  /\ sf_inside w2 (f_x (SnakeFull.food w2')) (f_y (SnakeFull.food w2')).
Proof.
  intros Hw Hh Hx0 Hy0 Hx Hy Mx My H1 H2. split.
  - exact (sg_spawn_food_inside fuel w1 w1' Hw Hh Hx0 Hy0 Hx Hy H1).
  - exact (sf_spawn_food_inside fuel w2 w2' Mx My H2).
Qed.

(** The cruising snakes get new food, at (43, 12). *)
Lemma food_is_inside_the_border_witness :
  exists w1' w2',
    SnakeGame.spawn_food 1 sg_cruising = Done w1'
    /\ SnakeFull.spawn_food 1 sf_cruising = Done w2'
    /\ sg_inside sg_cruising (f_x (SnakeGame.food w1')) (f_y (SnakeGame.food w1'))
    /\ sf_inside sf_cruising (f_x (SnakeFull.food w2')) (f_y (SnakeFull.food w2')).
Proof.
  eexists. eexists.
  split; [ vm_compute; reflexivity | ]. split; [ vm_compute; reflexivity | ].
  eapply (food_is_inside_the_border 1 sg_cruising _ sf_cruising _).
  - vm_compute. split; discriminate.
  - vm_compute. split; discriminate.
  - vm_compute. discriminate.
  - vm_compute. discriminate.
  - vm_compute. discriminate.
  - vm_compute. discriminate.
  - vm_compute. split; discriminate.
  - vm_compute. split; discriminate.
  - vm_compute. reflexivity.
  - vm_compute. reflexivity.
Defined.

(** *** The play area of snake_game.c *)

Lemma half_bounds a : 0 <= a -> 2 * Z.quot a 2 <= a <= 2 * Z.quot a 2 + 1.
Proof.
  intros Ha. pose proof (Z.quot_rem' a 2) as E.
  pose proof (Z.rem_bound_pos a 2 Ha ltac:(lia)). lia.
Qed.

Lemma percent_bounds a :
  0 <= a -> 100 * Z.quot (a * 50) 100 <= a * 50 <= 100 * Z.quot (a * 50) 100 + 99.
Proof.
  intros Ha. pose proof (Z.quot_rem' (a * 50) 100) as E.
  pose proof (Z.rem_bound_pos (a * 50) 100 ltac:(lia) ltac:(lia)). lia.
Qed.

(** X24.  The play area [main] of snake_game.c computes fits the
    terminal: on a terminal of at least 7 columns and 7 rows (and small
    enough for [max * 50] to be an [int]) the area is at least 3 wide
    and 3 high, so that it has a cell inside its border, it lies within
    the terminal and it is centred to within one cell. *)
Theorem play_area_fits_the_terminal (w : SnakeGame.World) :
  7 <= SnakeGame.max_x w ->
  7 <= SnakeGame.max_y w ->
  SnakeGame.max_x w * 50 <= CInt.INT_MAX ->
  SnakeGame.max_y w * 50 <= CInt.INT_MAX ->
  3 <= SnakeGame.play_w (layout w) <= SnakeGame.max_x w
  /\ 3 <= SnakeGame.play_h (layout w) <= SnakeGame.max_y w
  /\ 0 <= SnakeGame.play_x0 (layout w)
  /\ 0 <= SnakeGame.play_y0 (layout w)
  /\ SnakeGame.play_x0 (layout w) + SnakeGame.play_w (layout w) <= SnakeGame.max_x w
  /\ SnakeGame.play_y0 (layout w) + SnakeGame.play_h (layout w) <= SnakeGame.max_y w
  /\ 0 <= SnakeGame.max_x w - SnakeGame.play_w (layout w)
          - 2 * SnakeGame.play_x0 (layout w) <= 1
  /\ 0 <= SnakeGame.max_y w - SnakeGame.play_h (layout w)
          - 2 * SnakeGame.play_y0 (layout w) <= 1.
Proof.
  intros Hx Hy Mx My. unfold layout.
  cbn [SnakeGame.play_w SnakeGame.play_h SnakeGame.play_x0 SnakeGame.play_y0].
  unfold CInt.mul.
  rewrite (CIntFacts.wrap_id (SnakeGame.max_x w * 50)) by in_int.
  rewrite (CIntFacts.wrap_id (SnakeGame.max_y w * 50)) by in_int.
  pose proof (percent_bounds (SnakeGame.max_x w) ltac:(lia)) as Px.
  pose proof (percent_bounds (SnakeGame.max_y w) ltac:(lia)) as Py.
  set (qx := Z.quot (SnakeGame.max_x w * 50) 100) in *.
  set (qy := Z.quot (SnakeGame.max_y w * 50) 100) in *.
  assert (Ew : exists pw, (if qx <? 20 then CInt.sub (SnakeGame.max_x w) 4 else qx) = pw
                          /\ 3 <= pw <= SnakeGame.max_x w).
  { destruct (Z.ltb_spec qx 20).
    - rewrite CIntFacts.sub_exact by in_int. eexists. split; [ reflexivity | lia ].
    - eexists. split; [ reflexivity | lia ]. }
  assert (Eh : exists ph, (if qy <? 10 then CInt.sub (SnakeGame.max_y w) 4 else qy) = ph
                          /\ 3 <= ph <= SnakeGame.max_y w).
  { destruct (Z.ltb_spec qy 10).
    - rewrite CIntFacts.sub_exact by in_int. eexists. split; [ reflexivity | lia ].
    - eexists. split; [ reflexivity | lia ]. }
  destruct Ew as (pw & -> & Hpw). destruct Eh as (ph & -> & Hph).
  rewrite (CIntFacts.sub_exact (SnakeGame.max_x w) pw) by in_int.
  rewrite (CIntFacts.sub_exact (SnakeGame.max_y w) ph) by in_int.
  pose proof (half_bounds (SnakeGame.max_x w - pw) ltac:(lia)) as Bx.
  pose proof (half_bounds (SnakeGame.max_y w - ph) ltac:(lia)) as By.
  lia.
Qed.

(** A terminal of 80 x 24: the play area is 40 x 12 at (20, 6). *)
Lemma play_area_fits_the_terminal_witness :
  3 <= SnakeGame.play_w (layout sg_terminal) <= 80
  /\ 3 <= SnakeGame.play_h (layout sg_terminal) <= 24.
Proof.
  destruct (play_area_fits_the_terminal sg_terminal) as (H1 & H2 & _).
  - vm_compute. discriminate.
  - vm_compute. discriminate.
  - vm_compute. discriminate.
  - vm_compute. discriminate.
  - split; [ exact H1 | exact H2 ].
Defined.

Lemma sg_grow_returns n : forall i sx sy l,
  SnakeGame.grow n i sx sy l <> Timeout.
Proof.
  induction n as [ | n IH]; intros i sx sy l; cbn [SnakeGame.grow];
    [ discriminate | ].
  destruct (Libc.malloc l) as [ok l']. destruct ok; cbn [negb]; [ | discriminate ].
  specialize (IH (i + 1) sx sy l').
  destruct (SnakeGame.grow n (i + 1) sx sy l'); cbn [bind];
    [ discriminate | discriminate | congruence ].
Qed.

(** X25.  On a terminal of 6 columns or of 6 rows snake_game.c does not
    start: the play area is 2 wide (high), and the first call of
    [spawn_food], the one of [init_game], takes a remainder by
    [play_w - 2] ([play_h - 2]), which is 0 (unless an allocation of
    [init_game] has failed before, which is a fault as well). *)
Theorem tiny_terminal_divides_by_zero (fuel : nat) (w : SnakeGame.World) :
  SnakeGame.max_x w = 6 \/ SnakeGame.max_y w = 6 ->
  start (S fuel) w = Fault.
Proof.
  intros H6. unfold start, SnakeGame.init_game. cbv zeta.
  pose proof (sg_grow_returns (Z.to_nat SnakeGame.INITIAL_SNAKE_LEN) 0
    (CInt.add (SnakeGame.play_x0 (layout w)) (Z.quot (SnakeGame.play_w (layout w)) 2))
    (CInt.add (SnakeGame.play_y0 (layout w)) (Z.quot (SnakeGame.play_h (layout w)) 2))
    (SnakeGame.libc (layout w))) as Hg.
  destruct (SnakeGame.grow _ _ _ _ _) as [r | | ]; cbn [bind];
    [ | reflexivity | congruence ].
  cbn [SnakeGame.spawn_food].
  destruct (Libc.rand _) as [r1 l1].
  destruct (Z.eqb_spec (CInt.sub (SnakeGame.play_w
      (SnakeGame.set_score 0
         (SnakeGame.set_body (fst r)
            (SnakeGame.set_libc (snd r) (SnakeGame.set_dir 1 0 (layout w)))))) 2) 0)
    as [ | Hne]; [ reflexivity | ].
  destruct (Libc.rand l1) as [r2 l2].
  destruct (Z.eqb_spec (CInt.sub (SnakeGame.play_h
      (SnakeGame.set_score 0
         (SnakeGame.set_body (fst r)
            (SnakeGame.set_libc (snd r) (SnakeGame.set_dir 1 0 (layout w)))))) 2) 0)
    as [ | Hne']; [ reflexivity | ].
  exfalso. destruct H6 as [E | E].
  - apply Hne. cbn. rewrite E. vm_compute. reflexivity.
  - apply Hne'. cbn. rewrite E. vm_compute. reflexivity.
Qed.

(** A terminal of 6 x 24. *)
Lemma tiny_terminal_divides_by_zero_witness :
  start 1 (SnakeGame.mkWorld 6 24 0 0 0 0 [] 0 0 (mkFood 0 0) 0 0
             (Libc.scripted [22; 5] [])) = Fault.
Proof.
  apply (tiny_terminal_divides_by_zero 0). left. reflexivity.
Defined.

(** *** Pause *)

(** X26.  A paused snake game waits: an iteration of the main loop with
    any key but the pause key and the quit key leaves the world exactly
    as it was and does not end the program.  The pause key resumes the
    game, and the snake moves in that same iteration. *)
Theorem paused_snake_waits (fuel : nat) (ch : Z)
    (w1 : SnakeGame.World) (w2 : SnakeFull.World) :
  CInt.truthy (SnakeGame.paused w1) = true ->
  CInt.truthy (SnakeFull.paused w2) = true ->
  Key.quit_key ch = false ->
  (Key.pause_key ch = false ->
   SnakeGame.tick fuel ch w1 = Done (w1, false)
   /\ SnakeFull.tick fuel ch w2 = Done (w2, false))
  /\ (Key.pause_key ch = true ->
      SnakeGame.tick fuel ch w1
      = (w' <- SnakeGame.move_snake fuel (SnakeGame.set_paused 0 w1) ;;
         hit <- SnakeGame.check_collision w' ;;
         if (hit : bool) then Done (SnakeGame.end_game w', true)
         else Done (w', false))
      /\ SnakeFull.tick fuel ch w2
         = (w' <- SnakeFull.move_snake fuel (SnakeFull.set_paused 0 w2) ;;
            hit <- SnakeFull.check_collision w' ;;
            Done (w', (hit : bool)))).
Proof.
  intros P1 P2 Hq. unfold SnakeGame.tick, SnakeFull.tick. rewrite Hq.
  rewrite (SnakeFacts.sg_steer_paused ch w1 P1), (SnakeFacts.sf_steer_paused ch w2 P2).
  split; intros Hp; rewrite Hp.
  - rewrite P1, P2. split; reflexivity.
  - unfold CInt.truthy in P1, P2. unfold CInt.lnot.
    destruct (SnakeGame.paused w1 =? 0); [ discriminate | ].
    destruct (SnakeFull.paused w2 =? 0); [ discriminate | ].
    split; reflexivity.
Qed.

(** The paused snakes get an arrow key. *)
Lemma paused_snake_waits_witness :
  SnakeGame.tick 2 Key.KEY_UP sg_resting = Done (sg_resting, false)
  /\ SnakeFull.tick 2 Key.KEY_UP sf_resting = Done (sf_resting, false).
Proof.
  destruct (paused_snake_waits 2 Key.KEY_UP sg_resting sf_resting) as [H _].
  - vm_compute. reflexivity.
  - vm_compute. reflexivity.
  - vm_compute. reflexivity.
  - apply H. vm_compute. reflexivity.
Defined.

End SnakeMoreFacts.

(** ** The platformer over the frames: what a reset brings back, and
       the end of the game *)

Module MarioRunFacts.

Import F32 Mario Shape Scenario Scenario2.

Lemma cleared_same_map w w' : same_map w w' -> cleared w -> cleared w'.
Proof.
  intros Hs [Hg Hn]. split; [ exact (MarioMapFacts.grid_same_map w w' Hs Hg) | ].
  intros x y. rewrite (MarioMapFacts.map_at_same_map w w' x y Hs). apply Hn.
Qed.

Lemma same_map_refl w : same_map w w.
Proof. repeat split. Qed.

Lemma same_map_trans w1 w2 w3 : same_map w1 w2 -> same_map w2 w3 -> same_map w1 w3.
Proof.
  intros (A1 & A2 & A3) (B1 & B2 & B3). unfold same_map.
  rewrite B1, B2, B3. repeat split; assumption.
Qed.

(** Writing a space leaves the map without markers. *)
Lemma cleared_set_space w mx my : cleared w -> cleared (set_map_char mx my SPACE w).
Proof.
  intros [Hg Hn]. split; [ apply MarioMapFacts.grid_set_map_char, Hg | ].
  intros x y.
  destruct (Z.eq_dec x mx) as [-> | Hx]; [ destruct (Z.eq_dec y my) as [-> | Hy] | ].
  - unfold set_map_char.
    destruct ((mx <? 0) || (my <? 0) || (map_h w <=? my) || (map_w w <=? mx)) eqn:E;
      [ apply Hn | ].
    pose proof (MarioMapFacts.bool_inside w mx my E) as Hin.
    pose proof (MarioMapFacts.map_at_set_same w mx my SPACE Hg Hin) as Hs.
    unfold set_map_char in Hs. rewrite E in Hs. rewrite Hs. discriminate.
  - rewrite MarioMapFacts.map_at_set_other; [ apply Hn | congruence ].
  - rewrite MarioMapFacts.map_at_set_other; [ apply Hn | congruence ].
Qed.

Lemma cleared_reset w : grid w -> cleared (reset_level w).
Proof.
  intros Hg. destruct (MarioMapFacts.reset_level_scan w) as (w4 & Hsame & _ & E).
  rewrite E.
  exact (MarioMapFacts.spawn_clears w4 (MarioMapFacts.grid_same_map w w4 Hsame Hg)).
Qed.

Lemma reset_no_enemies w : no_marker w -> enemy_count (reset_level w) = 0.
Proof.
  intros Hno. destruct (MarioMapFacts.reset_level_scan w) as (w4 & Hsame & Hcount & E).
  rewrite E, MarioMapFacts.spawn_nothing; [ exact Hcount | ].
  intros x y. rewrite (MarioMapFacts.map_at_same_map w w4 x y Hsame). apply Hno.
Qed.

Lemma move_vertical_frame w :
  same_map w (move_vertical w)
  /\ pl_lives (player (move_vertical w)) = pl_lives (player w)
  /\ enemy_count (move_vertical w) = enemy_count w.
Proof.
  unfold move_vertical. cbv zeta.
  repeat match goal with
         | |- context [ if ?c then _ else _ ] => destruct c
         end; repeat split.
Qed.

Lemma cleared_check_fall w : cleared w -> cleared (check_fall w).
Proof.
  intros Hc. unfold check_fall. destruct (below_map w); [ | exact Hc ].
  cbv zeta. destruct (_ <=? 0).
  - apply (cleared_same_map w); [ repeat split | exact Hc ].
  - apply cleared_reset.
    apply (MarioMapFacts.grid_same_map w); [ repeat split | exact (proj1 Hc) ].
Qed.

Lemma cleared_pickup w : cleared w -> cleared (pickup w).
Proof.
  intros Hc. unfold pickup. cbv zeta.
  destruct (is_char _ "o").
  - apply cleared_set_space. apply (cleared_same_map w); [ repeat split | exact Hc ].
  - destruct (is_char _ ">"); [ | exact Hc ].
    apply (cleared_same_map w); [ repeat split | exact Hc ].
Qed.

Lemma update_enemies_same_map w : same_map w (update_enemies w).
Proof.
  unfold update_enemies.
  apply (MarioFacts.for_range_inv (fun s => same_map w s)); [ | repeat split ].
  intros i s Hs. unfold patrol.
  destruct (negb (CInt.truthy (en_alive (enemy_at s i)))); [ exact Hs | ].
  destruct (negb (tile_collide s _ _)); exact Hs.
Qed.

Lemma contact_step_same_map ptx pty i w : same_map w (contact_step ptx pty i w).
Proof.
  unfold contact_step, stomp, hurt. cbv zeta.
  repeat match goal with
         | |- context [ if ?c then _ else _ ] => destruct c
         end; repeat split.
Qed.

Lemma check_enemy_collisions_same_map w : same_map w (check_enemy_collisions w).
Proof.
  unfold check_enemy_collisions. destruct (player_tile w) as [ptx pty].
  apply (MarioFacts.for_range_inv (fun s => same_map w s)); [ | repeat split ].
  intros i s Hs. exact (same_map_trans w s _ Hs (contact_step_same_map ptx pty i s)).
Qed.

Lemma cleared_update w : cleared w -> cleared (update w).
Proof.
  intros Hc. unfold update. destruct (_ && _); [ | exact Hc ].
  unfold update_physics.
  pose proof (cleared_pickup _ (cleared_check_fall _
                (cleared_same_map _ _ (proj1 (move_vertical_frame w)) Hc))) as H1.
  apply (cleared_same_map _ _ (update_enemies_same_map _)) in H1.
  exact (cleared_same_map _ _ (check_enemy_collisions_same_map _) H1).
Qed.

Lemma move_key_same_map ch w : same_map w (move_key ch w).
Proof.
  unfold move_key. cbv zeta.
  repeat match goal with
         | |- context [ if ?c then _ else _ ] => destruct c
         end; repeat split.
Qed.

Lemma handle_key_same_map ch w : same_map w (fst (handle_key ch w)).
Proof.
  unfold handle_key.
  destruct (Key.pause_key ch); [ repeat split | ].
  destruct (Key.quit_key ch); [ repeat split | ].
  destruct (_ || _); [ repeat split | apply move_key_same_map ].
Qed.

Lemma handle_input_same_map keys : forall w, same_map w (fst (handle_input keys w)).
Proof.
  induction keys as [ | ch keys IH]; intros w; [ repeat split | ].
  cbn [handle_input].
  pose proof (handle_key_same_map ch w) as Hk.
  destruct (handle_key ch w) as [w1 go_on]. cbn [fst] in Hk.
  destruct go_on; [ | exact Hk ].
  exact (same_map_trans w w1 _ Hk (IH w1)).
Qed.

(** X27.  The enemies of the platformer do not come back.  When
    [load_map] returns in [main] (it does when its allocations
    succeed), the first [reset_level] takes the enemy markers off the
    map, and nothing writes one: from then on the map is a grid without
    markers after every input phase, every update and every reset.  So
    every later [reset_level] (the one of a fall that leaves a life, the
    one of a restart) registers no enemy, and after such a fall
    [update_physics] returns with an enemy count of 0. *)
Theorem enemies_do_not_come_back (l : Libc.t) (keys : list Z) (w : World) :
  (forall w0, initial l = Done w0 -> cleared w0)
  /\ ((forall k, (k <= List.length level_map)%nat ->
         Libc.malloc_src l (Libc.malloc_pos l + k) = true) ->
      exists w0, initial l = Done w0)
  /\ (cleared w ->
      cleared (fst (handle_input keys w))
      /\ cleared (update w)
      /\ cleared (reset_level w)
      /\ enemy_count (reset_level w) = 0
      /\ (below_map (move_vertical w) = true ->
          0 < CInt.sub (pl_lives (player w)) 1 ->
          enemy_count (update_physics w) = 0)).
Proof.
  split; [ | split ].
  - intros w0 H. unfold initial in H.
    destruct (load_map level_map (zeroed l)) as [w1 | | ] eqn:El;
      cbn [bind] in H; try discriminate.
    injection H as <-. apply cleared_reset.
    apply (MarioMapFacts.load_map_is_grid level_map (zeroed l) w1);
      [ discriminate | exact El ].
  - intros Hm. unfold initial.
    destruct (MarioMapFacts.load_map_returns level_map (zeroed l) Hm) as [w1 E].
    rewrite E. cbn [bind]. eexists. reflexivity.
  - intros Hc.
    split; [ exact (cleared_same_map _ _ (handle_input_same_map keys w) Hc) | ].
    split; [ exact (cleared_update w Hc) | ].
    split; [ exact (cleared_reset w (proj1 Hc)) | ].
    split; [ exact (reset_no_enemies w (proj2 Hc)) | ].
    intros Hb Hl. unfold update_physics.
    destruct (move_vertical_frame w) as (Hs & Hlives & _).
    assert (Ecount : forall v, enemy_count (pickup v) = enemy_count v).
    { intros v. unfold pickup. cbv zeta.
      destruct (is_char _ "o").
      - unfold set_map_char. destruct (_ || _ || _ || _); reflexivity.
      - destruct (is_char _ ">"); reflexivity. }
    rewrite Ecount. unfold check_fall. rewrite Hb. cbv zeta.
    cbn [pl_lives player upd set_player set_lives]. rewrite Hlives.
    destruct (Z.leb_spec (CInt.sub (pl_lives (player w)) 1) 0) as [Hle | _];
      [ lia | ].
    apply reset_no_enemies.
    apply (cleared_same_map (move_vertical w)); [ repeat split | ].
    exact (cleared_same_map _ _ Hs Hc).
Qed.

(** The shipped level starts with its one enemy; the player falls into
    the gap with three lives, and no enemy is left. *)
Lemma enemies_do_not_come_back_witness :
  initial (Libc.scripted [] []) = Done mario_start
  /\ enemy_count mario_start = 1
  /\ enemy_count (update_physics mario_in_gap) = 0.
Proof.
  assert (E : initial (Libc.scripted [] []) = Done mario_start)
    by (vm_compute; reflexivity).
  split; [ exact E | ]. split; [ vm_compute; reflexivity | ].
  destruct (enemies_do_not_come_back (Libc.scripted [] []) [] mario_in_gap)
    as (H0 & _ & H).
  destruct H as (_ & _ & _ & _ & H).
  - apply (cleared_same_map mario_start); [ | exact (H0 mario_start E) ].
    vm_compute. split; [ reflexivity | ]. split; reflexivity.
  - apply H.
    + vm_compute. reflexivity.
    + vm_compute. reflexivity.
Defined.

(** *** The end of the game *)

Lemma handle_input_won keys : forall w,
  CInt.truthy (win w) = true ->
  exists p g, fst (handle_input keys w) = set_game_over g (set_paused p w).
Proof.
  induction keys as [ | ch keys IH]; intros w Hw.
  - exists (paused w), (game_over w). destruct w; reflexivity.
  - cbn [handle_input]. unfold handle_key.
    destruct (Key.pause_key ch).
    + destruct (IH (set_paused (CInt.lnot (paused w)) w) Hw) as (p & g & E).
      exists p, g. rewrite E. destruct w; reflexivity.
    + destruct (Key.quit_key ch).
      * exists (paused w), 1. destruct w; reflexivity.
      * rewrite Hw, orb_true_r. apply IH, Hw.
Qed.

(** X28.  The exit ends the play: with the exit under the player's feet
    [pickup] sets [win] and nothing else; once [win] is set the update
    of a frame does nothing and the input phase changes nothing but the
    pause flag and, on a quit key, [game_over]: the player cannot move
    any more. *)
Theorem exit_wins_and_freezes (keys : list Z) (w : World) :
  map_at w (fst (feet w)) (snd (feet w)) = ">"%char ->
  pickup w = set_win 1 w
  /\ update (pickup w) = pickup w
  /\ exists p g,
       fst (handle_input keys (pickup w))
       = set_game_over g (set_paused p (pickup w)).
Proof.
  intros He.
  assert (Ep : pickup w = set_win 1 w).
  { unfold pickup. cbv zeta. unfold feet in He. cbn [fst snd] in He.
    rewrite He. reflexivity. }
  split; [ exact Ep | ]. rewrite Ep. split.
  - unfold update. cbn [win set_win]. rewrite andb_false_r. reflexivity.
  - apply handle_input_won. reflexivity.
Qed.

(** The player on the exit of the shipped level. *)
Lemma exit_wins_and_freezes_witness :
  win (pickup mario_at_exit) = 1
  /\ update (pickup mario_at_exit) = pickup mario_at_exit.
Proof.
  destruct (exit_wins_and_freezes [] mario_at_exit) as (E & H & _).
  - vm_compute. reflexivity.
  - split; [ rewrite E; reflexivity | exact H ].
Defined.

End MarioRunFacts.
